(** * ib_console: the reconciliation engine, the order-status mapper, the
    contract resolver and the market-data cache

    A shallow embedding of [ibc/data_models.py], [ibc/market_data.py] and
    [ibc/ib_service.py].  Python objects become records, the mutable object
    graph (the [IBBroker] service, its [md.Server], the [Account] being
    refreshed) becomes one explicit state threaded by a state-and-exception
    monad, and Python's [float] is the kernel's IEEE 754 binary64 type.

    Conventions of the embedding:
    - the broker ([ib.IB]) is a record of the snapshots it answers with
      during one call, and every request sent to it is appended to a trace;
    - [datetime.utcnow()] and [datetime.now()] are two clock readings given
      to the call; a bar's date is the timestamp it parses to;
    - a [Position] carries the identity of its Python object, because
      [IBBroker.__position_chart_data] is searched with [is];
    - constructing a [Position] or an [Order] with [account=...] appends it
      to [account.positions] or [account.orders], as the ORM relationship
      does;
    - [logging] calls are left out, and [__init_ib_app] has nothing to do:
      the service is built over a given [app], as in the tests. *)

From Stdlib Require Import ZArith List Bool Lia Floats.
From stdpp Require Import base option list strings gmap.

Open Scope Z_scope.

(** ** Python runtime *)

(** The exceptions the modelled code can raise.  [IBAccountSelectionError]
    is the bare [Exception("IB account selection error")] of
    [get_account_code]. *)
Inductive exn : Type :=
  | ValueError
  | TypeError
  | KeyError
  | ZeroDivisionError
  | OverflowError
  | IndexError
  | RecursionError
  | IBAccountSelectionError.

Inductive result (A : Type) : Type :=
  | Ok (a : A)
  | Raise (e : exn).
Arguments Ok {A} a.
Arguments Raise {A} e.

Definition rbind {A B} (r : result A) (k : A -> result B) : result B :=
  match r with
  | Ok a => k a
  | Raise e => Raise e
  end.

Fixpoint rmapM {A B} (f : A -> result B) (l : list A) : result (list B) :=
  match l with
  | [] => Ok []
  | x :: l' => rbind (f x) (fun y => rbind (rmapM f l') (fun ys => Ok (y :: ys)))
  end.

(** What the code asks of the Python runtime and cannot be computed from
    the repository: printing a float ([str(strike)]), printing the local
    time ([str(datetime.now())]) and parsing the broker's account-summary
    strings ([float(acs.value)], [int(acs.value)], [None] standing for the
    [ValueError] Python raises on a malformed string). *)
Class PyRuntime : Type := {
  str_float : float -> string;
  str_datetime : Z -> string;
  float_of_str : string -> option float;
  int_of_str : string -> option Z
}.

(** [float(z)] for a Python int: the nearest binary64, ties to even. *)
Definition float_of_int (z : Z) : float :=
  SF2Prim (binary_normalize prec emax z 0 false).

(** [int(f)]: truncation toward zero; [ValueError] on NaN and
    [OverflowError] on an infinity. *)
Definition int_of_float (f : float) : result Z :=
  match Prim2SF f with
  | S754_zero _ => Ok 0
  | S754_finite s m e =>
      let a := if 0 <=? e then Z.pos m * 2 ^ e else Z.pos m / 2 ^ (- e) in
      Ok (if s then - a else a)
  | S754_infinity _ => Raise OverflowError
  | S754_nan => Raise ValueError
  end.

(** Truth value of a float: everything but [0.0] and [-0.0]. *)
Definition truthy (f : float) : bool := negb (PrimFloat.eqb f 0%float).

(** [a / b] on floats raises on a zero divisor. *)
Definition py_div (a b : float) : result float :=
  if PrimFloat.eqb b 0%float then Raise ZeroDivisionError
  else Ok (PrimFloat.div a b).

(** [sum(l)]: a left fold from [0]. *)
Definition py_sum (l : list float) : float :=
  fold_left PrimFloat.add l 0%float.

(** [l[i1:i2]] for [0 <= i1]. *)
Definition py_slice {A} (l : list A) (i1 i2 : Z) : list A :=
  take (Z.to_nat (i2 - i1)) (drop (Z.to_nat i1) l).

(** [range(n)]. *)
Definition py_range (n : Z) : list Z :=
  map Z.of_nat (seq 0 (Z.to_nat n)).

(** ** data_models.py *)

Inductive OrderStatus : Type := NEW | SENT | ACTIVE | OK | CANCD | ERROR.

Inductive OrderAction : Type := BUY | SELL.

Definition OrderAction_name (a : OrderAction) : string :=
  match a with BUY => "BUY" | SELL => "SELL" end.

(** [OrderAction[name]], a [KeyError] for any other name. *)
Definition OrderAction_lookup (name : string) : result OrderAction :=
  if String.eqb name "BUY" then Ok BUY
  else if String.eqb name "SELL" then Ok SELL
  else Raise KeyError.

Global Instance OrderStatus_eq_dec : EqDecision OrderStatus.
Proof. solve_decision. Defined.

(** A [Position] object.  [p_oid] is the identity of the Python object (what
    [is] compares); timestamps are seconds on the UTC clock. *)
Record Position : Type := mkPosition {
  p_oid : nat;
  p_symbol : string;
  p_qty : Z;
  p_price : float;
  p_value : float;
  p_current_price : float;
  p_current_value : float;
  p_profit : float;
  p_profit_margin : float;
  p_created_at : Z;
  p_updated_at : Z
}.

Record Order : Type := mkOrder {
  o_code : string;
  o_symbol : string;
  o_status : OrderStatus;
  o_action : OrderAction;
  o_req_qty : Z;
  o_lmt_price : float;
  o_sent_at : option Z;
  o_completed_at : option Z;
  o_qty : float;
  o_avg_price : float;
  o_commission : float;
  o_ib_id : Z;
  o_ib_order_type : option string;
  o_ib_order_status : option string;
  o_created_at : Z;
  o_updated_at : Z
}.

Record Account : Type := mkAccount {
  a_code : string;
  a_total_value : float;
  a_cash_value : float;
  a_available_funds : float;
  a_day_trades_remaining : Z;
  a_created_at : Z;
  a_updated_at : Z;
  a_positions : list Position;
  a_orders : list Order
}.

(** [Account.update]: the four summary figures and [updated_at]. *)
Definition Account_update (now : Z) (total_value cash_value available_funds : float)
    (day_trades_remaining : Z) (a : Account) : Account :=
  {| a_code := a_code a;
     a_total_value := total_value;
     a_cash_value := cash_value;
     a_available_funds := available_funds;
     a_day_trades_remaining := day_trades_remaining;
     a_created_at := a_created_at a;
     a_updated_at := now;
     a_positions := a_positions a;
     a_orders := a_orders a |}.

Definition Account_set_positions (ps : list Position) (a : Account) : Account :=
  {| a_code := a_code a;
     a_total_value := a_total_value a;
     a_cash_value := a_cash_value a;
     a_available_funds := a_available_funds a;
     a_day_trades_remaining := a_day_trades_remaining a;
     a_created_at := a_created_at a;
     a_updated_at := a_updated_at a;
     a_positions := ps;
     a_orders := a_orders a |}.

Definition Account_set_orders (os : list Order) (a : Account) : Account :=
  {| a_code := a_code a;
     a_total_value := a_total_value a;
     a_cash_value := a_cash_value a;
     a_available_funds := a_available_funds a;
     a_day_trades_remaining := a_day_trades_remaining a;
     a_created_at := a_created_at a;
     a_updated_at := a_updated_at a;
     a_positions := a_positions a;
     a_orders := os |}.

(** [Position.__init__]: the derived fields start from the entry price. *)
Definition Position_init (oid : nat) (now : Z) (symbol : string) (qty : Z)
    (price value : float) : Position :=
  {| p_oid := oid;
     p_symbol := symbol;
     p_qty := qty;
     p_price := price;
     p_value := value;
     p_current_price := price;
     p_current_value := value;
     p_profit := 0%float;
     p_profit_margin := 0%float;
     p_created_at := now;
     p_updated_at := now |}.

(** [Position.update]. *)
Definition Position_update (now : Z) (qty : Z) (price value : float)
    (p : Position) : Position :=
  {| p_oid := p_oid p;
     p_symbol := p_symbol p;
     p_qty := qty;
     p_price := price;
     p_value := value;
     p_current_price := p_current_price p;
     p_current_value := p_current_value p;
     p_profit := p_profit p;
     p_profit_margin := p_profit_margin p;
     p_created_at := p_created_at p;
     p_updated_at := now |}.

(** [Position.update_pnl]; [last_price] is [None] or a float. *)
Definition update_pnl (now : Z) (last_price : option float) (p : Position) : Position :=
  match last_price with
  | Some lp =>
      if negb (PrimFloat.is_nan lp) then
        let current_value := PrimFloat.abs (PrimFloat.mul (float_of_int (p_qty p)) lp) in
        let profit :=
          if 0 <=? p_qty p then PrimFloat.sub current_value (p_value p)
          else PrimFloat.sub (p_value p) current_value in
        {| p_oid := p_oid p;
           p_symbol := p_symbol p;
           p_qty := p_qty p;
           p_price := p_price p;
           p_value := p_value p;
           p_current_price := lp;
           p_current_value := current_value;
           p_profit := profit;
           p_profit_margin :=
             if truthy (p_value p) then PrimFloat.div profit (p_value p) else 0%float;
           p_created_at := p_created_at p;
           p_updated_at := now |}
      else p
  | None => p
  end.

(** [Order.__init__]. *)
Definition Order_init {rt : PyRuntime} (utcnow now : Z) (symbol : string) (action : OrderAction)
    (req_qty : Z) (lmt_price : float) (ib_id : Z) : Order :=
  {| o_code := symbol +:+ " " +:+ OrderAction_name action +:+ " " +:+ str_datetime now;
     o_symbol := symbol;
     o_status := NEW;
     o_action := action;
     o_req_qty := req_qty;
     o_lmt_price := lmt_price;
     o_sent_at := None;
     o_completed_at := None;
     o_qty := 0%float;
     o_avg_price := 0%float;
     o_commission := 0%float;
     o_ib_id := ib_id;
     o_ib_order_type := None;
     o_ib_order_status := None;
     o_created_at := utcnow;
     o_updated_at := utcnow |}.

(** [Order.update]. *)
Definition Order_update (now : Z) (status : OrderStatus) (sent_at completed_at : option Z)
    (qty avg_price commission : float) (ib_order_type ib_order_status : option string)
    (o : Order) : Order :=
  {| o_code := o_code o;
     o_symbol := o_symbol o;
     o_status := status;
     o_action := o_action o;
     o_req_qty := o_req_qty o;
     o_lmt_price := o_lmt_price o;
     o_sent_at := sent_at;
     o_completed_at := completed_at;
     o_qty := qty;
     o_avg_price := avg_price;
     o_commission := commission;
     o_ib_id := o_ib_id o;
     o_ib_order_type := ib_order_type;
     o_ib_order_status := ib_order_status;
     o_created_at := o_created_at o;
     o_updated_at := now |}.

(** ** ib_insync records, as far as the code reads them *)

(** A contract: the name of its class ([Contract], or one of the
    subclasses [Stock], [Index], ... that only preset [secType]) and the
    fields the code reads or sets; the other fields of the dataclass keep
    their defaults throughout. *)
Record Contract : Type := mkContract {
  c_class : string;
  c_secType : string;
  c_conId : Z;
  c_symbol : string;
  c_lastTradeDateOrContractMonth : string;
  c_strike : float;
  c_right : string;
  c_exchange : string;
  c_currency : string
}.

Definition Contract_set_exchange (exchange : string) (c : Contract) : Contract :=
  {| c_class := c_class c;
     c_secType := c_secType c;
     c_conId := c_conId c;
     c_symbol := c_symbol c;
     c_lastTradeDateOrContractMonth := c_lastTradeDateOrContractMonth c;
     c_strike := c_strike c;
     c_right := c_right c;
     c_exchange := exchange;
     c_currency := c_currency c |}.

(** [ib.Stock(symbol, exchange, currency)] and [ib.Index(...)]: every other
    field keeps its default. *)
Definition Stock (symbol exchange currency : string) : Contract :=
  mkContract "Stock" "STK" 0 symbol "" 0%float "" exchange currency.

Definition Index (symbol exchange currency : string) : Contract :=
  mkContract "Index" "IND" 0 symbol "" 0%float "" exchange currency.

(** [c1.__repr__() == c2.__repr__()].  ib_insync's [Contract.__repr__]
    prints the name of the class and then, as [name=value], the fields
    that [util.dataclassNonDefaults] keeps: those with [value != default]
    and [value == value], so neither a default nor a NaN is printed; a
    class other than [Contract] drops [secType] from them.  Python's
    [repr] of a string, an int or a printed float tells the values apart,
    so two contracts print alike exactly when their classes agree and
    each field is left out of both or printed with the same value. *)

(** Whether [strike] is printed: [0.0], [-0.0] (equal to the default) and
    NaN are not. *)
Definition float_printed (a : float) : bool :=
  negb (PrimFloat.eqb a 0%float) && PrimFloat.eqb a a.

Definition float_repr_eqb (a b : float) : bool :=
  match float_printed a, float_printed b with
  | true, true => PrimFloat.Leibniz.eqb a b
  | false, false => true
  | _, _ => false
  end.

(** A string field is left out when it is [''] and [conId] when it is [0],
    so these print alike exactly when they are equal. *)
Definition repr_eqb (c1 c2 : Contract) : bool :=
  String.eqb (c_class c1) (c_class c2)
  && (if String.eqb (c_class c1) "Contract"
      then String.eqb (c_secType c1) (c_secType c2) else true)
  && (c_conId c1 =? c_conId c2)
  && String.eqb (c_symbol c1) (c_symbol c2)
  && String.eqb (c_lastTradeDateOrContractMonth c1) (c_lastTradeDateOrContractMonth c2)
  && float_repr_eqb (c_strike c1) (c_strike c2)
  && String.eqb (c_right c1) (c_right c2)
  && String.eqb (c_exchange c1) (c_exchange c2)
  && String.eqb (c_currency c1) (c_currency c2).

Record BarData : Type := mkBar {
  b_date : Z;
  b_open : float;
  b_close : float
}.

Record AccountValue : Type := mkAccountValue {
  av_account : string;
  av_tag : string;
  av_value : string
}.

Record IBPosition : Type := mkIBPosition {
  ip_contract : Contract;
  ip_avgCost : float;
  ip_position : float
}.

Record Fill : Type := mkFill {
  f_time : Z;
  f_permId : Z;
  f_shares : float;
  f_price : float;
  f_avgPrice : float;
  f_commission : float
}.

Record IBOrder : Type := mkIBOrder {
  io_action : string;
  io_totalQuantity : float;
  io_lmtPrice : float;
  io_permId : Z;
  io_orderType : string
}.

Record Trade : Type := mkTrade {
  t_contract : Contract;
  t_order : IBOrder;
  t_status : string;
  t_fills : list Fill
}.

(** [ib.OrderStatus]: the status strings and the two state sets. *)
Definition DoneStates : list string := ["Filled"; "Cancelled"; "ApiCancelled"].
Definition ActiveStates : list string :=
  ["PendingSubmit"; "ApiPending"; "PreSubmitted"; "Submitted"].

(** [x in l] on strings. *)
Definition py_in (x : string) (l : list string) : bool :=
  existsb (String.eqb x) l.

Definition isDone (t : Trade) : bool := py_in (t_status t) DoneStates.
Definition isActive (t : Trade) : bool := py_in (t_status t) ActiveStates.

(** The broker connection as the code reads it during one call: the
    snapshots [ib.IB] answers with. *)
Record IB : Type := mkIB {
  accountSummary : list AccountValue;
  positions : string -> list IBPosition;
  trades : list Trade;
  reqCompletedOrders : list Trade;
  fills : list Fill;
  reqHistoricalData : Contract -> string -> string -> list BarData;
  reqContractDetails : Contract -> list Contract
}.

(** The requests sent to the broker, in the order they are made. *)
Inductive IBCall : Type :=
  | CallReqHistoricalData (c : Contract) (durationStr barSizeSetting : string)
  | CallCancelHistoricalData (bars : list BarData)
  | CallReqContractDetails (c : Contract)
  | CallReqAllOpenOrders
  | CallReqCompletedOrders.

(** ** market_data.py *)

Inductive Duration : Type := DAY | MONTH.

Definition Duration_eqb (d1 d2 : Duration) : bool :=
  match d1, d2 with
  | DAY, DAY | MONTH, MONTH => true
  | _, _ => false
  end.

Record ChartData : Type := mkChartData {
  cd_values : list float;
  cd_time_from : Z;
  cd_time_to : Z
}.

(** The bucket bound [int((1. * len(self.values) / length) * i)]. *)
Definition bucket_bound (n length i : Z) : result Z :=
  int_of_float
    (PrimFloat.mul
       (PrimFloat.div (PrimFloat.mul 1%float (float_of_int n)) (float_of_int length))
       (float_of_int i)).

(** One round of the loop of [ChartData.resample]: the mean of bucket [i]. *)
Definition resample_bucket (values : list float) (length i : Z) : result float :=
  let n := Z.of_nat (List.length values) in
  rbind (bucket_bound n length i) (fun i1 =>
  rbind (bucket_bound n length (i + 1)) (fun i2 =>
  let i2 := if n <? i2 then n else i2 in
  py_div (py_sum (py_slice values i1 i2)) (float_of_int (i2 - i1)))).

(** [ChartData.resample]. *)
Definition resample (values : list float) (length : Z) : result (list float) :=
  if Z.of_nat (List.length values) <=? length then Ok values
  else rmapM (resample_bucket values length) (py_range length).

Record Query : Type := mkQuery {
  q_symbol : string;
  q_duration : Duration;
  q_contract : Contract;
  q_ib_bars : list BarData
}.

(** [Query.__extract_bar_average]. *)
Definition extract_bar_average (q : Query) (ib_bar : BarData) : float :=
  let average :=
    if truthy (b_close ib_bar)
    then PrimFloat.div (PrimFloat.add (b_open ib_bar) (b_close ib_bar)) 2%float
    else b_open ib_bar in
  PrimFloat.mul average
    (if String.eqb (c_secType (q_contract q)) "OPT" then 100%float else 1%float).

Definition get_values (q : Query) : list float :=
  map (extract_bar_average q) (q_ib_bars q).

Definition get_last_value (q : Query) : option float :=
  extract_bar_average q <$> last (q_ib_bars q).

(** The bar dates are taken as already parsed; [now] is the local clock. *)
Definition get_values_start_time (now : Z) (q : Query) : Z :=
  match q_ib_bars q with
  | b :: _ => b_date b
  | [] => now
  end.

Definition get_values_end_time (now : Z) (q : Query) : Z :=
  match last (q_ib_bars q) with
  | Some b => b_date b
  | None => now
  end.

Definition get_chart_data (now : Z) (q : Query) : ChartData :=
  mkChartData (get_values q) (get_values_start_time now q) (get_values_end_time now q).

Definition StockQuery (symbol : string) (duration : Duration) : Query :=
  mkQuery symbol duration (Stock symbol "SMART" "USD") [].

Definition IndexQuery (symbol : string) (duration : Duration) : Query :=
  mkQuery symbol duration (Index symbol "CBOE" "USD") [].

Definition ContractQuery (contract : Contract) (duration : Duration) : Query :=
  mkQuery (c_symbol contract) duration
    (if String.eqb (c_exchange contract) "NASDAQ"
     then Contract_set_exchange "SMART" contract else contract)
    [].

(** The test of [Server.find_query] and [Server.remove_query]. *)
Definition same_query (t query : Query) : bool :=
  repr_eqb (q_contract t) (q_contract query)
  && Duration_eqb (q_duration t) (q_duration query).

(** [Server.find_query]. *)
Definition find_query (queries : list Query) (query : Query) : option Query :=
  head (filter (fun t => same_query t query = true) queries).

(** ** The object graph and its monad *)

(** Everything one call can mutate: the requests sent to the broker so
    far, [Server.queries], [IBBroker.contracts], the private
    [__position_chart_data] (a [Position] stands there by its identity),
    the next free object identity, and the [Account] under refresh with the
    [Position]s and [Order]s it owns.  [Server] is created by the first
    [__init_ib_app]; the state starts after it, with an empty list. *)
Record World : Type := mkWorld {
  w_calls : list IBCall;
  w_queries : list Query;
  w_contracts : gmap string Contract;
  w_position_chart_data : list (nat * ChartData);
  w_next_oid : nat;
  w_account : Account
}.

Definition World_set_calls (x : list IBCall) (w : World) : World :=
  mkWorld x (w_queries w) (w_contracts w) (w_position_chart_data w) (w_next_oid w) (w_account w).
Definition World_set_queries (x : list Query) (w : World) : World :=
  mkWorld (w_calls w) x (w_contracts w) (w_position_chart_data w) (w_next_oid w) (w_account w).
Definition World_set_contracts (x : gmap string Contract) (w : World) : World :=
  mkWorld (w_calls w) (w_queries w) x (w_position_chart_data w) (w_next_oid w) (w_account w).
Definition World_set_position_chart_data (x : list (nat * ChartData)) (w : World) : World :=
  mkWorld (w_calls w) (w_queries w) (w_contracts w) x (w_next_oid w) (w_account w).
Definition World_set_next_oid (x : nat) (w : World) : World :=
  mkWorld (w_calls w) (w_queries w) (w_contracts w) (w_position_chart_data w) x (w_account w).
Definition World_set_account (x : Account) (w : World) : World :=
  mkWorld (w_calls w) (w_queries w) (w_contracts w) (w_position_chart_data w) (w_next_oid w) x.

(** A computation returns a value or raises, and in both cases leaves the
    state it reached: a mutation made before an exception stays made. *)
Definition M (A : Type) : Type := World -> result A * World.

Definition ret {A} (a : A) : M A := fun w => (Ok a, w).
Definition raise {A} (e : exn) : M A := fun w => (Raise e, w).
Definition bind {A B} (m : M A) (k : A -> M B) : M B :=
  fun w => match m w with
           | (Ok a, w') => k a w'
           | (Raise e, w') => (Raise e, w')
           end.
Definition gets {A} (f : World -> A) : M A := fun w => (Ok (f w), w).
Definition modify (f : World -> World) : M unit := fun w => (Ok tt, f w).
Definition lift {A} (r : result A) : M A := fun w => (r, w).

Declare Scope py_scope.
Delimit Scope py_scope with py.
Notation "x <- m ;; k" := (bind m (fun x => k))
  (at level 100, m at next level, right associativity) : py_scope.
Notation "m ;; k" := (bind m (fun _ => k))
  (at level 100, right associativity) : py_scope.
Open Scope py_scope.

(** [for x in l: body(x)]. *)
Fixpoint forM_ {A} (l : list A) (body : A -> M unit) : M unit :=
  match l with
  | [] => ret tt
  | x :: l' => body x ;; forM_ l' body
  end.

(** [for x in l: body(x)] where the body says whether it reached [break]. *)
Fixpoint for_break {A} (l : list A) (body : A -> M bool) : M unit :=
  match l with
  | [] => ret tt
  | x :: l' => stop <- body x ;; if stop : bool then ret tt else for_break l' body
  end.

Definition call (c : IBCall) : M unit :=
  modify (fun w => World_set_calls (w_calls w ++ [c]) w).

Definition set_positions (ps : list Position) : M unit :=
  modify (fun w => World_set_account (Account_set_positions ps (w_account w)) w).

Definition set_orders (os : list Order) : M unit :=
  modify (fun w => World_set_account (Account_set_orders os (w_account w)) w).

(** ** market_data.py: [Server] *)

Section Service.

Context {rt : PyRuntime}.

(** The broker snapshot, the UTC clock ([datetime.utcnow()]) and the local
    clock ([datetime.now()]) during the call. *)
Variable app : IB.
Variable utcnow : Z.
Variable now : Z.

Definition bar_size_of (d : Duration) : string :=
  match d with DAY => "1 min" | MONTH => "1 day" end.

Definition duration_str_of (d : Duration) : string :=
  match d with DAY => "1 D" | MONTH => "1 M" end.

(** [Server.add_query] (and [Server.query], which only calls it). *)
Definition add_query (query : Query) : M Query :=
  queries <- gets w_queries ;;
  match find_query queries query with
  | Some existing_query => ret existing_query
  | None =>
      let bar_size := bar_size_of (q_duration query) in
      let duration := duration_str_of (q_duration query) in
      let contract :=
        if String.eqb (c_exchange (q_contract query)) ""
        then Contract_set_exchange "SMART" (q_contract query)
        else q_contract query in
      call (CallReqHistoricalData contract duration bar_size) ;;
      let query := mkQuery (q_symbol query) (q_duration query) contract
                     (reqHistoricalData app contract duration bar_size) in
      modify (fun w => World_set_queries (w_queries w ++ [query]) w) ;;
      ret query
  end.

(** The target list [i, q] of the loop of [Server.remove_query] takes each
    element of [self.queries] apart as a pair; a [Query] is not iterable. *)
Definition unpack_pair (element : Query) : result (Z * Query) :=
  Raise TypeError.

(** [Server.remove_query]. *)
Definition remove_query (query : Query) : M unit :=
  queries <- gets w_queries ;;
  match find_query queries query with
  | None => ret tt
  | Some _ =>
      for_break queries (fun element =>
        iq <- lift (unpack_pair element) ;;
        let '(i, q) := iq in
        if same_query q query then
          call (CallCancelHistoricalData (q_ib_bars q)) ;;
          modify (fun w => World_set_queries (delete (Z.to_nat i) (w_queries w)) w) ;;
          ret true
        else ret false)
  end.

(** [Server.remove_all]. *)
Definition remove_all : M unit :=
  queries <- gets w_queries ;;
  forM_ queries (fun query => call (CallCancelHistoricalData (q_ib_bars query))) ;;
  modify (World_set_queries []).

(** ** ib_service.py: [IBBroker] *)

(** [find_position_chart_data_index]: the index of the entry of this very
    object, or [-1]. *)
Fixpoint find_index_from (l : list (nat * ChartData)) (oid : nat) (i : Z) : Z :=
  match l with
  | [] => -1
  | val :: l' => if Nat.eqb (fst val) oid then i else find_index_from l' oid (i + 1)
  end.

Definition find_position_chart_data_index (position : Position) : M Z :=
  l <- gets w_position_chart_data ;;
  ret (find_index_from l (p_oid position) 0).

Definition get_position_chart_data (position : Position) : M (option ChartData) :=
  i <- find_position_chart_data_index position ;;
  l <- gets w_position_chart_data ;;
  if 0 <=? i then ret (snd <$> l !! Z.to_nat i) else ret None.

Definition store_position_chart_data (position : Position) (chart_data : ChartData) : M unit :=
  i <- find_position_chart_data_index position ;;
  let t := (p_oid position, chart_data) in
  if 0 <=? i
  then modify (fun w => World_set_position_chart_data
                          (<[Z.to_nat i := t]> (w_position_chart_data w)) w)
  else modify (fun w => World_set_position_chart_data (w_position_chart_data w ++ [t]) w).

Definition clear_position_chart_data (position : Position) : M unit :=
  i <- find_position_chart_data_index position ;;
  if 0 <=? i
  then modify (fun w => World_set_position_chart_data
                          (delete (Z.to_nat i) (w_position_chart_data w)) w)
  else ret tt.

(** [get_account_code]: the first summary row of a real account. *)
Definition get_account_code : M string :=
  match filter (fun acs => av_account acs ≠ "all") (accountSummary app) with
  | acs :: _ => ret (av_account acs)
  | [] => raise IBAccountSelectionError
  end.

(** The symbol a broker contract is filed under: options get the expiry,
    strike and right appended. *)
Definition canonical_symbol (contract : Contract) : string :=
  if String.eqb (c_secType contract) "OPT"
  then c_symbol contract +:+ " " +:+ c_lastTradeDateOrContractMonth contract +:+ " "
       +:+ str_float (c_strike contract) +:+ " " +:+ c_right contract
  else c_symbol contract.

(** *** [refresh_order] *)

(** The status chosen by the first half of [refresh_order]. *)
Definition map_status (ib_trade : Trade) : OrderStatus :=
  if isDone ib_trade then
    if String.eqb (t_status ib_trade) "Filled" then OK else CANCD
  else if isActive ib_trade then
    if String.eqb (t_status ib_trade) "Submitted" then ACTIVE else SENT
  else if String.eqb (t_status ib_trade) "PendingCancel" then ACTIVE
  else ERROR.

(** [get_order_fills_from_executions].  A [Fill] is kept flat: [f_permId],
    [f_shares], [f_price] and [f_avgPrice] are the fields of its
    [execution], [f_commission] the one of its [commissionReport]. *)
Definition get_order_fills_from_executions (ib_trade : Trade) : list Fill :=
  filter (fun t => f_permId t = io_permId (t_order ib_trade)) (fills app).

(** The four running figures of the loop over the fills. *)
Record FillTotals : Type := mkFillTotals {
  ft_latest_fill_time : option Z;
  ft_qty : float;
  ft_total : float;
  ft_commission : float
}.

(** One round of the loop. *)
Definition fill_step (acc : FillTotals) (fill : Fill) : FillTotals :=
  let latest_fill_time :=
    match ft_latest_fill_time acc with
    | None => Some (f_time fill)
    | Some t => if t <? f_time fill then Some (f_time fill) else Some t
    end in
  let price := if truthy (f_price fill) then f_price fill else f_avgPrice fill in
  {| ft_latest_fill_time := latest_fill_time;
     ft_qty := PrimFloat.add (ft_qty acc) (f_shares fill);
     ft_total := PrimFloat.add (ft_total acc) (PrimFloat.mul price (f_shares fill));
     ft_commission := PrimFloat.add (ft_commission acc) (f_commission fill) |}.

(** The fills the loop runs over: the trade's own, or, when it carries
    none, the session's executions of the same order. *)
Definition fills_of (ib_trade : Trade) : list Fill :=
  match t_fills ib_trade with
  | [] => get_order_fills_from_executions ib_trade
  | _ :: _ => t_fills ib_trade
  end.

Definition fill_totals (ib_trade : Trade) : FillTotals :=
  fold_left fill_step (fills_of ib_trade) (mkFillTotals None 0%float 0%float 0%float).

(** [refresh_order]: the order as updated, and the value returned. *)
Definition refresh_order (order : Order) (ib_trade : option Trade) : Order * bool :=
  match ib_trade with
  | Some ib_trade =>
      let status := map_status ib_trade in
      let acc := fill_totals ib_trade in
      let avg_price :=
        if truthy (ft_qty acc) then PrimFloat.div (ft_total acc) (ft_qty acc) else 0%float in
      let completed_at :=
        if decide (status = OK) then ft_latest_fill_time acc else None in
      (Order_update utcnow status (o_sent_at order) completed_at (ft_qty acc) avg_price
         (ft_commission acc) (Some (io_orderType (t_order ib_trade)))
         (Some (t_status ib_trade)) order,
       true)
  | None => (order, false)
  end.

(** [find_ib_trade]. *)
Definition find_ib_trade (order : Order) : M (option Trade) :=
  call CallReqAllOpenOrders ;;
  call CallReqCompletedOrders ;;
  ret (head (filter (fun ib_trade => io_permId (t_order ib_trade) = o_ib_id order)
               (trades app ++ reqCompletedOrders app))).

(** *** [create_contract] *)

(** [create_contract] calls itself; [depth] counts the frames still
    allowed, and running out of them is Python's [RecursionError]. *)
Fixpoint create_contract_at (depth : nat) (symbol exchange : string) : M (option Contract) :=
  match depth with
  | O => raise RecursionError
  | S depth' =>
      contracts <- gets w_contracts ;;
      match contracts !! symbol with
      | Some contract => ret (Some contract)
      | None =>
          let ib_contract := Stock symbol exchange "USD" in
          call (CallReqContractDetails ib_contract) ;;
          let ib_contract_details := reqContractDetails app ib_contract in
          if (List.length ib_contract_details =? 1)%nat then
            modify (fun w => World_set_contracts (<[symbol := ib_contract]> (w_contracts w)) w) ;;
            ret (Some ib_contract)
          else if (1 <? List.length ib_contract_details)%nat then
            if String.eqb exchange "SMART"
            then create_contract_at depth' symbol "ISLAND"
            else ret None
          else
            if String.eqb exchange "ISLAND"
            then create_contract_at depth' symbol "NYSE"
            else ret None
      end
  end.

(** Three frames are all a call ever needs ([create_contract_depth] below);
    CPython allows a thousand. *)
Definition create_contract (symbol exchange : string) : M (option Contract) :=
  create_contract_at 3 symbol exchange.

(** *** [refresh_account] *)

(** The four locals of the loop over the account summary. *)
Record Summary : Type := mkSummary {
  s_total_cash_value : float;
  s_available_funds : float;
  s_net_liquidation : float;
  s_day_trades_remaining : Z
}.

Definition parse_float (s : string) : result float :=
  match float_of_str s with Some f => Ok f | None => Raise ValueError end.

Definition parse_int (s : string) : result Z :=
  match int_of_str s with Some z => Ok z | None => Raise ValueError end.

(** One round of that loop. *)
Definition summary_step (code : string) (s : Summary) (acs : AccountValue) : result Summary :=
  if String.eqb (av_account acs) code then
    if String.eqb (av_tag acs) "TotalCashValue" then
      rbind (parse_float (av_value acs)) (fun v =>
        Ok (mkSummary v (s_available_funds s) (s_net_liquidation s) (s_day_trades_remaining s)))
    else if String.eqb (av_tag acs) "AvailableFunds" then
      rbind (parse_float (av_value acs)) (fun v =>
        Ok (mkSummary (s_total_cash_value s) v (s_net_liquidation s) (s_day_trades_remaining s)))
    else if String.eqb (av_tag acs) "NetLiquidation" then
      rbind (parse_float (av_value acs)) (fun v =>
        Ok (mkSummary (s_total_cash_value s) (s_available_funds s) v (s_day_trades_remaining s)))
    else if String.eqb (av_tag acs) "DayTradesRemaining" then
      rbind (parse_int (av_value acs)) (fun v =>
        Ok (mkSummary (s_total_cash_value s) (s_available_funds s) (s_net_liquidation s) v))
    else Ok s
  else Ok s.

Fixpoint summary_loop (code : string) (s : Summary) (l : list AccountValue) : result Summary :=
  match l with
  | [] => Ok s
  | acs :: l' => rbind (summary_step code s acs) (fun s' => summary_loop code s' l')
  end.

(** [positions[i] = p], the write behind a method call on the [i]-th
    [Position] of the account. *)
Definition set_position (i : nat) (p : Position) : M unit :=
  ps <- gets (fun w => a_positions (w_account w)) ;;
  set_positions (<[i := p]> ps).

(** The cost basis written on every refresh: [avgCost * abs(position)]. *)
Definition cost_basis (ib_position : IBPosition) : float :=
  PrimFloat.mul (ip_avgCost ib_position) (PrimFloat.abs (ip_position ib_position)).

(** The body of the loop over the broker's positions; the symbol it returns
    is the one appended to [symbols]. *)
Definition refresh_position (ib_position : IBPosition) : M string :=
  let symbol := canonical_symbol (ip_contract ib_position) in
  ps <- gets (fun w => a_positions (w_account w)) ;;
  match list_find (fun position => p_symbol position = symbol) ps with
  | Some (i, position) =>
      qty <- lift (int_of_float (ip_position ib_position)) ;;
      let position :=
        Position_update utcnow qty (ip_avgCost ib_position) (cost_basis ib_position) position in
      set_position i position ;;
      price_query <- add_query (ContractQuery (ip_contract ib_position) DAY) ;;
      store_position_chart_data position (get_chart_data now price_query) ;;
      match get_last_value price_query with
      | Some current_price =>
          if truthy current_price
          then set_position i (update_pnl utcnow (Some current_price) position)
          else ret tt
      | None => ret tt
      end ;;
      ret symbol
  | None =>
      qty <- lift (int_of_float (ip_position ib_position)) ;;
      oid <- gets w_next_oid ;;
      modify (World_set_next_oid (S oid)) ;;
      let add_pos :=
        Position_init oid utcnow symbol qty (ip_avgCost ib_position) (cost_basis ib_position) in
      (* the ORM files a new [Position] under its account at once *)
      set_positions (ps ++ [add_pos]) ;;
      price_query <- add_query (ContractQuery (ip_contract ib_position) DAY) ;;
      store_position_chart_data add_pos (get_chart_data now price_query) ;;
      set_position (List.length ps) (update_pnl utcnow (get_last_value price_query) add_pos) ;;
      ret symbol
  end.

Fixpoint refresh_positions (l : list IBPosition) : M (list string) :=
  match l with
  | [] => ret []
  | ib_position :: l' =>
      symbol <- refresh_position ib_position ;;
      symbols <- refresh_positions l' ;;
      ret (symbol :: symbols)
  end.

(** The body of the loop that walks the account's positions backwards. *)
Definition remove_stale (symbols : list string) (i : nat) : M unit :=
  ps <- gets (fun w => a_positions (w_account w)) ;;
  match ps !! i with
  | Some position =>
      if negb (py_in (p_symbol position) symbols) then
        clear_position_chart_data position ;;
        remove_query (StockQuery (p_symbol position) DAY) ;;
        ps <- gets (fun w => a_positions (w_account w)) ;;
        set_positions (delete i ps)
      else ret tt
  | None => raise IndexError
  end.

(** [range(len(l) - 1, -1, -1)]. *)
Definition py_range_down (n : nat) : list nat := rev (seq 0 n).

(** The body of the loop over the broker's trades. *)
Definition refresh_trade (ib_trade : Trade) : M unit :=
  let symbol := canonical_symbol (t_contract ib_trade) in
  os <- gets (fun w => a_orders (w_account w)) ;;
  match list_find (fun order => o_ib_id order = io_permId (t_order ib_trade)) os with
  | Some (i, order) =>
      set_orders (<[i := fst (refresh_order order (Some ib_trade))]> os)
  | None =>
      action <- lift (OrderAction_lookup (io_action (t_order ib_trade))) ;;
      req_qty <- lift (int_of_float (io_totalQuantity (t_order ib_trade))) ;;
      let add_ord :=
        Order_init utcnow now symbol action req_qty (io_lmtPrice (t_order ib_trade))
          (io_permId (t_order ib_trade)) in
      (* a new [Order] is filed under its account at once, too *)
      set_orders (os ++ [fst (refresh_order add_ord (Some ib_trade))])
  end.

(** The first part of [refresh_account]: the four summary figures, read
    from the rows of this account and written in one [Account.update]. *)
Definition refresh_summary (account : Account) : M unit :=
  s <- lift (summary_loop (a_code account) (mkSummary 0%float 0%float 0%float 0)
               (accountSummary app)) ;;
  modify (fun w => World_set_account
                     (Account_update utcnow (s_net_liquidation s) (s_total_cash_value s)
                        (s_available_funds s) (s_day_trades_remaining s) (w_account w)) w).

(** The second part: the loop over the broker's positions, then the loop
    that drops the local positions whose symbol was not seen. *)
Definition reconcile_positions (code : string) : M unit :=
  symbols <- refresh_positions (positions app code) ;;
  ps <- gets (fun w => a_positions (w_account w)) ;;
  forM_ (py_range_down (List.length ps)) (remove_stale symbols).

(** The third part: the loop over the open and the completed trades. *)
Definition reconcile_orders : M unit :=
  call CallReqAllOpenOrders ;;
  call CallReqCompletedOrders ;;
  forM_ (trades app ++ reqCompletedOrders app) refresh_trade.

(** [refresh_account]. *)
Definition refresh_account : M unit :=
  account_code <- get_account_code ;;
  account <- gets w_account ;;
  if negb (String.eqb (a_code account) account_code) then raise ValueError
  else
    refresh_summary account ;;
    reconcile_positions (a_code account) ;;
    reconcile_orders.

End Service.

(** *** The index values *)

Section Indexes.

Variable app : IB.
Variable now : Z.

(** [l[-1]], an [IndexError] on the empty list. *)
Definition py_last_item {A} (l : list A) : result A :=
  match last l with
  | Some x => Ok x
  | None => Raise IndexError
  end.

(** [get_vix_value]. *)
Definition get_vix_value : M float :=
  query <- add_query app (IndexQuery "VIX" DAY) ;;
  lift (py_last_item (get_values query)).

(** [get_vix_chart_data]. *)
Definition get_vix_chart_data : M ChartData :=
  query <- add_query app (IndexQuery "VIX" DAY) ;;
  ret (get_chart_data now query).

End Indexes.

(** ** console.py: screen blocks *)

(** [' ' * n], also [''.ljust(n, ' ')]. *)
Fixpoint spaces (n : nat) : string :=
  match n with
  | O => ""
  | S n' => " " +:+ spaces n'
  end.

(** [max(l)], a [ValueError] on the empty list. *)
Definition py_max (l : list nat) : result nat :=
  match l with
  | [] => Raise ValueError
  | x :: l' => Ok (foldl Nat.max x l')
  end.

(** [len(t[0])], an [IndexError] on an empty block. *)
Definition first_line_length (t : list string) : result nat :=
  match t with
  | [] => Raise IndexError
  | s :: _ => Ok (String.length s)
  end.

(** One round of the inner loop of [merge_screen_blocks]: what block [b],
    whose first line is [len] long, adds to line [i]. *)
Definition merge_cell (i : nat) (res_i : string) (b : list string * nat) : string :=
  match fst b !! i with
  | Some s => res_i +:+ s
  | None => res_i +:+ spaces (snd b)
  end.

(** [Console.merge_screen_blocks]. *)
Definition merge_screen_blocks (args : list (list string)) : result (list string) :=
  rbind (py_max (List.length <$> args)) (fun max_lines =>
  rbind (rmapM first_line_length args) (fun line_len_by_block =>
  Ok ((fun i => foldl (merge_cell i) "" (zip args line_len_by_block))
        <$> seq 0 max_lines))).

Section Console.

(** [AnsiToWin32.ANSI_CSI_RE.finditer(s)], as the spans [(start, end)] of
    its matches: the regular expression is colorama's. *)
Variable finditer : string -> list (nat * nat).

(** [s[i1:i2]] on a string, for [i1 <= len(s)]. *)
Definition str_slice (s : string) (i1 i2 : nat) : string :=
  String.substring i1 (i2 - i1) s.

(** One round of the loop of [filter_print_msg]. *)
Definition filter_step (s : string) (acc : nat * string) (span : nat * nat) : nat * string :=
  let '(cursor, s_flt) := acc in
  let '(start, end_) := span in
  (end_, if (cursor <? start)%nat then s_flt +:+ str_slice s cursor start else s_flt).

(** [Console.filter_print_msg]. *)
Definition filter_print_msg (s : string) : string :=
  if String.eqb s "" then s
  else
    let '(cursor, s_flt) := foldl (filter_step s) (0%nat, "") (finditer s) in
    if (cursor <? String.length s)%nat
    then s_flt +:+ str_slice s cursor (String.length s)
    else s_flt.

(** [Console.ljust_screen_block]. *)
Definition ljust_screen_block (block : list string) (width : Z) : list string :=
  (fun s =>
     let s_flt := filter_print_msg s in
     if width <? Z.of_nat (String.length s_flt) then s_flt
     else s +:+ spaces (Z.to_nat (width - Z.of_nat (String.length s_flt))))
  <$> block.

End Console.

(** ** Specification-side definitions *)

(** The price of one fill as the specification words it: the execution
    price or, if absent, the execution average price. *)
Definition fill_price (fill : Fill) : float :=
  if truthy (f_price fill) then f_price fill else f_avgPrice fill.

(** The latest fill time: the maximum over the fills, unset without any. *)
Definition max_fill_time (fs : list Fill) : option Z :=
  match fs with
  | [] => None
  | f :: fs' => Some (foldr (fun g t => Z.max (f_time g) t) (f_time f) fs')
  end.

(** The symbols of the account's local positions, in order. *)
Definition local_symbols (w : World) : list string :=
  p_symbol <$> a_positions (w_account w).

(** The symbols the broker reports for the account [code], in order. *)
Definition broker_symbols {rt : PyRuntime} (app : IB) (code : string) : list string :=
  (fun ib_position => canonical_symbol (ip_contract ib_position)) <$> positions app code.

(** The account summary holds no row of account [code] with tag [tag]. *)
Definition absent_row (code tag : string) (acs : AccountValue) : Prop :=
  av_account acs = code -> av_tag acs <> tag.

Definition tag_absent (app : IB) (code tag : string) : Prop :=
  Forall (absent_row code tag) (accountSummary app).

(** What [Server.add_query] hands back for [query] when the cache holds
    [queries]: the cached subscription, or a new one. *)
Definition subscription (app : IB) (queries : list Query) (query : Query) : Query :=
  match find_query queries query with
  | Some existing_query => existing_query
  | None =>
      let contract :=
        if String.eqb (c_exchange (q_contract query)) ""
        then Contract_set_exchange "SMART" (q_contract query)
        else q_contract query in
      mkQuery (q_symbol query) (q_duration query) contract
        (reqHistoricalData app contract (duration_str_of (q_duration query))
           (bar_size_of (q_duration query)))
  end.

(** The requests of a trace that cancel a subscription. *)
Definition is_cancellation (c : IBCall) : bool :=
  match c with CallCancelHistoricalData _ => true | _ => false end.

Definition cancellations (calls : list IBCall) : list IBCall :=
  List.filter is_cancellation calls.

(** The contract lookups of a trace. *)
Definition is_lookup (c : IBCall) : bool :=
  match c with CallReqContractDetails _ => true | _ => false end.

Definition lookups (calls : list IBCall) : list IBCall :=
  List.filter is_lookup calls.

(** The frames a resolution starting at [exchange] can need. *)
Definition venue_rank (exchange : string) : nat :=
  if String.eqb exchange "SMART" then 3%nat
  else if String.eqb exchange "ISLAND" then 2%nat
  else 1%nat.

(** A trace that holds only contract lookups. *)
Definition only_lookups (calls : list IBCall) : Prop :=
  Forall (fun c => is_lookup c = true) calls.

(** *** Frames: what a computation cannot change *)

(** [steps R m]: whatever [m] returns or raises, the state it leaves is
    [R]-related to the one it started from. *)
Definition steps (R : World -> World -> Prop) {A} (m : M A) : Prop :=
  forall w, R w (snd (m w)).

(** A relation no bookkeeping of the service can break: a request that
    cancels nothing, a new subscription, the chart store, the identity
    counter, the contract cache. *)
Class ServiceFrame (R : World -> World -> Prop) : Prop := {
  sf_preorder :: PreOrder R;
  sf_call : forall w c,
    is_cancellation c = false -> R w (World_set_calls (w_calls w ++ [c]) w);
  sf_subscribe : forall w q, R w (World_set_queries (w_queries w ++ [q]) w);
  sf_chart : forall w x, R w (World_set_position_chart_data x w);
  sf_oid : forall w n, R w (World_set_next_oid n w);
  sf_contracts : forall w x, R w (World_set_contracts x w)
}.

(** A relation that, besides, lets the account's positions and orders
    change. *)
Class GraphFrame (R : World -> World -> Prop) : Prop := {
  gf_service :: ServiceFrame R;
  gf_positions : forall w ps,
    R w (World_set_account (Account_set_positions ps (w_account w)) w);
  gf_orders : forall w os,
    R w (World_set_account (Account_set_orders os (w_account w)) w)
}.

(** The account is the same. *)
Definition same_account (w w' : World) : Prop := w_account w' = w_account w.

(** The account's code and its four summary figures are the same. *)
Definition same_summary (w w' : World) : Prop :=
  a_code (w_account w') = a_code (w_account w)
  /\ a_total_value (w_account w') = a_total_value (w_account w)
  /\ a_cash_value (w_account w') = a_cash_value (w_account w)
  /\ a_available_funds (w_account w') = a_available_funds (w_account w)
  /\ a_day_trades_remaining (w_account w') = a_day_trades_remaining (w_account w).

(** No subscription left the cache and none was cancelled. *)
Definition nothing_released (w w' : World) : Prop :=
  w_queries w `prefix_of` w_queries w'
  /\ cancellations (w_calls w') = cancellations (w_calls w).

(** The account's positions are the same. *)
Definition same_positions (w w' : World) : Prop :=
  a_positions (w_account w') = a_positions (w_account w).

(** A relation that lets the account's positions change, and the
    service's bookkeeping, but not its orders. *)
Class PositionsFrame (R : World -> World -> Prop) : Prop := {
  pf_service :: ServiceFrame R;
  pf_positions : forall w ps,
    R w (World_set_account (Account_set_positions ps (w_account w)) w)
}.

(** The account's orders are the same. *)
Definition same_orders (w w' : World) : Prop :=
  a_orders (w_account w') = a_orders (w_account w).

(** *** For the further properties *)

(** No two cached subscriptions answer to the same key. *)
Definition distinct_keys (queries : list Query) : Prop :=
  forall i j qi qj,
    queries !! i = Some qi -> queries !! j = Some qj ->
    same_query qi qj = true -> i = j.

(** The chart data on file for the object [oid]: the first entry under
    it. *)
Fixpoint chart_data_of (l : list (nat * ChartData)) (oid : nat) : option ChartData :=
  match l with
  | [] => None
  | val :: l' => if Nat.eqb (fst val) oid then Some (snd val) else chart_data_of l' oid
  end.

(** The file with the first entry under [oid] replaced, or a new entry
    at the end. *)
Fixpoint store_list (l : list (nat * ChartData)) (oid : nat) (c : ChartData)
    : list (nat * ChartData) :=
  match l with
  | [] => [(oid, c)]
  | val :: l' => if Nat.eqb (fst val) oid then (oid, c) :: l' else val :: store_list l' oid c
  end.

(** The file without the first entry under [oid]. *)
Fixpoint clear_list (l : list (nat * ChartData)) (oid : nat) : list (nat * ChartData) :=
  match l with
  | [] => []
  | val :: l' => if Nat.eqb (fst val) oid then l' else val :: clear_list l' oid
  end.

(** What stays of an order for good: the fields [Order.update] does not
    write. *)
Definition order_identity (o : Order) : string * string * OrderAction * Z * Z :=
  (o_code o, o_symbol o, o_action o, o_req_qty o, o_ib_id o).

(** No order was dropped, moved or given another identity; orders may
    have been added at the end. *)
Definition orders_kept (w w' : World) : Prop :=
  (order_identity <$> a_orders (w_account w))
  `prefix_of` (order_identity <$> a_orders (w_account w')).

(** Orders with distinct broker ids still have distinct broker ids. *)
Definition ids_stay_distinct (w w' : World) : Prop :=
  NoDup (o_ib_id <$> a_orders (w_account w)) ->
  NoDup (o_ib_id <$> a_orders (w_account w')).

(** The order [o] is what [refresh_order] leaves of some order on the
    trade [ib_trade]. *)
Definition refreshed_from (app : IB) (utcnow : Z) (ib_trade : Trade) (o : Order) : Prop :=
  o_ib_id o = io_permId (t_order ib_trade)
  /\ exists o0, o = fst (refresh_order app utcnow o0 (Some ib_trade)).

(** A local position carries the broker's figures for [ib_position]. *)
Definition carries (ib_position : IBPosition) (p : Position) : Prop :=
  int_of_float (ip_position ib_position) = Ok (p_qty p)
  /\ p_price p = ip_avgCost ib_position
  /\ p_value p = cost_basis ib_position.

(** The last row of the account [code] with the tag [tag]. *)
Definition last_row (code tag : string) (l : list AccountValue) : option AccountValue :=
  last (filter (fun acs => av_account acs = code /\ av_tag acs = tag) l).

(** The figure the summary loop ends with, for one tag: the parsed value
    of the tag's last row, or the figure the loop started with. *)
Definition settled {A} (parse : string -> result A) (row : option AccountValue)
    (start final : A) : Prop :=
  match row with
  | Some acs => parse (av_value acs) = Ok final
  | None => final = start
  end.

(** A row of the account [code] that the summary loop reads and cannot
    parse: a float tag whose value [float()] rejects, or the day trades
    with a value [int()] rejects. *)
Definition unparsable_row {rt : PyRuntime} (code : string) (acs : AccountValue) : Prop :=
  av_account acs = code
  /\ ((av_tag acs ∈ ["TotalCashValue"; "AvailableFunds"; "NetLiquidation"]
       /\ float_of_str (av_value acs) = None)
      \/ (av_tag acs = "DayTradesRemaining" /\ int_of_str (av_value acs) = None)).

(** A screen block whose lines are all [width] long, with at least one
    line. *)
Definition rectangular (t : list string) (width : nat) : Prop :=
  t <> [] /\ Forall (fun s => String.length s = width) t.

(** Spans as [finditer] yields them for a string of length [len], from
    [cursor] on: left to right, without overlap, inside the string. *)
Fixpoint spans_ok (len cursor : nat) (spans : list (nat * nat)) : Prop :=
  match spans with
  | [] => (cursor <= len)%nat
  | span :: rest =>
      (cursor <= fst span)%nat /\ (fst span <= snd span)%nat /\ spans_ok len (snd span) rest
  end.

(** The number of characters the spans cover. *)
Definition covered (spans : list (nat * nat)) : nat :=
  sum_list ((fun span => snd span - fst span)%nat <$> spans).

(** Whether position [i] lies in none of the spans [[start, end)]. *)
Definition uncovered (spans : list (nat * nat)) (i : nat) : bool :=
  forallb (fun span => negb ((fst span <=? i)%nat && (i <? snd span)%nat)) spans.

(** The characters of [s] that [keep] keeps, in order; the first
    character of [s] is at position [i]. *)
Fixpoint keep_chars (keep : nat -> bool) (i : nat) (s : string) : string :=
  match s with
  | EmptyString => EmptyString
  | String ch s' =>
      if keep i then String ch (keep_chars keep (S i) s') else keep_chars keep (S i) s'
  end.

(** The message without the characters that lie in a span. *)
Definition without_spans (spans : list (nat * nat)) (s : string) : string :=
  keep_chars (uncovered spans) 0 s.

(** ** Sample data: the scenario of [tests/test_ib_service.py] *)

(** A runtime for the examples: the few strings they print and parse. *)
Definition sample_runtime : PyRuntime :=
  {| str_float := fun f => if PrimFloat.eqb f 150%float then "150.0" else "0.0";
     str_datetime := fun _ => "2020-03-08 09:32:15";
     float_of_str := fun s =>
       if String.eqb s "3000.5" then Some 3000.5%float
       else if String.eqb s "1000.25" then Some 1000.25%float
       else if String.eqb s "2000.75" then Some 2000.75%float
       else None;
     int_of_str := fun s => if String.eqb s "2" then Some 2 else None |}.

Definition sample_summary : list AccountValue :=
  [ mkAccountValue "prime" "NetLiquidation" "3000.5";
    mkAccountValue "prime" "TotalCashValue" "1000.25";
    mkAccountValue "prime" "AvailableFunds" "2000.75";
    mkAccountValue "prime" "DayTradesRemaining" "2";
    mkAccountValue "all" "Dummy1" "1";
    mkAccountValue "all" "Dummy2" "1" ].

(** A contract as the broker reports it for a stock position. *)
Definition fb_contract : Contract :=
  mkContract "Contract" "STK" 107113386 "FB" "" 0%float "" "ISLAND" "USD".

(** One bar at the mock's price of 20. *)
Definition sample_bars : list BarData := [mkBar 1583659935 20%float 0%float].

(** [IBAppMock.reqContractDetails]: MSFT is ambiguous at SMART and unknown
    at ISLAND, DUMMY is unknown everywhere, anything else is unique. *)
Definition mock_contract_details (c : Contract) : list Contract :=
  if String.eqb (c_symbol c) "MSFT" && String.eqb (c_exchange c) "SMART" then [c; c]
  else if String.eqb (c_symbol c) "MSFT" && String.eqb (c_exchange c) "ISLAND" then []
  else if String.eqb (c_symbol c) "DUMMY" then []
  else [c].

(** The mock broker holding the position [FB], 3 shares at 301. *)
Definition sample_app : IB :=
  {| accountSummary := sample_summary;
     positions := fun _ => [mkIBPosition fb_contract 301%float 3%float];
     trades := [];
     reqCompletedOrders := [];
     fills := [];
     reqHistoricalData := fun _ _ _ => sample_bars;
     reqContractDetails := mock_contract_details |}.

(** The same broker once the position is closed. *)
Definition sample_app_flat : IB :=
  {| accountSummary := sample_summary;
     positions := fun _ => [];
     trades := [];
     reqCompletedOrders := [];
     fills := [];
     reqHistoricalData := fun _ _ _ => sample_bars;
     reqContractDetails := mock_contract_details |}.

(** A broker that knows a symbol at ISLAND only. *)
Definition island_only_app : IB :=
  {| accountSummary := sample_summary;
     positions := fun _ => [];
     trades := [];
     reqCompletedOrders := [];
     fills := [];
     reqHistoricalData := fun _ _ _ => sample_bars;
     reqContractDetails := fun c =>
       if String.eqb (c_exchange c) "ISLAND" then [c] else [] |}.

(** A broker whose account summary has no row for the available funds and
    the day trades. *)
Definition partial_summary_app : IB :=
  {| accountSummary :=
       [ mkAccountValue "prime" "NetLiquidation" "3000.5";
         mkAccountValue "prime" "TotalCashValue" "1000.25";
         mkAccountValue "all" "AvailableFunds" "2000.75" ];
     positions := fun _ => [];
     trades := [];
     reqCompletedOrders := [];
     fills := [];
     reqHistoricalData := fun _ _ _ => sample_bars;
     reqContractDetails := mock_contract_details |}.

(** A filled order for FB: 5 shares at 100, then 5 at an average of 102. *)
Definition sample_trade : Trade :=
  mkTrade fb_contract (mkIBOrder "BUY" 10%float 0%float 77 "MKT") "Filled"
    [ mkFill 10 77 5%float 100%float 0%float 1%float;
      mkFill 20 77 5%float 0%float 102%float 1%float ].

(** The mock broker with that trade in its session. *)
Definition sample_app_trading : IB :=
  {| accountSummary := sample_summary;
     positions := fun _ => [mkIBPosition fb_contract 301%float 3%float];
     trades := [sample_trade];
     reqCompletedOrders := [];
     fills := [];
     reqHistoricalData := fun _ _ _ => sample_bars;
     reqContractDetails := mock_contract_details |}.

(** A trade whose action is neither BUY nor SELL. *)
Definition sample_trade_bot : Trade :=
  mkTrade fb_contract (mkIBOrder "BOT" 10%float 0%float 78 "MKT") "Submitted" [].

(** A broker whose net liquidation row does not parse. *)
Definition unparsable_summary_app : IB :=
  {| accountSummary :=
       [ mkAccountValue "prime" "TotalCashValue" "1000.25";
         mkAccountValue "prime" "NetLiquidation" "n/a" ];
     positions := fun _ => [mkIBPosition fb_contract 301%float 3%float];
     trades := [sample_trade];
     reqCompletedOrders := [];
     fills := [];
     reqHistoricalData := fun _ _ _ => sample_bars;
     reqContractDetails := mock_contract_details |}.

(** A line in bright style: [ESC[1m], the text [ab], [ESC[0m]. *)
Definition sample_line : string :=
  String (Ascii.ascii_of_nat 27) "[1mab" +:+ String (Ascii.ascii_of_nat 27) "[0m".

(** The matches of colorama's expression on that line, and on plain
    text. *)
Definition sample_finditer (s : string) : list (nat * nat) :=
  if String.eqb s sample_line then [(0, 4); (6, 10)]%nat else [].

(** The account of the tests before its first refresh. *)
Definition sample_account : Account :=
  mkAccount "prime" 3000%float 2000%float 1000%float 3 0 0 [] [].

Definition sample_world : World := mkWorld [] [] ∅ [] 0 sample_account.

(** A position as [Position("MSFT", 1, 100., 100.)] leaves it. *)
Definition sample_position : Position :=
  Position_init 0 0 "MSFT" 1 100%float 100%float.

(** ** Theorems *)

(** *** [Position.update_pnl] *)

(** C10. [update_pnl(last_price)] with [last_price] None or NaN changes no
    field of the position. *)
Theorem update_pnl_none_or_nan (now : Z) (last_price : option float) (p : Position) :
  last_price = None
  \/ (exists f, last_price = Some f /\ PrimFloat.is_nan f = true) ->
  update_pnl now last_price p = p.
Proof.
  intros [-> | (f & -> & Hnan)]; unfold update_pnl.
  - reflexivity.
  - now rewrite Hnan.
Qed.

Lemma update_pnl_none_or_nan_witness :
  update_pnl 7 (Some PrimFloat.nan) sample_position = sample_position.
Proof.
  apply (update_pnl_none_or_nan 7 (Some PrimFloat.nan) sample_position).
  right. exists PrimFloat.nan. split; reflexivity.
Defined.

(** A number moves the derived fields, for contrast. *)
Example update_pnl_number :
  let p := update_pnl 7 (Some 120%float) (Position_init 0 0 "MSFT" 10 100%float 1000%float) in
  p_current_value p = 1200%float /\ p_profit p = 200%float
  /\ p_profit_margin p = 0x1.999999999999ap-3%float /\ p_updated_at p = 7.
Proof. vm_compute. repeat split; reflexivity. Qed.

(** The same move against a short position is a loss. *)
Example update_pnl_short :
  let p := update_pnl 7 (Some 120%float) (Position_init 0 0 "MSFT" (-10) 100%float 1000%float) in
  p_current_value p = 1200%float /\ p_profit p = (-200)%float.
Proof. vm_compute. repeat split; reflexivity. Qed.

(** *** The order-status mapping *)

Lemma py_in_true (x : string) (l : list string) : py_in x l = true <-> x ∈ l.
Proof.
  rewrite list_elem_of_In. unfold py_in. rewrite existsb_exists. split.
  - intros (y & Hy & Heq). apply String.eqb_eq in Heq. now subst.
  - intros Hin. exists x. split; [assumption | apply String.eqb_refl].
Qed.

(** A trade at status [Inactive] is neither done nor submitted, and is
    mapped to ERROR, not to SENT. *)
Lemma map_status_inactive_not_sent :
  let t := mkTrade fb_contract (mkIBOrder "BUY" 1%float 0%float 1 "LMT") "Inactive" [] in
  isDone t = false /\ t_status t <> "Submitted" /\ t_status t <> "PendingCancel"
  /\ map_status t = ERROR /\ map_status t <> SENT.
Proof. repeat split; try discriminate; reflexivity. Qed.

(** C3, as the code has it. The mapping never answers NEW and answers
    - OK exactly for a done trade at status Filled,
    - CANCD exactly for a done trade at any other status,
    - ACTIVE exactly for a trade that is not done and is Submitted (in the
      active set) or is PendingCancel (outside it),
    - SENT exactly for a trade that is not done, is in the broker's active
      set and is not Submitted,
    - ERROR exactly for a trade that is neither done nor active nor
      PendingCancel. *)
Theorem map_status_exact (t : Trade) :
  map_status t <> NEW
  /\ (map_status t = OK <-> isDone t = true /\ t_status t = "Filled")
  /\ (map_status t = CANCD <-> isDone t = true /\ t_status t <> "Filled")
  /\ (map_status t = ACTIVE <->
        isDone t = false
        /\ (isActive t = true /\ t_status t = "Submitted"
            \/ isActive t = false /\ t_status t = "PendingCancel"))
  /\ (map_status t = SENT <->
        isDone t = false /\ isActive t = true /\ t_status t <> "Submitted")
  /\ (map_status t = ERROR <->
        isDone t = false /\ isActive t = false /\ t_status t <> "PendingCancel").
Proof.
  unfold map_status.
  destruct (isDone t), (isActive t);
    destruct (String.eqb_spec (t_status t) "Filled");
    destruct (String.eqb_spec (t_status t) "Submitted");
    destruct (String.eqb_spec (t_status t) "PendingCancel");
    repeat split; try discriminate; try congruence;
    intuition (try discriminate; try congruence).
Qed.

(** The mapping over the nine statuses of ib_insync. *)
Example map_status_table :
  map (fun s => map_status (mkTrade fb_contract (mkIBOrder "BUY" 1%float 0%float 1 "LMT") s []))
    ["Filled"; "Cancelled"; "ApiCancelled"; "Submitted"; "PendingCancel";
     "PendingSubmit"; "ApiPending"; "PreSubmitted"; "Inactive"]
  = [OK; CANCD; CANCD; ACTIVE; ACTIVE; SENT; SENT; SENT; ERROR].
Proof. reflexivity. Qed.

(** *** Fill aggregation *)

Lemma foldr_max_shift (l : list Fill) (t a : Z) :
  foldr (fun g u => Z.max (f_time g) u) (Z.max t a) l
  = Z.max a (foldr (fun g u => Z.max (f_time g) u) t l).
Proof.
  induction l as [| g l IH]; simpl.
  - lia.
  - rewrite IH. lia.
Qed.

Lemma fold_left_max_foldr (l : list Fill) (t : Z) :
  fold_left (fun u g => Z.max u (f_time g)) l t
  = foldr (fun g u => Z.max (f_time g) u) t l.
Proof.
  revert t. induction l as [| g l IH]; intros t; simpl.
  - reflexivity.
  - rewrite IH. apply foldr_max_shift.
Qed.

(** The loop over the fills keeps four independent running figures. *)
Lemma fill_loop_totals (fs : list Fill) (acc : FillTotals) :
  fold_left fill_step fs acc
  = {| ft_latest_fill_time :=
         match fs, ft_latest_fill_time acc with
         | [], t => t
         | f :: fs', None => Some (fold_left (fun u g => Z.max u (f_time g)) fs' (f_time f))
         | f :: fs', Some t => Some (fold_left (fun u g => Z.max u (f_time g)) fs (t))
         end;
       ft_qty := fold_left PrimFloat.add (map f_shares fs) (ft_qty acc);
       ft_total :=
         fold_left PrimFloat.add
           (map (fun f => PrimFloat.mul (fill_price f) (f_shares f)) fs) (ft_total acc);
       ft_commission := fold_left PrimFloat.add (map f_commission fs) (ft_commission acc) |}.
Proof.
  revert acc. induction fs as [| f fs IH]; intros acc.
  - destruct acc as [[t |] ? ? ?]; reflexivity.
  - simpl fold_left at 1. rewrite IH. unfold fill_step at 2 3 4. simpl.
    f_equal. unfold fill_step; simpl.
    destruct (ft_latest_fill_time acc) as [t |]; simpl.
    + replace (if t <? f_time f then Some (f_time f) else Some t)
        with (Some (Z.max t (f_time f)))
        by (destruct (Z.ltb_spec t (f_time f)); f_equal; lia).
      destruct fs; reflexivity.
    + destruct fs; reflexivity.
Qed.

(** C4. On a broker trade, [refresh_order] aggregates the trade's own
    fills or, when the trade carries none, the session's executions under
    the trade's [permId], and writes: as filled quantity the sum of the
    per-fill shares; as average price the share-weighted mean of the fill
    prices (execution price or, if absent, average price), and 0 when
    that sum is zero, in particular without fills; as commission the sum
    of the per-fill commissions; and as [completed_at] the latest fill
    time exactly when the status is OK, nothing otherwise. *)
Theorem refresh_order_fill_aggregates (app : IB) (utcnow : Z) (order : Order)
    (ib_trade : Trade) :
  let fs :=
    match t_fills ib_trade with
    | [] => filter (fun fill => f_permId fill = io_permId (t_order ib_trade)) (fills app)
    | _ :: _ => t_fills ib_trade
    end in
  let order' := fst (refresh_order app utcnow order (Some ib_trade)) in
  let shares := py_sum (map f_shares fs) in
  let total := py_sum (map (fun f => PrimFloat.mul (fill_price f) (f_shares f)) fs) in
  o_status order' = map_status ib_trade
  /\ o_qty order' = shares
  /\ o_avg_price order' = (if truthy shares then PrimFloat.div total shares else 0%float)
  /\ (fs = [] -> o_avg_price order' = 0%float)
  /\ o_commission order' = py_sum (map f_commission fs)
  /\ o_completed_at order'
     = (if decide (map_status ib_trade = OK) then max_fill_time fs else None).
Proof.
  intros fs order' shares total.
  subst order'. unfold refresh_order, fill_totals.
  change (fills_of app ib_trade) with fs.
  rewrite fill_loop_totals. simpl. fold shares. fold total.
  repeat split.
  - intros Hfs. subst shares total. rewrite Hfs. reflexivity.
  - destruct (decide (map_status ib_trade = OK)); [| reflexivity].
    unfold max_fill_time. destruct fs as [| f fs']; [reflexivity |].
    now rewrite fold_left_max_foldr.
Qed.

(** The scenario of the specification: two fills of 5 shares, at 100 and
    at 102, a commission of 1 each. *)
Example refresh_order_two_fills :
  let fs := [mkFill 10 1 5%float 100%float 0%float 1%float;
             mkFill 20 1 5%float 0%float 102%float 1%float] in
  let t := mkTrade fb_contract (mkIBOrder "BUY" 10%float 0%float 1 "MKT") "Filled" fs in
  let o := fst (refresh_order sample_app 30
                  (Order_init (rt := sample_runtime) 0 0 "FB" BUY 10 0%float 1) (Some t)) in
  o_status o = OK /\ o_qty o = 10%float /\ o_avg_price o = 101%float
  /\ o_commission o = 2%float /\ o_completed_at o = Some 20.
Proof. vm_compute. repeat split; reflexivity. Qed.

(** A trade that carries no fill of its own: the session's executions
    under its [permId] are aggregated, those of other orders are not. *)
Example refresh_order_fills_from_executions :
  let app :=
    {| accountSummary := sample_summary;
       positions := fun _ => [];
       trades := [];
       reqCompletedOrders := [];
       fills := [mkFill 10 1 5%float 100%float 0%float 1%float;
                 mkFill 15 2 7%float 50%float 0%float 3%float;
                 mkFill 20 1 5%float 0%float 102%float 1%float];
       reqHistoricalData := fun _ _ _ => sample_bars;
       reqContractDetails := mock_contract_details |} in
  let t := mkTrade fb_contract (mkIBOrder "BUY" 10%float 0%float 1 "MKT") "Filled" [] in
  let o := fst (refresh_order app 30
                  (Order_init (rt := sample_runtime) 0 0 "FB" BUY 10 0%float 1) (Some t)) in
  o_status o = OK /\ o_qty o = 10%float /\ o_avg_price o = 101%float
  /\ o_commission o = 2%float /\ o_completed_at o = Some 20.
Proof. vm_compute. repeat split; reflexivity. Qed.

(** *** [ChartData.resample] *)

(** A target length at or above the series length returns the series. *)
Lemma resample_unchanged (values : list float) (length : Z) :
  Z.of_nat (List.length values) <= length -> resample values length = Ok values.
Proof.
  intros Hle. unfold resample.
  now destruct (Z.leb_spec (Z.of_nat (List.length values)) length); [| lia].
Qed.

Lemma rmapM_length {A B} (f : A -> result B) (l : list A) (l' : list B) :
  rmapM f l = Ok l' -> List.length l' = List.length l.
Proof.
  revert l'. induction l as [| x l IH]; intros l'; simpl.
  - now intros [= <-].
  - destruct (f x); simpl; [| discriminate].
    destruct (rmapM f l); simpl; [| discriminate].
    intros [= <-]. simpl. f_equal. now apply IH.
Qed.

(** A shorter target length gives, when no bucket is empty, one value per
    bucket. *)
Lemma resample_length (values out : list float) (length : Z) :
  0 <= length < Z.of_nat (List.length values) ->
  resample values length = Ok out ->
  Z.of_nat (List.length out) = length.
Proof.
  intros Hlen. unfold resample.
  destruct (Z.leb_spec (Z.of_nat (List.length values)) length); [lia |].
  intros Hout. apply rmapM_length in Hout. rewrite Hout.
  unfold py_range. rewrite length_map, length_seq. lia.
Qed.

(** C8, at a series of 15 samples and a target length of 11. The last
    bucket should be [[13, 15)]: [floor(11 * 15 / 11) = 15]. The code's
    [int((1. * 15 / 11) * 11)] is 14, the bucket is [[13, 14)], and the
    last sample [x] is in no bucket: the result does not depend on it. *)
Theorem resample_drops_last_sample (x : float) :
  resample (map float_of_int (py_range 14) ++ [x]) 11
  = Ok [0; 1; 2.5; 4; 5; 6.5; 8; 9; 10.5; 12; 13]%float
  /\ bucket_bound 15 11 10 = Ok 13
  /\ bucket_bound 15 11 11 = Ok 14
  /\ 10 * 15 / 11 = 13
  /\ 11 * 15 / 11 = 15.
Proof.
  repeat split; vm_compute; reflexivity.
Qed.

(** *** [Server.remove_query] *)

Lemma find_query_Some_cons (queries : list Query) (query cached : Query) :
  find_query queries query = Some cached ->
  exists q l, queries = q :: l.
Proof.
  destruct queries as [| q l]; [discriminate | eauto].
Qed.

(** Releasing a key that is not cached does nothing. *)
Lemma remove_query_absent (query : Query) (w : World) :
  find_query (w_queries w) query = None ->
  remove_query query w = (Ok tt, w).
Proof.
  intros Hnone. unfold remove_query, bind, gets. now rewrite Hnone.
Qed.

(** C5, where the code leaves it: releasing a key that is cached raises
    [TypeError] on the first round of the loop, before anything is
    cancelled or removed; the cache and the broker's requests stay as they
    were. *)
Theorem remove_query_cached_raises (query cached : Query) (w : World) :
  find_query (w_queries w) query = Some cached ->
  remove_query query w = (Raise TypeError, w).
Proof.
  intros Hsome. unfold remove_query, bind, gets. rewrite Hsome.
  destruct (find_query_Some_cons _ _ _ Hsome) as (q & l & ->).
  reflexivity.
Qed.

Lemma remove_query_cached_raises_witness :
  let cached := subscription sample_app [] (StockQuery "SPY" DAY) in
  let w := World_set_queries [cached] sample_world in
  remove_query (StockQuery "SPY" DAY) w = (Raise TypeError, w).
Proof.
  apply (remove_query_cached_raises (StockQuery "SPY" DAY)
           (subscription sample_app [] (StockQuery "SPY" DAY))
           (World_set_queries [subscription sample_app [] (StockQuery "SPY" DAY)]
              sample_world)).
  reflexivity.
Defined.

(** *** [create_contract] *)

(** What one resolution sends to the broker: contract lookups only, at most
    as many as the starting venue's rank; and with that many frames it
    does not run out of them. *)
Lemma create_contract_at_calls (app : IB) (depth : nat) (symbol exchange : string)
    (w : World) :
  exists new,
    w_calls (snd (create_contract_at app depth symbol exchange w)) = w_calls w ++ new
    /\ only_lookups new
    /\ (List.length new <= venue_rank exchange)%nat
    /\ ((venue_rank exchange <= depth)%nat ->
        fst (create_contract_at app depth symbol exchange w) <> Raise RecursionError).
Proof.
  revert exchange w. induction depth as [| depth IH]; intros exchange w.
  - exists []. simpl. rewrite app_nil_r. repeat split; [constructor | lia |].
    unfold venue_rank. repeat case_match; lia.
  - simpl. unfold bind, gets, call, modify, ret.
    destruct (w_contracts w !! symbol) as [c |].
    { exists []. simpl. rewrite app_nil_r. repeat split; [constructor | lia | discriminate]. }
    simpl.
    set (c := Stock symbol exchange "USD").
    set (w1 := World_set_calls (w_calls w ++ [CallReqContractDetails c]) w).
    assert (Hone : exists new,
               w_calls w1 = w_calls w ++ new /\ only_lookups new
               /\ (List.length new <= venue_rank exchange)%nat).
    { exists [CallReqContractDetails c]. repeat split.
      - repeat constructor.
      - unfold venue_rank. simpl. repeat case_match; lia. }
    destruct (List.length (reqContractDetails app c) =? 1)%nat.
    { destruct Hone as (new & ? & ? & ?). exists new. simpl. repeat split; auto; discriminate. }
    destruct (1 <? List.length (reqContractDetails app c))%nat.
    + destruct (String.eqb_spec exchange "SMART") as [-> |].
      * destruct (IH "ISLAND" w1) as (new & Hcalls & Hall & Hlen & Hfuel).
        exists (CallReqContractDetails c :: new). repeat split.
        -- rewrite Hcalls. simpl. now rewrite <- app_assoc.
        -- constructor; [reflexivity | assumption].
        -- simpl in *. unfold venue_rank in *. simpl in *. lia.
        -- intros Hd. apply Hfuel. unfold venue_rank in *. simpl in *. lia.
      * destruct Hone as (new & ? & ? & ?). exists new. simpl.
        repeat split; auto; discriminate.
    + destruct (String.eqb_spec exchange "ISLAND") as [-> |].
      * destruct (IH "NYSE" w1) as (new & Hcalls & Hall & Hlen & Hfuel).
        exists (CallReqContractDetails c :: new). repeat split.
        -- rewrite Hcalls. simpl. now rewrite <- app_assoc.
        -- constructor; [reflexivity | assumption].
        -- simpl in *. unfold venue_rank in *. simpl in *. lia.
        -- intros Hd. apply Hfuel. unfold venue_rank in *. simpl in *. lia.
      * destruct Hone as (new & ? & ? & ?). exists new. simpl.
        repeat split; auto; discriminate.
Qed.

(** More frames than the starting venue's rank change nothing. *)
Lemma create_contract_depth (app : IB) (depth : nat) (symbol exchange : string) (w : World) :
  (venue_rank exchange <= depth)%nat ->
  create_contract_at app depth symbol exchange w
  = create_contract_at app (venue_rank exchange) symbol exchange w.
Proof.
  revert exchange w. induction depth as [| depth IH]; intros exchange w Hd.
  - unfold venue_rank in Hd. repeat case_match; lia.
  - destruct (venue_rank exchange) as [| r] eqn:Hr.
    { unfold venue_rank in Hr. repeat case_match; discriminate. }
    cbn [create_contract_at]. unfold bind, gets, call, modify, ret. cbv beta iota.
    destruct (w_contracts w !! symbol); [reflexivity |].
    destruct (List.length _ =? 1)%nat; [reflexivity |].
    destruct (1 <? List.length _)%nat.
    + destruct (String.eqb_spec exchange "SMART") as [-> |]; [| reflexivity].
      change (venue_rank "SMART") with 3%nat in Hr. injection Hr as <-.
      apply (IH "ISLAND"). change (venue_rank "ISLAND") with 2%nat. lia.
    + destruct (String.eqb_spec exchange "ISLAND") as [-> |]; [| reflexivity].
      change (venue_rank "ISLAND") with 2%nat in Hr. injection Hr as <-.
      apply (IH "NYSE"). change (venue_rank "NYSE") with 1%nat. lia.
Qed.

Lemma lookups_only (calls : list IBCall) : only_lookups calls -> lookups calls = calls.
Proof.
  unfold lookups. induction 1 as [| c l Hc _ IH]; simpl; [reflexivity |].
  now rewrite Hc, IH.
Qed.

(** A symbol with no candidate at SMART but one at ISLAND: the resolution
    answers [None] after its lookup at SMART, and asks ISLAND nothing. *)
Lemma create_contract_zero_at_smart_no_retry :
  List.length (reqContractDetails island_only_app (Stock "TSLA" "SMART" "USD")) = 0%nat
  /\ List.length (reqContractDetails island_only_app (Stock "TSLA" "ISLAND" "USD")) = 1%nat
  /\ fst (create_contract island_only_app "TSLA" "SMART" sample_world) = Ok None
  /\ w_calls (snd (create_contract island_only_app "TSLA" "SMART" sample_world))
     = [CallReqContractDetails (Stock "TSLA" "SMART" "USD")].
Proof. repeat split. Qed.

(** One frame of a resolution for a symbol that is not cached. *)
Lemma create_contract_at_step (app : IB) (depth : nat) (symbol exchange : string)
    (w : World) :
  w_contracts w !! symbol = None ->
  create_contract_at app (S depth) symbol exchange w
  = let c := Stock symbol exchange "USD" in
    let w1 := World_set_calls (w_calls w ++ [CallReqContractDetails c]) w in
    if (List.length (reqContractDetails app c) =? 1)%nat
    then (Ok (Some c), World_set_contracts (<[symbol := c]> (w_contracts w1)) w1)
    else if (1 <? List.length (reqContractDetails app c))%nat
    then if String.eqb exchange "SMART"
         then create_contract_at app depth symbol "ISLAND" w1
         else (Ok None, w1)
    else if String.eqb exchange "ISLAND"
         then create_contract_at app depth symbol "NYSE" w1
         else (Ok None, w1).
Proof.
  intros Hnone. cbn [create_contract_at].
  unfold bind, gets, call, modify, ret. cbv beta iota zeta. rewrite Hnone.
  destruct (List.length _ =? 1)%nat; [reflexivity |].
  destruct (1 <? List.length _)%nat.
  - now destruct (String.eqb exchange "SMART").
  - now destruct (String.eqb exchange "ISLAND").
Qed.

(** C6, as the code has it. For a symbol that is not cached, a resolution
    that starts at SMART looks up SMART; it looks up ISLAND exactly when
    SMART had several candidates, and NYSE exactly when ISLAND then had
    none; so a symbol with no candidate at SMART is answered [None]
    after that single lookup, with nothing else changed. And whatever
    the symbol, the venue and the answers, one resolution makes at most
    three lookups and returns. *)
Theorem create_contract_zero_at_smart (app : IB) (symbol : string) (w : World) :
  w_contracts w !! symbol = None ->
  let lookup := fun exchange => CallReqContractDetails (Stock symbol exchange "USD") in
  let n1 := List.length (reqContractDetails app (Stock symbol "SMART" "USD")) in
  let n2 := List.length (reqContractDetails app (Stock symbol "ISLAND" "USD")) in
  (n1 = 0%nat ->
   create_contract app symbol "SMART" w
   = (Ok None, World_set_calls (w_calls w ++ [lookup "SMART"]) w))
  /\ w_calls (snd (create_contract app symbol "SMART" w))
     = w_calls w
       ++ lookup "SMART"
          :: (if (1 <? n1)%nat
              then lookup "ISLAND" :: (if (n2 =? 0)%nat then [lookup "NYSE"] else [])
              else [])
  /\ forall (exchange : string) (w0 : World),
       (List.length (lookups (w_calls (snd (create_contract app symbol exchange w0))))
        <= List.length (lookups (w_calls w0)) + 3)%nat
       /\ fst (create_contract app symbol exchange w0) <> Raise RecursionError.
Proof.
  intros Hnone lookup n1 n2. split; [| split].
  - intros Hzero. unfold create_contract.
    rewrite (create_contract_at_step _ _ _ _ _ Hnone). cbv zeta.
    fold n1. now rewrite Hzero.
  - unfold create_contract. rewrite (create_contract_at_step _ _ _ _ _ Hnone).
    cbv zeta. fold n1. fold (lookup "SMART").
    destruct (Nat.eqb_spec n1 1) as [H1 | H1].
    { rewrite H1. reflexivity. }
    destruct (Nat.ltb_spec 1 n1) as [Hlt | Hge]; [| reflexivity].
    change (String.eqb "SMART" "SMART") with true. cbv iota.
    rewrite create_contract_at_step by exact Hnone. cbv zeta.
    fold n2. fold (lookup "ISLAND").
    destruct (Nat.eqb_spec n2 1) as [H2 | H2].
    { rewrite H2. cbn [snd w_calls World_set_calls World_set_contracts Nat.eqb].
      now rewrite <- app_assoc. }
    destruct (Nat.ltb_spec 1 n2) as [Hlt2 | Hge2].
    { destruct (Nat.eqb_spec n2 0) as [H0 | _]; [lia |].
      cbn [snd w_calls World_set_calls]. now rewrite <- app_assoc. }
    assert (H0 : n2 = 0%nat) by lia. rewrite H0. cbn [Nat.eqb].
    change (String.eqb "ISLAND" "ISLAND") with true. cbv iota.
    rewrite create_contract_at_step by exact Hnone. cbv zeta.
    fold (lookup "NYSE").
    change (String.eqb "NYSE" "SMART") with false.
    change (String.eqb "NYSE" "ISLAND") with false. cbv iota.
    destruct (List.length (reqContractDetails app (Stock symbol "NYSE" "USD")) =? 1)%nat;
      [| destruct (1 <? List.length (reqContractDetails app (Stock symbol "NYSE" "USD")))%nat];
      cbn [snd w_calls World_set_calls World_set_contracts];
      now rewrite <- !app_assoc.
  - intros exchange w0. unfold create_contract.
    destruct (create_contract_at_calls app 3 symbol exchange w0)
      as (new & Hcalls & Hall & Hlen & Hfuel).
    assert (Hrank : (venue_rank exchange <= 3)%nat)
      by (unfold venue_rank; repeat case_match; lia).
    split; [| now apply Hfuel].
    rewrite Hcalls. unfold lookups. rewrite List.filter_app, length_app.
    fold (lookups new). rewrite (lookups_only new Hall). lia.
Qed.

(** At the tests' broker: DUMMY has no candidate anywhere, and MSFT is
    ambiguous at SMART, unknown at ISLAND and unique at NYSE. *)
Lemma create_contract_zero_at_smart_witness :
  create_contract sample_app "DUMMY" "SMART" sample_world
  = (Ok None,
     World_set_calls [CallReqContractDetails (Stock "DUMMY" "SMART" "USD")] sample_world)
  /\ w_calls (snd (create_contract sample_app "MSFT" "SMART" sample_world))
     = [CallReqContractDetails (Stock "MSFT" "SMART" "USD");
        CallReqContractDetails (Stock "MSFT" "ISLAND" "USD");
        CallReqContractDetails (Stock "MSFT" "NYSE" "USD")]
  /\ forall (exchange : string) (w0 : World),
       (List.length (lookups (w_calls (snd (create_contract sample_app "DUMMY" exchange w0))))
        <= List.length (lookups (w_calls w0)) + 3)%nat
       /\ fst (create_contract sample_app "DUMMY" exchange w0) <> Raise RecursionError.
Proof.
  split; [| split].
  - apply (proj1 (create_contract_zero_at_smart sample_app "DUMMY" sample_world eq_refl)).
    reflexivity.
  - exact (proj1 (proj2 (create_contract_zero_at_smart sample_app "MSFT" sample_world
                           eq_refl))).
  - exact (proj2 (proj2 (create_contract_zero_at_smart sample_app "DUMMY" sample_world
                           eq_refl))).
Defined.

(** The tests' MSFT: ambiguous at SMART, unknown at ISLAND, unique at NYSE;
    three lookups, and the NYSE contract is cached. *)
Example create_contract_msft :
  let r := create_contract sample_app "MSFT" "SMART" sample_world in
  fst r = Ok (Some (Stock "MSFT" "NYSE" "USD"))
  /\ w_calls (snd r)
     = [CallReqContractDetails (Stock "MSFT" "SMART" "USD");
        CallReqContractDetails (Stock "MSFT" "ISLAND" "USD");
        CallReqContractDetails (Stock "MSFT" "NYSE" "USD")]
  /\ w_contracts (snd r) !! "MSFT" = Some (Stock "MSFT" "NYSE" "USD")
  /\ create_contract sample_app "MSFT" "SMART" (snd r)
     = (Ok (Some (Stock "MSFT" "NYSE" "USD")), snd r).
Proof. vm_compute. repeat split; reflexivity. Qed.

(** *** Frames *)

Section Steps.

Context (R : World -> World -> Prop) `{!PreOrder R}.

Lemma steps_ret {A} (a : A) : steps R (ret a).
Proof. intros w. reflexivity. Qed.

Lemma steps_raise {A} (e : exn) : steps R (@raise A e).
Proof. intros w. reflexivity. Qed.

Lemma steps_lift {A} (r : result A) : steps R (lift r).
Proof. intros w. reflexivity. Qed.

Lemma steps_gets {A} (f : World -> A) : steps R (gets f).
Proof. intros w. reflexivity. Qed.

Lemma steps_modify (g : World -> World) : (forall w, R w (g w)) -> steps R (modify g).
Proof. intros Hg w. apply Hg. Qed.

Lemma steps_bind {A B} (m : M A) (k : A -> M B) :
  steps R m -> (forall a, steps R (k a)) -> steps R (bind m k).
Proof.
  intros Hm Hk w. unfold bind. specialize (Hm w).
  destruct (m w) as [[a | e] w1]; simpl in *; [| assumption].
  etransitivity; [exact Hm | apply Hk].
Qed.

Lemma steps_forM_ {A} (l : list A) (body : A -> M unit) :
  (forall x, steps R (body x)) -> steps R (forM_ l body).
Proof.
  intros Hbody. induction l as [| x l IH]; simpl.
  - apply steps_ret.
  - apply steps_bind; [apply Hbody | intros _; exact IH].
Qed.

Lemma steps_for_break {A} (l : list A) (body : A -> M bool) :
  (forall x, steps R (body x)) -> steps R (for_break l body).
Proof.
  intros Hbody. induction l as [| x l IH]; simpl.
  - apply steps_ret.
  - apply steps_bind; [apply Hbody | intros [|]; [apply steps_ret | exact IH]].
Qed.

End Steps.

Create HintDb steps.

#[export] Hint Resolve steps_ret steps_raise steps_lift steps_gets steps_bind
  steps_forM_ steps_for_break : steps.
#[export] Hint Extern 1 (steps _ (modify _)) => apply steps_modify; intros : steps.
#[export] Hint Extern 3 (steps _ (match ?x with _ => _ end)) => destruct x : steps.
#[export] Hint Extern 1 (PreOrder _) => typeclasses eauto : steps.
#[export] Hint Extern 1 (ServiceFrame _) => typeclasses eauto : steps.
#[export] Hint Extern 1 (GraphFrame _) => typeclasses eauto : steps.
(** The state changes a frame class answers for. *)
Ltac frame_step :=
  lazymatch goal with
  | |- _ _ (World_set_calls _ _) => apply sf_call; reflexivity
  | |- _ _ (World_set_queries _ _) => apply sf_subscribe
  | |- _ _ (World_set_position_chart_data _ _) => apply sf_chart
  | |- _ _ (World_set_next_oid _ _) => apply sf_oid
  | |- _ _ (World_set_contracts _ _) => apply sf_contracts
  | |- _ _ (World_set_account (Account_set_positions _ _) _) => apply gf_positions
  | |- _ _ (World_set_account (Account_set_orders _ _) _) => apply gf_orders
  end.

#[export] Hint Extern 2 => frame_step : steps.

(** Split a goal on a computation that is, as written, a [bind]. *)
Ltac bind_step R :=
  lazymatch goal with
  | |- steps _ (bind _ _) => apply (steps_bind R)
  end.

Global Instance same_account_preorder : PreOrder same_account.
Proof. split; unfold same_account; [intros w | intros w1 w2 w3]; congruence. Qed.

Global Instance same_account_frame : ServiceFrame same_account.
Proof. split; [apply _ | unfold same_account; reflexivity ..]. Qed.

Global Instance same_summary_preorder : PreOrder same_summary.
Proof.
  split; unfold same_summary.
  - intros w. repeat split.
  - intros w1 w2 w3 (? & ? & ? & ? & ?) (? & ? & ? & ? & ?). repeat split; congruence.
Qed.

Global Instance same_summary_service : ServiceFrame same_summary.
Proof. split; [apply _ | unfold same_summary; intros; repeat split ..]. Qed.

Global Instance same_summary_frame : GraphFrame same_summary.
Proof. split; [apply _ | unfold same_summary; intros; repeat split ..]. Qed.

Lemma cancellations_app (l1 l2 : list IBCall) :
  cancellations (l1 ++ l2) = cancellations l1 ++ cancellations l2.
Proof. apply List.filter_app. Qed.

Global Instance nothing_released_preorder : PreOrder nothing_released.
Proof.
  split; unfold nothing_released.
  - intros w. split; reflexivity.
  - intros w1 w2 w3 [? ?] [? ?]. split; [etransitivity; eassumption | congruence].
Qed.

Global Instance nothing_released_service : ServiceFrame nothing_released.
Proof.
  split; [apply _ | unfold nothing_released; simpl; intros ..]; try (split; reflexivity).
  - split; [reflexivity |]. rewrite cancellations_app. simpl. rewrite H.
    apply app_nil_r.
  - split; [apply prefix_app_r; reflexivity | reflexivity].
Qed.

Global Instance nothing_released_frame : GraphFrame nothing_released.
Proof. split; [apply _ | unfold nothing_released; intros; split; reflexivity ..]. Qed.

Global Instance same_positions_preorder : PreOrder same_positions.
Proof. split; unfold same_positions; [intros w | intros w1 w2 w3]; congruence. Qed.

Global Instance same_positions_service : ServiceFrame same_positions.
Proof. split; [apply _ | unfold same_positions; reflexivity ..]. Qed.

Section Frames.

Context {rt : PyRuntime} (app : IB) (utcnow now : Z).

Lemma call_steps R `{!ServiceFrame R} (c : IBCall) :
  is_cancellation c = false -> steps R (call c).
Proof. intros Hc. unfold call. apply steps_modify. intros w. now apply sf_call. Qed.

Lemma add_query_steps R `{!ServiceFrame R} (query : Query) : steps R (add_query app query).
Proof.
  unfold add_query. apply (steps_bind R); [auto with steps |].
  intros queries. destruct (find_query queries query); [auto with steps |].
  apply (steps_bind R); [now apply call_steps |]. intros _.
  auto 6 with steps.
Qed.

Lemma store_position_chart_data_steps R `{!ServiceFrame R} (position : Position)
    (chart_data : ChartData) :
  steps R (store_position_chart_data position chart_data).
Proof.
  unfold store_position_chart_data, find_position_chart_data_index. auto 8 with steps.
Qed.

Lemma clear_position_chart_data_steps R `{!ServiceFrame R} (position : Position) :
  steps R (clear_position_chart_data position).
Proof.
  unfold clear_position_chart_data, find_position_chart_data_index. auto 8 with steps.
Qed.

(** [remove_query] never changes the state: it finds nothing to release,
    or it raises before releasing. *)
Lemma remove_query_state (query : Query) (w : World) : snd (remove_query query w) = w.
Proof.
  destruct (find_query (w_queries w) query) as [cached |] eqn:Hfind.
  - unfold remove_query, bind, gets. rewrite Hfind.
    now destruct (find_query_Some_cons _ _ _ Hfind) as (q & l & ->).
  - now rewrite (remove_query_absent query w Hfind).
Qed.

Lemma remove_query_steps R `{!PreOrder R} (query : Query) : steps R (remove_query query).
Proof. intros w. rewrite remove_query_state. reflexivity. Qed.

Lemma set_positions_steps R `{!GraphFrame R} (ps : list Position) : steps R (set_positions ps).
Proof. unfold set_positions. auto with steps. Qed.

Lemma set_position_steps R `{!GraphFrame R} (i : nat) (p : Position) :
  steps R (set_position i p).
Proof. unfold set_position. auto using set_positions_steps with steps. Qed.

Lemma set_orders_steps R `{!GraphFrame R} (os : list Order) : steps R (set_orders os).
Proof. unfold set_orders. auto with steps. Qed.

Lemma refresh_position_steps R `{!GraphFrame R} (ib_position : IBPosition) :
  steps R (refresh_position app utcnow now ib_position).
Proof.
  unfold refresh_position.
  apply (steps_bind R); [auto with steps |]. intros ps.
  destruct (list_find _ ps) as [[i position] |].
  - repeat (bind_step R; [| intros ?]);
      auto using set_position_steps, add_query_steps, store_position_chart_data_steps
        with steps.
  - repeat (bind_step R; [| intros ?]);
      auto using set_position_steps, set_positions_steps, add_query_steps,
        store_position_chart_data_steps with steps.
Qed.

Lemma refresh_positions_steps R `{!GraphFrame R} (l : list IBPosition) :
  steps R (refresh_positions app utcnow now l).
Proof.
  induction l as [| ib_position l IH]; simpl.
  - auto with steps.
  - apply (steps_bind R); [apply refresh_position_steps; assumption |]. intros symbol.
    apply (steps_bind R); [exact IH |]. auto with steps.
Qed.

Lemma remove_stale_steps R `{!GraphFrame R} (symbols : list string) (i : nat) :
  steps R (remove_stale symbols i).
Proof.
  unfold remove_stale.
  apply (steps_bind R); [auto with steps |]. intros ps.
  destruct (ps !! i) as [position |]; [| auto with steps].
  destruct (negb _); [| auto with steps].
  repeat (bind_step R; [| intros ?]);
    auto using clear_position_chart_data_steps, remove_query_steps, set_positions_steps
      with steps.
Qed.

Lemma refresh_trade_steps R `{!GraphFrame R} (ib_trade : Trade) :
  steps R (refresh_trade app utcnow now ib_trade).
Proof.
  unfold refresh_trade.
  apply (steps_bind R); [auto with steps |]. intros os.
  destruct (list_find _ os) as [[i order] |].
  - apply set_orders_steps; assumption.
  - repeat (bind_step R; [| intros ?]); auto using set_orders_steps with steps.
Qed.

(** The loop over the trades leaves the positions alone. *)
Lemma refresh_trade_same_positions (ib_trade : Trade) :
  steps same_positions (refresh_trade app utcnow now ib_trade).
Proof.
  intros w. unfold refresh_trade, bind, gets, lift, set_orders, modify, same_positions.
  simpl. destruct (list_find _ _) as [[i order] |]; simpl; [reflexivity |].
  destruct (OrderAction_lookup _); simpl; [| reflexivity].
  destruct (int_of_float _); reflexivity.
Qed.

End Frames.

(** *** Reading a successful run backwards *)

Lemma bind_Ok {A B} (m : M A) (k : A -> M B) (w w' : World) (b : B) :
  bind m k w = (Ok b, w') ->
  exists a w1, m w = (Ok a, w1) /\ k a w1 = (Ok b, w').
Proof.
  unfold bind. destruct (m w) as [[a | e] w1]; [eauto | discriminate].
Qed.

Lemma steps_run R {A} (m : M A) (w w' : World) (r : result A) :
  steps R m -> m w = (r, w') -> R w w'.
Proof. intros Hm Hrun. specialize (Hm w). now rewrite Hrun in Hm. Qed.

Section Refresh.

Context {rt : PyRuntime} (app : IB) (utcnow now : Z).

Lemma reconcile_positions_steps R `{!GraphFrame R} (code : string) :
  steps R (reconcile_positions app utcnow now code).
Proof.
  unfold reconcile_positions.
  bind_step R; [apply refresh_positions_steps; assumption | intros symbols].
  bind_step R; [auto with steps | intros ps].
  apply (steps_forM_ R). intros i. apply remove_stale_steps; assumption.
Qed.

Lemma reconcile_orders_steps R `{!GraphFrame R} :
  steps R (reconcile_orders app utcnow now).
Proof.
  unfold reconcile_orders.
  bind_step R; [apply (call_steps R); reflexivity | intros _].
  bind_step R; [apply (call_steps R); reflexivity | intros _].
  apply (steps_forM_ R). intros t. apply refresh_trade_steps; assumption.
Qed.

Lemma reconcile_orders_same_positions :
  steps same_positions (reconcile_orders app utcnow now).
Proof.
  unfold reconcile_orders.
  bind_step same_positions; [apply (call_steps same_positions); reflexivity | intros _].
  bind_step same_positions; [apply (call_steps same_positions); reflexivity | intros _].
  apply (steps_forM_ same_positions). intros t. apply refresh_trade_same_positions.
Qed.

(** [get_account_code] reads the broker and leaves the state alone. *)
Lemma get_account_code_state (w : World) : snd (get_account_code app w) = w.
Proof. unfold get_account_code. now destruct (filter _ _). Qed.

(** The three parts of a refresh that got past the account check. *)
Lemma refresh_account_parts (w w' : World) (r : result unit) :
  refresh_account app utcnow now w = (r, w') ->
  fst (get_account_code app w) = Ok (a_code (w_account w)) ->
  (refresh_summary app utcnow (w_account w) ;;
   reconcile_positions app utcnow now (a_code (w_account w)) ;;
   reconcile_orders app utcnow now) w = (r, w').
Proof.
  unfold refresh_account. intros Hrun Hcode.
  unfold bind at 1 in Hrun.
  pose proof (get_account_code_state w) as Hst.
  destruct (get_account_code app w) as [[code | e] w0]; simpl in *; [| discriminate].
  injection Hcode as ->. subst w0.
  unfold bind at 1 in Hrun. unfold gets in Hrun.
  now rewrite String.eqb_refl in Hrun.
Qed.

(** A successful refresh got past the account check. *)
Lemma refresh_account_Ok_code (w w' : World) :
  refresh_account app utcnow now w = (Ok tt, w') ->
  fst (get_account_code app w) = Ok (a_code (w_account w)).
Proof.
  unfold refresh_account. intros Hrun.
  unfold bind at 1 in Hrun.
  pose proof (get_account_code_state w) as Hst.
  destruct (get_account_code app w) as [[code | e] w0]; simpl in *; [| discriminate].
  subst w0. unfold bind at 1 in Hrun. unfold gets in Hrun.
  destruct (String.eqb_spec (a_code (w_account w)) code) as [-> | Hne];
    [reflexivity | discriminate].
Qed.

(** C2. When the broker's account code differs from the code of the account
    under refresh, [refresh_account] raises (the [ValueError] that stands
    for the account mismatch) and leaves the whole state, so the account's
    summary figures, positions and orders, as it found them. *)
Theorem refresh_account_mismatch (w : World) (code : string) :
  fst (get_account_code app w) = Ok code ->
  a_code (w_account w) <> code ->
  refresh_account app utcnow now w = (Raise ValueError, w).
Proof.
  intros Hcode Hne. unfold refresh_account.
  unfold bind at 1.
  pose proof (get_account_code_state w) as Hst.
  destruct (get_account_code app w) as [[code' | e] w0]; simpl in *; [| discriminate].
  injection Hcode as ->. subst w0.
  unfold bind at 1. unfold gets.
  apply String.eqb_neq in Hne. now rewrite Hne.
Qed.

(** *** The summary figures *)

(** One row changes at most the figure of its own tag. *)
Lemma summary_step_absent (code : string) (s s1 : Summary) (acs : AccountValue) :
  summary_step code s acs = Ok s1 ->
  (absent_row code "TotalCashValue" acs -> s_total_cash_value s1 = s_total_cash_value s)
  /\ (absent_row code "AvailableFunds" acs -> s_available_funds s1 = s_available_funds s)
  /\ (absent_row code "NetLiquidation" acs -> s_net_liquidation s1 = s_net_liquidation s)
  /\ (absent_row code "DayTradesRemaining" acs ->
      s_day_trades_remaining s1 = s_day_trades_remaining s).
Proof.
  unfold summary_step, absent_row.
  destruct (String.eqb_spec (av_account acs) code) as [Hacc | Hacc];
    [| intros [= <-]; repeat split].
  destruct (String.eqb_spec (av_tag acs) "TotalCashValue") as [Htag | _].
  { destruct (parse_float _); simpl; [intros [= <-] | discriminate].
    rewrite Htag. repeat split; intros H; try reflexivity; now destruct (H Hacc). }
  destruct (String.eqb_spec (av_tag acs) "AvailableFunds") as [Htag | _].
  { destruct (parse_float _); simpl; [intros [= <-] | discriminate].
    rewrite Htag. repeat split; intros H; try reflexivity; now destruct (H Hacc). }
  destruct (String.eqb_spec (av_tag acs) "NetLiquidation") as [Htag | _].
  { destruct (parse_float _); simpl; [intros [= <-] | discriminate].
    rewrite Htag. repeat split; intros H; try reflexivity; now destruct (H Hacc). }
  destruct (String.eqb_spec (av_tag acs) "DayTradesRemaining") as [Htag | _].
  { destruct (parse_int _); simpl; [intros [= <-] | discriminate].
    rewrite Htag. repeat split; intros H; try reflexivity; now destruct (H Hacc). }
  intros [= <-]. repeat split.
Qed.

(** A tag without a row keeps the figure the loop started with. *)
Lemma summary_loop_absent (code : string) (l : list AccountValue) (s s' : Summary) :
  summary_loop code s l = Ok s' ->
  (Forall (absent_row code "TotalCashValue") l ->
   s_total_cash_value s' = s_total_cash_value s)
  /\ (Forall (absent_row code "AvailableFunds") l ->
      s_available_funds s' = s_available_funds s)
  /\ (Forall (absent_row code "NetLiquidation") l ->
      s_net_liquidation s' = s_net_liquidation s)
  /\ (Forall (absent_row code "DayTradesRemaining") l ->
      s_day_trades_remaining s' = s_day_trades_remaining s).
Proof.
  revert s. induction l as [| acs l IH]; intros s; simpl.
  - intros [= <-]. repeat split.
  - destruct (summary_step code s acs) as [s1 |] eqn:Hstep; simpl; [| discriminate].
    intros Hloop.
    destruct (summary_step_absent _ _ _ _ Hstep) as (H1 & H2 & H3 & H4).
    destruct (IH _ Hloop) as (G1 & G2 & G3 & G4).
    repeat split; intros Hall; apply Forall_cons in Hall as [Hrow Hall].
    + rewrite (G1 Hall). now apply H1.
    + rewrite (G2 Hall). now apply H2.
    + rewrite (G3 Hall). now apply H3.
    + rewrite (G4 Hall). now apply H4.
Qed.

(** What [refresh_summary] leaves when it returns. *)
Lemma refresh_summary_Ok (account : Account) (w w1 : World) :
  refresh_summary app utcnow account w = (Ok tt, w1) ->
  exists s,
    summary_loop (a_code account) (mkSummary 0%float 0%float 0%float 0) (accountSummary app)
    = Ok s
    /\ w1 = World_set_account
              (Account_update utcnow (s_net_liquidation s) (s_total_cash_value s)
                 (s_available_funds s) (s_day_trades_remaining s) (w_account w)) w.
Proof.
  unfold refresh_summary, bind, lift, modify.
  destruct (summary_loop _ _ _) as [s |]; [| discriminate].
  intros [= <-]. eauto.
Qed.

(** C9. Once a refresh is past the account check and the rows of the
    account summary parse, so that the one [Account.update] is made, each
    of the four summary figures whose tag has no row of this account is
    zero in the state the refresh leaves, whatever it was before and
    whatever the refresh goes on to return or raise. *)
Theorem refresh_account_absent_tag_zero (w : World) (s : Summary) :
  fst (get_account_code app w) = Ok (a_code (w_account w)) ->
  summary_loop (a_code (w_account w)) (mkSummary 0%float 0%float 0%float 0)
    (accountSummary app) = Ok s ->
  let account' := w_account (snd (refresh_account app utcnow now w)) in
  (tag_absent app (a_code (w_account w)) "NetLiquidation" ->
   a_total_value account' = 0%float)
  /\ (tag_absent app (a_code (w_account w)) "TotalCashValue" ->
      a_cash_value account' = 0%float)
  /\ (tag_absent app (a_code (w_account w)) "AvailableFunds" ->
      a_available_funds account' = 0%float)
  /\ (tag_absent app (a_code (w_account w)) "DayTradesRemaining" ->
      a_day_trades_remaining account' = 0).
Proof.
  intros Hcode Hloop account'. subst account'.
  destruct (refresh_account app utcnow now w) as [r w'] eqn:Hrun.
  pose proof (refresh_account_parts _ _ _ Hrun Hcode) as Hparts. simpl.
  unfold bind at 1 in Hparts. unfold refresh_summary at 1 in Hparts.
  unfold bind at 1 in Hparts. unfold lift in Hparts. rewrite Hloop in Hparts.
  unfold modify in Hparts.
  apply (steps_run same_summary) in Hparts;
    [| bind_step same_summary; [apply reconcile_positions_steps; apply _ | intros _];
       apply reconcile_orders_steps; apply _].
  destruct Hparts as (_ & P1 & P2 & P3 & P4).
  rewrite P1, P2, P3, P4. simpl.
  destruct (summary_loop_absent _ _ _ _ Hloop) as (G1 & G2 & G3 & G4).
  unfold tag_absent. repeat split; intros Habs.
  - now rewrite (G3 Habs).
  - now rewrite (G1 Habs).
  - now rewrite (G2 Habs).
  - now rewrite (G4 Habs).
Qed.

(** A refresh that returned was past the check and had parsed the rows. *)
Lemma refresh_account_Ok_summary (w w' : World) :
  refresh_account app utcnow now w = (Ok tt, w') ->
  fst (get_account_code app w) = Ok (a_code (w_account w))
  /\ exists s,
       summary_loop (a_code (w_account w)) (mkSummary 0%float 0%float 0%float 0)
         (accountSummary app) = Ok s.
Proof.
  intros Hrun. pose proof (refresh_account_Ok_code _ _ Hrun) as Hcode.
  split; [assumption |].
  pose proof (refresh_account_parts _ _ _ Hrun Hcode) as Hparts.
  apply bind_Ok in Hparts as ([] & w1 & Hsum & _).
  apply refresh_summary_Ok in Hsum as (s & Hloop & _). eauto.
Qed.

(** *** The positions *)

Lemma update_pnl_symbol (t : Z) (last_price : option float) (p : Position) :
  p_symbol (update_pnl t last_price p) = p_symbol p.
Proof.
  unfold update_pnl. destruct last_price as [lp |]; [| reflexivity].
  now destruct (negb (PrimFloat.is_nan lp)).
Qed.

#[local] Arguments update_pnl : simpl never.

(** [Server.add_query] always returns, and returns [subscription]. *)
Lemma add_query_result (query : Query) (w : World) :
  fst (add_query app query w) = Ok (subscription app (w_queries w) query).
Proof.
  unfold add_query, subscription, bind, gets, call, modify, ret.
  now destruct (find_query (w_queries w) query).
Qed.

Lemma add_query_run (query : Query) (w w1 : World) (r : result Query) :
  add_query app query w = (r, w1) ->
  r = Ok (subscription app (w_queries w) query) /\ w_account w1 = w_account w.
Proof.
  intros Hrun. split.
  - rewrite <- add_query_result. now rewrite Hrun.
  - apply (steps_run same_account) in Hrun; [exact Hrun |].
    apply add_query_steps. apply _.
Qed.

(** A broker position whose symbol is already held updates that one
    position in place. *)
Lemma refresh_position_found (ib_position : IBPosition) (w w' : World) (s : string)
    (i : nat) (p : Position) :
  list_find (fun position => p_symbol position = canonical_symbol (ip_contract ib_position))
    (a_positions (w_account w)) = Some (i, p) ->
  refresh_position app utcnow now ib_position w = (Ok s, w') ->
  s = canonical_symbol (ip_contract ib_position)
  /\ exists p', a_positions (w_account w') = <[i := p']> (a_positions (w_account w))
                /\ p_symbol p' = p_symbol p.
Proof.
  intros Hfind Hrun. unfold refresh_position in Hrun.
  apply bind_Ok in Hrun as (ps & w1 & Hps & Hrun). injection Hps as <- <-.
  rewrite Hfind in Hrun.
  apply bind_Ok in Hrun as (qty & w2 & Hqty & Hrun). injection Hqty as _ <-.
  apply bind_Ok in Hrun as ([] & w3 & Hset & Hrun). injection Hset as <-.
  apply bind_Ok in Hrun as (price_query & w4 & Hq & Hrun).
  apply add_query_run in Hq as [_ Hacc4].
  apply bind_Ok in Hrun as ([] & w5 & Hstore & Hrun).
  apply (steps_run same_account) in Hstore;
    [| apply store_position_chart_data_steps; apply _].
  apply bind_Ok in Hrun as ([] & w6 & Hpnl & Hrun). injection Hrun as <- <-.
  split; [reflexivity |].
  unfold same_account in Hstore. rewrite Hacc4 in Hstore. simpl in Hstore.
  destruct (get_last_value price_query) as [current_price |].
  - destruct (truthy current_price).
    + injection Hpnl as <-. simpl. rewrite Hstore. simpl.
      rewrite list_insert_insert_eq. eexists. split; [reflexivity |].
      now rewrite update_pnl_symbol.
    + injection Hpnl as <-. rewrite Hstore. simpl.
      eexists. split; [reflexivity |]. reflexivity.
  - injection Hpnl as <-. rewrite Hstore. simpl.
    eexists. split; [reflexivity |]. reflexivity.
Qed.

(** A broker position whose symbol is not held yet appends one position:
    the one [Position.__init__] builds from the broker's quantity and
    average cost, after [update_pnl] with the last value of its
    subscription. *)
Lemma refresh_position_new (ib_position : IBPosition) (w w' : World) (s : string) :
  list_find (fun position => p_symbol position = canonical_symbol (ip_contract ib_position))
    (a_positions (w_account w)) = None ->
  refresh_position app utcnow now ib_position w = (Ok s, w') ->
  s = canonical_symbol (ip_contract ib_position)
  /\ exists qty,
       int_of_float (ip_position ib_position) = Ok qty
       /\ a_positions (w_account w')
          = a_positions (w_account w)
            ++ [update_pnl utcnow
                  (get_last_value
                     (subscription app (w_queries w)
                        (ContractQuery (ip_contract ib_position) DAY)))
                  (Position_init (w_next_oid w) utcnow s qty (ip_avgCost ib_position)
                     (cost_basis ib_position))].
Proof.
  intros Hfind Hrun. unfold refresh_position in Hrun.
  apply bind_Ok in Hrun as (ps & w1 & Hps & Hrun). injection Hps as <- <-.
  rewrite Hfind in Hrun.
  apply bind_Ok in Hrun as (qty & w2 & Hqty & Hrun). injection Hqty as Hqty <-.
  apply bind_Ok in Hrun as (oid & w3 & Hoid & Hrun). injection Hoid as <- <-.
  apply bind_Ok in Hrun as ([] & w4 & Hnext & Hrun). injection Hnext as <-.
  apply bind_Ok in Hrun as ([] & w5 & Hset & Hrun). injection Hset as <-.
  apply bind_Ok in Hrun as (price_query & w6 & Hq & Hrun).
  apply add_query_run in Hq as [[= ->] Hacc6].
  apply bind_Ok in Hrun as ([] & w7 & Hstore & Hrun).
  apply (steps_run same_account) in Hstore;
    [| apply store_position_chart_data_steps; apply _].
  apply bind_Ok in Hrun as ([] & w8 & Hpnl & Hrun). injection Hrun as <- <-.
  injection Hpnl as <-.
  split; [reflexivity |]. exists qty. split; [assumption |].
  unfold same_account in Hstore. rewrite Hacc6 in Hstore. simpl in *.
  rewrite Hstore. simpl.
  rewrite insert_app_r_alt by lia. now rewrite Nat.sub_diag.
Qed.

(** Either way the local symbols gain at most the broker's symbol, at the
    end. *)
Lemma refresh_position_symbols (ib_position : IBPosition) (w w' : World) (s : string) :
  refresh_position app utcnow now ib_position w = (Ok s, w') ->
  s = canonical_symbol (ip_contract ib_position)
  /\ local_symbols w'
     = if decide (s ∈ local_symbols w) then local_symbols w else local_symbols w ++ [s].
Proof.
  intros Hrun. unfold local_symbols.
  destruct (list_find (fun position => p_symbol position
                                       = canonical_symbol (ip_contract ib_position))
              (a_positions (w_account w))) as [[i p] |] eqn:Hfind.
  - destruct (refresh_position_found _ _ _ _ _ _ Hfind Hrun) as (-> & p' & -> & Hsym).
    split; [reflexivity |].
    apply list_find_Some in Hfind as (Hi & Hp & _).
    rewrite decide_True.
    + rewrite list_fmap_insert, Hsym. apply list_insert_id.
      now rewrite list_lookup_fmap, Hi.
    + rewrite <- Hp. apply list_elem_of_fmap_2. eapply list_elem_of_lookup_2. exact Hi.
  - destruct (refresh_position_new _ _ _ _ Hfind Hrun) as (-> & qty & _ & ->).
    split; [reflexivity |].
    apply list_find_None in Hfind.
    rewrite decide_False.
    + now rewrite fmap_snoc, update_pnl_symbol.
    + intros (p & Hp & Hin)%list_elem_of_fmap.
      rewrite Forall_forall in Hfind. now apply (Hfind p Hin).
Qed.

(** After the loop over the broker's positions: the symbols it returns are
    the broker's, the local symbols are the old ones and the broker's, and
    no symbol came to be held twice. *)
Lemma refresh_positions_symbols (l : list IBPosition) (w w' : World) (symbols : list string) :
  refresh_positions app utcnow now l w = (Ok symbols, w') ->
  symbols = (fun ib_position => canonical_symbol (ip_contract ib_position)) <$> l
  /\ (forall s, s ∈ local_symbols w' <-> s ∈ local_symbols w \/ s ∈ symbols)
  /\ (NoDup (local_symbols w) -> NoDup (local_symbols w')).
Proof.
  revert w symbols. induction l as [| ib_position l IH]; intros w symbols Hrun; simpl in Hrun.
  - injection Hrun as <- <-. split; [reflexivity |]. split; [| auto].
    intros s. rewrite elem_of_nil. tauto.
  - apply bind_Ok in Hrun as (s & w1 & Hone & Hrun).
    apply bind_Ok in Hrun as (syms & w2 & Hrest & Hrun). injection Hrun as <- <-.
    apply refresh_position_symbols in Hone as [-> Hone].
    apply IH in Hrest as (-> & Hmem & Hnodup).
    split; [reflexivity |]. split.
    + intros s. rewrite Hmem, Hone, elem_of_cons.
      destruct (decide _) as [Hin | Hnin].
      * split; [tauto |]. intros [? | [-> | ?]]; auto.
      * rewrite elem_of_app, list_elem_of_singleton. tauto.
    + intros Hnd. apply Hnodup. rewrite Hone.
      destruct (decide _) as [Hin | Hnin]; [assumption |].
      apply NoDup_app. split; [assumption |]. split; [| apply NoDup_singleton].
      intros x Hx ->%list_elem_of_singleton. contradiction.
Qed.

(** One round of the backward loop: the position at [i] stays when its
    symbol was seen, and goes when it was not. *)
Lemma remove_stale_Ok (symbols : list string) (i : nat) (w w' : World) :
  remove_stale symbols i w = (Ok tt, w') ->
  exists p,
    a_positions (w_account w) !! i = Some p
    /\ a_positions (w_account w')
       = if py_in (p_symbol p) symbols then a_positions (w_account w)
         else delete i (a_positions (w_account w)).
Proof.
  unfold remove_stale. intros Hrun.
  apply bind_Ok in Hrun as (ps & w1 & Hps & Hrun). injection Hps as <- <-.
  destruct (a_positions (w_account w) !! i) as [p |]; [| discriminate].
  exists p. split; [reflexivity |].
  destruct (py_in (p_symbol p) symbols); simpl in Hrun.
  - now injection Hrun as <-.
  - apply bind_Ok in Hrun as ([] & w2 & Hclear & Hrun).
    apply (steps_run same_account) in Hclear;
      [| apply clear_position_chart_data_steps; apply _].
    apply bind_Ok in Hrun as ([] & w3 & Hrm & Hrun).
    pose proof (remove_query_state (StockQuery (p_symbol p) DAY) w2) as Hst.
    rewrite Hrm in Hst. simpl in Hst. subst w3.
    apply bind_Ok in Hrun as (ps & w4 & Hps & Hrun). injection Hps as <- <-.
    injection Hrun as <-. simpl. now rewrite Hclear.
Qed.

Lemma py_range_down_S (n : nat) : py_range_down (S n) = n :: py_range_down n.
Proof. unfold py_range_down. rewrite seq_S. simpl. now rewrite rev_app_distr. Qed.

(** The backward loop keeps, in order, the positions whose symbol was
    seen. *)
Lemma remove_stale_loop (symbols : list string) (l1 l2 : list Position) (w w' : World) :
  a_positions (w_account w) = l1 ++ l2 ->
  forM_ (py_range_down (List.length l1)) (remove_stale symbols) w = (Ok tt, w') ->
  a_positions (w_account w')
  = filter (fun p => py_in (p_symbol p) symbols = true) l1 ++ l2.
Proof.
  revert l2 w. induction l1 as [| x l IH] using rev_ind; intros l2 w Hps Hrun.
  - injection Hrun as <-. now rewrite Hps.
  - rewrite length_app, Nat.add_1_r, py_range_down_S in Hrun. simpl in Hrun.
    apply bind_Ok in Hrun as ([] & w1 & Hone & Hrun).
    apply remove_stale_Ok in Hone as (p & Hlook & Hone).
    rewrite Hps, <- app_assoc in Hlook, Hone. simpl in Hlook, Hone.
    rewrite list_lookup_middle in Hlook by reflexivity. injection Hlook as <-.
    rewrite filter_app, <- app_assoc.
    destruct (py_in (p_symbol x) symbols) eqn:Hkeep.
    + rewrite (IH (x :: l2) w1 Hone Hrun).
      now rewrite filter_cons_True, filter_nil by assumption.
    + rewrite delete_middle in Hone.
      rewrite (IH l2 w1 Hone Hrun).
      now rewrite filter_cons_False, filter_nil by congruence.
Qed.

(** The positions after the second part of a refresh. *)
Lemma reconcile_positions_Ok (code : string) (w w' : World) :
  reconcile_positions app utcnow now code w = (Ok tt, w') ->
  (forall s, s ∈ local_symbols w' <-> s ∈ broker_symbols app code)
  /\ (NoDup (local_symbols w) -> NoDup (local_symbols w')).
Proof.
  unfold reconcile_positions. intros Hrun.
  apply bind_Ok in Hrun as (symbols & w1 & Hloop & Hrun).
  apply bind_Ok in Hrun as (ps & w2 & Hps & Hrun). injection Hps as <- <-.
  apply refresh_positions_symbols in Hloop as (-> & Hmem & Hnodup).
  apply (remove_stale_loop _ _ []) in Hrun; [| now rewrite app_nil_r].
  rewrite app_nil_r in Hrun. fold (broker_symbols app code) in *.
  unfold local_symbols at 1 3. rewrite Hrun. split.
  - intros s. rewrite list_elem_of_fmap. split.
    + intros (p & -> & [Hkeep _]%list_elem_of_filter). now apply py_in_true.
    + intros Hs. assert (Hloc : s ∈ local_symbols w1) by (apply Hmem; now right).
      apply list_elem_of_fmap in Hloc as (p & -> & Hin).
      exists p. split; [reflexivity |]. apply list_elem_of_filter. split; [| assumption].
      now apply py_in_true.
  - intros Hnd. apply (sublist_NoDup _ (local_symbols w1)); [now apply Hnodup |].
    unfold local_symbols. apply fmap_sublist, sublist_filter.
Qed.

(** After a refresh that returned, the local symbols are exactly the
    broker's, and an account that held no symbol twice still holds none
    twice: each of the broker's symbols has exactly one position. *)
Lemma refresh_account_symbols (w w' : World) :
  refresh_account app utcnow now w = (Ok tt, w') ->
  (forall s, s ∈ local_symbols w' <-> s ∈ broker_symbols app (a_code (w_account w)))
  /\ (NoDup (local_symbols w) -> NoDup (local_symbols w')).
Proof.
  intros Hrun.
  pose proof (refresh_account_parts _ _ _ Hrun (refresh_account_Ok_code _ _ Hrun)) as Hparts.
  apply bind_Ok in Hparts as ([] & w1 & Hsum & Hrest).
  apply bind_Ok in Hrest as ([] & w2 & Hpos & Hord).
  apply refresh_summary_Ok in Hsum as (s & _ & ->).
  apply (steps_run same_positions) in Hord; [| apply reconcile_orders_same_positions].
  apply reconcile_positions_Ok in Hpos as [Hmem Hnodup].
  unfold local_symbols in *. rewrite Hord. simpl in *. auto.
Qed.

(** The first part of a refresh touches neither the cache nor the broker. *)
Lemma refresh_summary_nothing_released (account : Account) :
  steps nothing_released (refresh_summary app utcnow account).
Proof.
  intros w. unfold refresh_summary, bind, lift, modify.
  destruct (summary_loop _ _ _); split; reflexivity.
Qed.

(** Whatever a refresh returns or raises, every subscription that was
    cached is still cached, and no cancellation was sent to the broker. *)
Lemma refresh_account_nothing_released :
  steps nothing_released (refresh_account app utcnow now).
Proof.
  unfold refresh_account.
  bind_step nothing_released.
  { intros w. rewrite get_account_code_state. reflexivity. }
  intros code. bind_step nothing_released; [auto with steps |]. intros account.
  destruct (negb _); [auto with steps |].
  bind_step nothing_released; [apply refresh_summary_nothing_released | intros _].
  bind_step nothing_released; [apply reconcile_positions_steps; apply _ | intros _].
  apply reconcile_orders_steps; apply _.
Qed.

(** C7, as the code has it. For a broker position whose symbol no local
    position has, the loop body appends one position. It is built with
    profit 0, margin 0 and the entry price as current price, and
    [update_pnl] is applied to it at once with the last value of its
    subscription: it keeps those figures only when there is no last value
    yet, or a NaN; a number becomes its current price. *)
Theorem refresh_position_creates (ib_position : IBPosition) (w w' : World) (s : string) :
  canonical_symbol (ip_contract ib_position) ∉ local_symbols w ->
  refresh_position app utcnow now ib_position w = (Ok s, w') ->
  exists qty,
    int_of_float (ip_position ib_position) = Ok qty
    /\ let last_value :=
         get_last_value
           (subscription app (w_queries w) (ContractQuery (ip_contract ib_position) DAY)) in
       let created :=
         Position_init (w_next_oid w) utcnow (canonical_symbol (ip_contract ib_position))
           qty (ip_avgCost ib_position) (cost_basis ib_position) in
       a_positions (w_account w')
       = a_positions (w_account w) ++ [update_pnl utcnow last_value created]
       /\ p_profit created = 0%float
       /\ p_profit_margin created = 0%float
       /\ p_current_price created = p_price created
       /\ (last_value = None
           \/ (exists f, last_value = Some f /\ PrimFloat.is_nan f = true) ->
           update_pnl utcnow last_value created = created)
       /\ (forall f, last_value = Some f -> PrimFloat.is_nan f = false ->
           p_current_price (update_pnl utcnow last_value created) = f).
Proof.
  intros Hnew Hrun.
  assert (Hfind : list_find
                    (fun position => p_symbol position
                                     = canonical_symbol (ip_contract ib_position))
                    (a_positions (w_account w)) = None).
  { apply list_find_None, Forall_forall. intros p Hin Hp. apply Hnew.
    rewrite <- Hp. unfold local_symbols. now apply list_elem_of_fmap_2. }
  destruct (refresh_position_new _ _ _ _ Hfind Hrun) as (-> & qty & Hqty & Hps).
  exists qty. split; [assumption |]. cbv zeta.
  split; [assumption |]. repeat split.
  - intros [Hlast | (f & Hlast & Hnan)]; rewrite Hlast; unfold update_pnl;
      [reflexivity | now rewrite Hnan].
  - intros f -> Hnan. unfold update_pnl. now rewrite Hnan.
Qed.

End Refresh.

(** *** The scenarios of the tests, run *)

(** A refresh against the wrong account. *)
Lemma refresh_account_mismatch_witness :
  let w := World_set_account (mkAccount "other" 1%float 2%float 3%float 4 0 0
                                [sample_position] []) sample_world in
  refresh_account (rt := sample_runtime) sample_app 10 10 w = (Raise ValueError, w).
Proof.
  apply (refresh_account_mismatch (rt := sample_runtime) sample_app 10 10
           (World_set_account (mkAccount "other" 1%float 2%float 3%float 4 0 0
                                 [sample_position] []) sample_world)
           "prime").
  - reflexivity.
  - discriminate.
Defined.

(** A refresh against a summary without available funds and day trades. *)
Lemma refresh_account_absent_tag_zero_witness :
  let account' := w_account (snd (refresh_account (rt := sample_runtime)
                                    partial_summary_app 10 10 sample_world)) in
  (tag_absent partial_summary_app "prime" "NetLiquidation" ->
   a_total_value account' = 0%float)
  /\ (tag_absent partial_summary_app "prime" "TotalCashValue" ->
      a_cash_value account' = 0%float)
  /\ (tag_absent partial_summary_app "prime" "AvailableFunds" ->
      a_available_funds account' = 0%float)
  /\ (tag_absent partial_summary_app "prime" "DayTradesRemaining" ->
      a_day_trades_remaining account' = 0).
Proof.
  apply (refresh_account_absent_tag_zero (rt := sample_runtime) partial_summary_app 10 10
           sample_world (mkSummary 1000.25%float 0%float 3000.5%float 0)).
  - reflexivity.
  - reflexivity.
Defined.

(** And what that refresh leaves: the two figures with a row, and zero for
    the two without, where the account had 1000 and 3. *)
Example refresh_account_partial_summary :
  let a := w_account (snd (refresh_account (rt := sample_runtime) partial_summary_app
                             10 10 sample_world)) in
  a_total_value a = 3000.5%float /\ a_cash_value a = 1000.25%float
  /\ a_available_funds a = 0%float /\ a_day_trades_remaining a = 0.
Proof. vm_compute. repeat split; reflexivity. Qed.

(** The first refresh of the tests' account: the broker holds FB, 3 shares
    at 301, and the subscription's last bar is at 20. The new position
    starts at current price 20 and profit -843, not at 301 and 0. *)
Lemma refresh_account_new_position_pnl :
  let w' := snd (refresh_account (rt := sample_runtime) sample_app 10 10 sample_world) in
  local_symbols sample_world = []
  /\ broker_symbols (rt := sample_runtime) sample_app "prime" = ["FB"]
  /\ exists p,
       a_positions (w_account w') = [p]
       /\ p_symbol p = "FB"
       /\ p_price p = 301%float
       /\ p_current_price p = 20%float
       /\ p_profit p = (-843)%float
       /\ PrimFloat.eqb (p_profit p) 0%float = false
       /\ PrimFloat.eqb (p_current_price p) (p_price p) = false.
Proof.
  vm_compute. repeat split. eexists. repeat split.
Qed.

Lemma refresh_position_creates_witness :
  let ib_position := mkIBPosition fb_contract 301%float 3%float in
  let w' := snd (refresh_position (rt := sample_runtime) sample_app 10 10 ib_position
                   sample_world) in
  exists qty,
    int_of_float (ip_position ib_position) = Ok qty
    /\ let last_value :=
         get_last_value
           (subscription sample_app (w_queries sample_world)
              (ContractQuery (ip_contract ib_position) DAY)) in
       let created :=
         Position_init (w_next_oid sample_world) 10
           (canonical_symbol (rt := sample_runtime) (ip_contract ib_position))
           qty (ip_avgCost ib_position) (cost_basis ib_position) in
       a_positions (w_account w')
       = a_positions (w_account sample_world) ++ [update_pnl 10 last_value created]
       /\ p_profit created = 0%float
       /\ p_profit_margin created = 0%float
       /\ p_current_price created = p_price created
       /\ (last_value = None
           \/ (exists f, last_value = Some f /\ PrimFloat.is_nan f = true) ->
           update_pnl 10 last_value created = created)
       /\ (forall f, last_value = Some f -> PrimFloat.is_nan f = false ->
           p_current_price (update_pnl 10 last_value created) = f).
Proof.
  apply (refresh_position_creates (rt := sample_runtime) sample_app 10 10
           (mkIBPosition fb_contract 301%float 3%float) sample_world
           (snd (refresh_position (rt := sample_runtime) sample_app 10 10
                   (mkIBPosition fb_contract 301%float 3%float) sample_world))
           "FB").
  - apply not_elem_of_nil.
  - vm_compute. reflexivity.
Defined.

(** A refresh that meets a trade for the first time files one order for
    it, and the next refresh updates that order instead of filing
    another. *)
Example refresh_account_order_once :
  let w1 := snd (refresh_account (rt := sample_runtime) sample_app_trading 10 10
                   sample_world) in
  let w2 := snd (refresh_account (rt := sample_runtime) sample_app_trading 20 20 w1) in
  (fun o => (o_ib_id o, o_status o, o_qty o, o_avg_price o, o_completed_at o))
    <$> a_orders (w_account w1)
  = [(77, OK, 10%float, 101%float, Some 20)]
  /\ List.length (a_orders (w_account w2)) = 1%nat
  /\ local_symbols w2 = ["FB"]
  /\ List.length (w_queries w2) = 1%nat.
Proof. vm_compute. repeat split; reflexivity. Qed.

(** C1, at the tests' account over two refreshes. The first finds FB at the
    broker and opens its subscription. The second finds the position
    closed: it returns, the local position is gone, and its subscription
    is still in the cache, with no cancellation sent
    ([refresh_account_nothing_released] shows that no refresh ever
    releases one). The symbols themselves agree with the broker's after
    both ([refresh_account_symbols]). *)
Theorem refresh_account_keeps_stale_subscription :
  let r1 := refresh_account (rt := sample_runtime) sample_app 10 10 sample_world in
  let r2 := refresh_account (rt := sample_runtime) sample_app_flat 20 20 (snd r1) in
  fst r1 = Ok tt
  /\ local_symbols (snd r1) = ["FB"]
  /\ w_queries (snd r1) = [subscription sample_app [] (ContractQuery fb_contract DAY)]
  /\ fst r2 = Ok tt
  /\ local_symbols (snd r2) = []
  /\ w_queries (snd r2) = w_queries (snd r1)
  /\ cancellations (w_calls (snd r2)) = [].
Proof.
  vm_compute. repeat split; reflexivity.
Qed.

(** ** Further properties of the code *)

(** *** The subscription cache *)

Lemma float_repr_eqb_refl (a : float) : float_repr_eqb a a = true.
Proof.
  unfold float_repr_eqb. destruct (float_printed a); [| reflexivity].
  now apply FloatAxioms.Leibniz.eqb_spec.
Qed.

Lemma leibniz_eqb_sym (a b : float) : PrimFloat.Leibniz.eqb a b = PrimFloat.Leibniz.eqb b a.
Proof.
  destruct (PrimFloat.Leibniz.eqb a b) eqn:Hab, (PrimFloat.Leibniz.eqb b a) eqn:Hba;
    try reflexivity.
  - apply FloatAxioms.Leibniz.eqb_spec in Hab. subst b.
    rewrite (proj2 (FloatAxioms.Leibniz.eqb_spec a a) eq_refl) in Hba. discriminate.
  - apply FloatAxioms.Leibniz.eqb_spec in Hba. subst b.
    rewrite (proj2 (FloatAxioms.Leibniz.eqb_spec a a) eq_refl) in Hab. discriminate.
Qed.

Lemma repr_eqb_refl (c : Contract) : repr_eqb c c = true.
Proof.
  unfold repr_eqb.
  rewrite !String.eqb_refl, Z.eqb_refl, float_repr_eqb_refl.
  now destruct (String.eqb (c_class c) "Contract").
Qed.

Lemma float_repr_eqb_sym (a b : float) : float_repr_eqb a b = float_repr_eqb b a.
Proof.
  unfold float_repr_eqb.
  destruct (float_printed a), (float_printed b); try reflexivity.
  apply leibniz_eqb_sym.
Qed.

Lemma repr_eqb_sym (c1 c2 : Contract) : repr_eqb c1 c2 = repr_eqb c2 c1.
Proof.
  unfold repr_eqb.
  rewrite (String.eqb_sym (c_secType c1)), (Z.eqb_sym (c_conId c1)),
    (String.eqb_sym (c_symbol c1)), (String.eqb_sym (c_lastTradeDateOrContractMonth c1)),
    (float_repr_eqb_sym (c_strike c1)), (String.eqb_sym (c_right c1)),
    (String.eqb_sym (c_exchange c1)), (String.eqb_sym (c_currency c1)).
  destruct (String.eqb_spec (c_class c1) (c_class c2)) as [-> | Hne].
  - now rewrite String.eqb_refl.
  - assert (Hne' : String.eqb (c_class c2) (c_class c1) = false)
      by (apply String.eqb_neq; congruence).
    now rewrite Hne'.
Qed.

Lemma same_query_sym (q1 q2 : Query) : same_query q1 q2 = same_query q2 q1.
Proof.
  unfold same_query. rewrite repr_eqb_sym. f_equal.
  now destruct (q_duration q1), (q_duration q2).
Qed.

(** Whether two queries answer to the same key depends on their contracts
    and durations only. *)
Lemma same_query_key (t q q' : Query) :
  q_contract q' = q_contract q -> q_duration q' = q_duration q ->
  same_query t q' = same_query t q.
Proof. unfold same_query. now intros -> ->. Qed.

Lemma find_query_cons (t : Query) (queries : list Query) (query : Query) :
  find_query (t :: queries) query
  = if same_query t query then Some t else find_query queries query.
Proof.
  unfold find_query. rewrite filter_cons.
  now destruct (same_query t query).
Qed.

Lemma find_query_None (queries : list Query) (query : Query) :
  find_query queries query = None <->
  Forall (fun t => same_query t query = false) queries.
Proof.
  induction queries as [| t queries IH].
  - split; [constructor | reflexivity].
  - rewrite find_query_cons, Forall_cons.
    destruct (same_query t query); [split; [discriminate | intros [[=] _]] |].
    rewrite IH. tauto.
Qed.

Lemma find_query_snoc (queries : list Query) (t query : Query) :
  find_query (queries ++ [t]) query
  = match find_query queries query with
    | Some c => Some c
    | None => if same_query t query then Some t else None
    end.
Proof.
  induction queries as [| u queries IH]; simpl.
  - now rewrite find_query_cons.
  - rewrite !find_query_cons. now destruct (same_query u query).
Qed.

(** X1. [find_query] answers with the first cached subscription of the
    same contract repr and duration, and with [None] exactly when the
    cache holds none. *)
Theorem find_query_first (queries : list Query) (query : Query) :
  match find_query queries query with
  | Some c =>
      exists l1 l2,
        queries = l1 ++ c :: l2
        /\ same_query c query = true
        /\ Forall (fun t => same_query t query = false) l1
  | None => Forall (fun t => same_query t query = false) queries
  end.
Proof.
  induction queries as [| t queries IH].
  - constructor.
  - rewrite find_query_cons. destruct (same_query t query) eqn:Ht.
    + exists [], queries. repeat split; [assumption | constructor].
    + destruct (find_query queries query) as [c |].
      * destruct IH as (l1 & l2 & -> & Hc & Hl1).
        exists (t :: l1), l2. repeat split; [assumption | now constructor].
      * now constructor.
Qed.

(** The key is the printed contract: a [Contract] with the fields of a
    [Stock] prints under another class name and is no match, while a NaN
    strike is printed no more than the default one and is a match. *)
Example find_query_printed_contract :
  let plain :=
    mkQuery "SPY" DAY (mkContract "Contract" "STK" 0 "SPY" "" 0%float "" "SMART" "USD") [] in
  let no_strike :=
    mkQuery "SPY" DAY (mkContract "Stock" "STK" 0 "SPY" "" nan "" "SMART" "USD") [] in
  find_query [plain] (StockQuery "SPY" DAY) = None
  /\ find_query [plain; no_strike] (StockQuery "SPY" DAY) = Some no_strike.
Proof. split; reflexivity. Qed.

(** A cache hit returns the cached subscription and changes nothing. *)
Lemma add_query_hit (app : IB) (query c : Query) (w : World) :
  find_query (w_queries w) query = Some c ->
  add_query app query w = (Ok c, w).
Proof. intros Hfind. unfold add_query, bind, gets. now rewrite Hfind. Qed.

(** What [add_query] returns for a query whose contract names an exchange
    is afterwards the cache's answer for that query. *)
Lemma add_query_caches (app : IB) (query : Query) (w : World) :
  c_exchange (q_contract query) <> "" ->
  exists sub,
    fst (add_query app query w) = Ok sub
    /\ find_query (w_queries (snd (add_query app query w))) query = Some sub.
Proof.
  intros Hex. apply String.eqb_neq in Hex.
  unfold add_query, bind, gets, call, modify, ret. cbv beta iota zeta.
  destruct (find_query (w_queries w) query) as [c |] eqn:Hfind; simpl.
  - eauto.
  - rewrite Hex. eexists. split; [reflexivity |].
    rewrite find_query_snoc, Hfind.
    unfold same_query. simpl. rewrite repr_eqb_refl. now destruct (q_duration query).
Qed.

(** X2. Asking again for a subscription sends nothing and changes
    nothing. For a query whose contract names an exchange, a second
    [add_query], whatever the broker would answer by then, returns the
    subscription the first one returned and leaves the state of the
    first. *)
Theorem add_query_idempotent (app app' : IB) (query : Query) (w : World) :
  c_exchange (q_contract query) <> "" ->
  add_query app' query (snd (add_query app query w))
  = (fst (add_query app query w), snd (add_query app query w)).
Proof.
  intros Hex. destruct (add_query_caches app query w Hex) as (sub & Hfst & Hfind).
  rewrite Hfst. now apply add_query_hit.
Qed.

Lemma add_query_idempotent_witness :
  add_query sample_app_flat (IndexQuery "VIX" DAY)
    (snd (add_query sample_app (IndexQuery "VIX" DAY) sample_world))
  = (fst (add_query sample_app (IndexQuery "VIX" DAY) sample_world),
     snd (add_query sample_app (IndexQuery "VIX" DAY) sample_world)).
Proof.
  apply (add_query_idempotent sample_app sample_app_flat (IndexQuery "VIX" DAY) sample_world).
  discriminate.
Defined.

Lemma distinct_keys_snoc (queries : list Query) (t : Query) :
  distinct_keys queries ->
  Forall (fun u => same_query u t = false) queries ->
  distinct_keys (queries ++ [t]).
Proof.
  intros Hd Hnew i j qi qj Hi Hj Hsame.
  apply lookup_snoc_Some in Hi as [[Hi_lt Hi] | [-> <-]];
    apply lookup_snoc_Some in Hj as [[Hj_lt Hj] | [-> <-]].
  - eapply Hd; eassumption.
  - rewrite Forall_forall in Hnew. apply list_elem_of_lookup_2 in Hi.
    rewrite (Hnew _ Hi) in Hsame. discriminate.
  - rewrite Forall_forall in Hnew. apply list_elem_of_lookup_2 in Hj.
    rewrite same_query_sym, (Hnew _ Hj) in Hsame. discriminate.
  - reflexivity.
Qed.

(** X3. For a query whose contract names an exchange, [add_query] keeps
    the cache at one subscription per key: if no two cached subscriptions
    answered to the same contract repr and duration before, none do
    after. *)
Theorem add_query_distinct_keys (app : IB) (query : Query) (w : World) :
  c_exchange (q_contract query) <> "" ->
  distinct_keys (w_queries w) ->
  distinct_keys (w_queries (snd (add_query app query w))).
Proof.
  intros Hex Hd. apply String.eqb_neq in Hex.
  unfold add_query, bind, gets, call, modify, ret. cbv beta iota zeta.
  destruct (find_query (w_queries w) query) as [c |] eqn:Hfind; simpl; [assumption |].
  rewrite Hex. apply distinct_keys_snoc; [assumption |].
  apply find_query_None in Hfind.
  eapply Forall_impl; [exact Hfind |]. intros u Hu. simpl in Hu.
  now rewrite (same_query_key u query).
Qed.

Lemma add_query_distinct_keys_witness :
  distinct_keys
    (w_queries (snd (add_query sample_app (IndexQuery "VIX" DAY)
                       (snd (add_query sample_app (IndexQuery "SPX" DAY) sample_world))))).
Proof.
  apply (add_query_distinct_keys sample_app (IndexQuery "VIX" DAY)
           (snd (add_query sample_app (IndexQuery "SPX" DAY) sample_world))).
  - discriminate.
  - intros i j qi qj Hi Hj _.
    destruct i as [| i]; [| destruct i; discriminate].
    destruct j as [| j]; [reflexivity | destruct j; discriminate].
Defined.

(** A contract without an exchange is cached under SMART but looked up
    without it, so the same query asked twice is subscribed twice. *)
Example add_query_no_exchange_twice :
  let query := ContractQuery (mkContract "Contract" "STK" 107113386 "FB" "" 0%float "" "" "USD") DAY in
  let w2 := snd (add_query sample_app query (snd (add_query sample_app query sample_world))) in
  List.length (w_queries w2) = 2%nat /\ ~ distinct_keys (w_queries w2).
Proof.
  split; [reflexivity |]. intros Hd.
  specialize (Hd 0%nat 1%nat _ _ eq_refl eq_refl eq_refl). discriminate.
Qed.

Lemma forM_cancel_all (queries : list Query) (w : World) :
  forM_ queries (fun query => call (CallCancelHistoricalData (q_ib_bars query))) w
  = (Ok tt,
     World_set_calls
       (w_calls w ++ ((fun query => CallCancelHistoricalData (q_ib_bars query)) <$> queries))
       w).
Proof.
  revert w. induction queries as [| q queries IH]; intros w; simpl.
  - unfold ret. rewrite app_nil_r. now destruct w.
  - unfold bind, call at 1, modify. rewrite IH. simpl.
    now rewrite <- app_assoc.
Qed.

(** X4. [remove_all] cancels every cached subscription, each once and in
    cache order, empties the cache, and touches nothing else. *)
Theorem remove_all_cancels_each (w : World) :
  remove_all w
  = (Ok tt,
     World_set_queries []
       (World_set_calls
          (w_calls w
           ++ ((fun query => CallCancelHistoricalData (q_ib_bars query)) <$> w_queries w))
          w)).
Proof.
  unfold remove_all, bind, gets. rewrite forM_cancel_all. reflexivity.
Qed.

(** X5. [resample] returns, when it returns, as many values as the
    smaller of the series length and the target length, and none for a
    target length of zero or below. *)
Theorem resample_count (values out : list float) (length : Z) :
  resample values length = Ok out ->
  Z.of_nat (List.length out) = Z.min (Z.of_nat (List.length values)) (Z.max 0 length).
Proof.
  unfold resample.
  destruct (Z.leb_spec (Z.of_nat (List.length values)) length) as [Hle | Hlt].
  - intros [= <-]. lia.
  - intros Hout. apply rmapM_length in Hout. rewrite Hout.
    unfold py_range. rewrite length_map, length_seq. lia.
Qed.

Lemma resample_count_witness :
  Z.of_nat (List.length [1.5%float; 3.5%float])
  = Z.min (Z.of_nat (List.length [1%float; 2%float; 3%float; 4%float])) (Z.max 0 2).
Proof.
  apply (resample_count [1%float; 2%float; 3%float; 4%float] [1.5%float; 3.5%float] 2).
  vm_compute. reflexivity.
Defined.

(** *** The chart data on file for a position *)

Lemma find_index_from_bound (l : list (nat * ChartData)) (oid : nat) (i : Z) :
  find_index_from l oid i = -1 \/ i <= find_index_from l oid i.
Proof.
  revert i. induction l as [| val l IH]; intros i; simpl; [now left |].
  destruct (Nat.eqb (fst val) oid); [right; lia |].
  destruct (IH (i + 1)); [now left | right; lia].
Qed.

Lemma find_index_from_lookup (l : list (nat * ChartData)) (oid : nat) (i : Z) :
  0 <= i ->
  (if 0 <=? find_index_from l oid i
   then snd <$> l !! Z.to_nat (find_index_from l oid i - i)
   else None)
  = chart_data_of l oid.
Proof.
  revert i. induction l as [| val l IH]; intros i Hi; simpl.
  - reflexivity.
  - destruct (Nat.eqb (fst val) oid).
    + destruct (Z.leb_spec 0 i); [| lia]. now rewrite Z.sub_diag.
    + rewrite <- (IH (i + 1)) by lia.
      destruct (find_index_from_bound l oid (i + 1)) as [-> | Hge]; [reflexivity |].
      destruct (Z.leb_spec 0 (find_index_from l oid (i + 1))); [| lia].
      replace (Z.to_nat (find_index_from l oid (i + 1) - i))
        with (S (Z.to_nat (find_index_from l oid (i + 1) - (i + 1)))) by lia.
      reflexivity.
Qed.

Lemma find_index_from_store (l : list (nat * ChartData)) (oid : nat) (c : ChartData) (i : Z) :
  0 <= i ->
  (if 0 <=? find_index_from l oid i
   then <[Z.to_nat (find_index_from l oid i - i) := (oid, c)]> l
   else l ++ [(oid, c)])
  = store_list l oid c.
Proof.
  revert i. induction l as [| val l IH]; intros i Hi; simpl.
  - reflexivity.
  - destruct (Nat.eqb (fst val) oid).
    + destruct (Z.leb_spec 0 i); [| lia]. now rewrite Z.sub_diag.
    + rewrite <- (IH (i + 1)) by lia.
      destruct (find_index_from_bound l oid (i + 1)) as [-> | Hge]; [reflexivity |].
      destruct (Z.leb_spec 0 (find_index_from l oid (i + 1))); [| lia].
      replace (Z.to_nat (find_index_from l oid (i + 1) - i))
        with (S (Z.to_nat (find_index_from l oid (i + 1) - (i + 1)))) by lia.
      reflexivity.
Qed.

Lemma find_index_from_clear (l : list (nat * ChartData)) (oid : nat) (i : Z) :
  0 <= i ->
  (if 0 <=? find_index_from l oid i
   then delete (Z.to_nat (find_index_from l oid i - i)) l
   else l)
  = clear_list l oid.
Proof.
  revert i. induction l as [| val l IH]; intros i Hi; simpl.
  - reflexivity.
  - destruct (Nat.eqb (fst val) oid).
    + destruct (Z.leb_spec 0 i); [| lia]. now rewrite Z.sub_diag.
    + rewrite <- (IH (i + 1)) by lia.
      destruct (find_index_from_bound l oid (i + 1)) as [-> | Hge]; [reflexivity |].
      destruct (Z.leb_spec 0 (find_index_from l oid (i + 1))); [| lia].
      replace (Z.to_nat (find_index_from l oid (i + 1) - i))
        with (S (Z.to_nat (find_index_from l oid (i + 1) - (i + 1)))) by lia.
      reflexivity.
Qed.

(** The three operations, run. *)
Lemma get_position_chart_data_run (position : Position) (w : World) :
  get_position_chart_data position w
  = (Ok (chart_data_of (w_position_chart_data w) (p_oid position)), w).
Proof.
  unfold get_position_chart_data, find_position_chart_data_index, bind, gets, ret. simpl.
  rewrite <- (find_index_from_lookup _ _ 0) by lia. rewrite Z.sub_0_r.
  now destruct (0 <=? _).
Qed.

Lemma store_position_chart_data_run (position : Position) (c : ChartData) (w : World) :
  store_position_chart_data position c w
  = (Ok tt,
     World_set_position_chart_data
       (store_list (w_position_chart_data w) (p_oid position) c) w).
Proof.
  unfold store_position_chart_data, find_position_chart_data_index, bind, gets, ret, modify.
  simpl. rewrite <- (find_index_from_store _ _ _ 0) by lia. rewrite Z.sub_0_r.
  now destruct (0 <=? _).
Qed.

Lemma clear_position_chart_data_run (position : Position) (w : World) :
  clear_position_chart_data position w
  = (Ok tt,
     World_set_position_chart_data
       (clear_list (w_position_chart_data w) (p_oid position)) w).
Proof.
  unfold clear_position_chart_data, find_position_chart_data_index, bind, gets, ret, modify.
  simpl. rewrite <- (find_index_from_clear _ _ 0) by lia. rewrite Z.sub_0_r.
  destruct (0 <=? _); [reflexivity |]. now destruct w.
Qed.

Lemma chart_data_of_store (l : list (nat * ChartData)) (oid : nat) (c : ChartData) :
  chart_data_of (store_list l oid c) oid = Some c.
Proof.
  induction l as [| val l IH]; simpl.
  - now rewrite Nat.eqb_refl.
  - destruct (Nat.eqb (fst val) oid) eqn:Heq; simpl.
    + now rewrite Nat.eqb_refl.
    + now rewrite Heq.
Qed.

Lemma chart_data_of_store_other (l : list (nat * ChartData)) (oid oid' : nat)
    (c : ChartData) :
  oid' <> oid -> chart_data_of (store_list l oid c) oid' = chart_data_of l oid'.
Proof.
  intros Hne. induction l as [| val l IH]; simpl.
  - now rewrite (proj2 (Nat.eqb_neq oid oid')) by congruence.
  - destruct (Nat.eqb_spec (fst val) oid) as [Heq | Hneq]; simpl.
    + rewrite (proj2 (Nat.eqb_neq oid oid')) by congruence.
      now rewrite (proj2 (Nat.eqb_neq (fst val) oid')) by congruence.
    + now rewrite IH.
Qed.

Lemma chart_data_of_clear_other (l : list (nat * ChartData)) (oid oid' : nat) :
  oid' <> oid -> chart_data_of (clear_list l oid) oid' = chart_data_of l oid'.
Proof.
  intros Hne. induction l as [| val l IH]; simpl; [reflexivity |].
  destruct (Nat.eqb_spec (fst val) oid) as [Heq | Hneq]; simpl.
  - now rewrite (proj2 (Nat.eqb_neq (fst val) oid')) by congruence.
  - now rewrite IH.
Qed.

Lemma chart_data_of_None (l : list (nat * ChartData)) (oid : nat) :
  oid ∉ fst <$> l -> chart_data_of l oid = None.
Proof.
  induction l as [| val l IH]; simpl; [reflexivity |].
  rewrite not_elem_of_cons. intros [Hne Hnin].
  rewrite (proj2 (Nat.eqb_neq (fst val) oid)) by congruence. apply IH, Hnin.
Qed.

Lemma chart_data_of_clear (l : list (nat * ChartData)) (oid : nat) :
  NoDup (fst <$> l) -> chart_data_of (clear_list l oid) oid = None.
Proof.
  induction l as [| val l IH]; simpl; [reflexivity |].
  rewrite NoDup_cons. intros [Hnin Hnd].
  destruct (Nat.eqb_spec (fst val) oid) as [Heq | Hneq]; simpl.
  - apply chart_data_of_None. now rewrite <- Heq.
  - rewrite (proj2 (Nat.eqb_neq (fst val) oid)) by assumption. now apply IH.
Qed.

Lemma store_list_oids (l : list (nat * ChartData)) (oid : nat) (c : ChartData) :
  fst <$> store_list l oid c
  = if decide (oid ∈ fst <$> l) then fst <$> l else (fst <$> l) ++ [oid].
Proof.
  induction l as [| val l IH].
  - reflexivity.
  - cbn [store_list]. rewrite fmap_cons.
    destruct (Nat.eqb_spec (fst val) oid) as [Heq | Hneq].
    + rewrite decide_True by (rewrite Heq; apply list_elem_of_here).
      rewrite fmap_cons. simpl. now rewrite Heq.
    + rewrite fmap_cons, IH. destruct (decide (oid ∈ fst <$> l)) as [Hin | Hnin].
      * now rewrite decide_True by (now apply list_elem_of_further).
      * rewrite decide_False; [reflexivity |].
        rewrite not_elem_of_cons. split; [congruence | assumption].
Qed.

Lemma clear_list_sublist (l : list (nat * ChartData)) (oid : nat) :
  clear_list l oid `sublist_of` l.
Proof.
  induction l as [| val l IH]; simpl; [reflexivity |].
  destruct (Nat.eqb (fst val) oid).
  - now apply sublist_cons.
  - now apply sublist_skip.
Qed.

(** X6. The chart data stored for a position is what is read back for
    it: the entry is replaced when the position has one and added when
    it has none. *)
Theorem store_then_get_chart_data (position : Position) (c : ChartData) (w : World) :
  fst (get_position_chart_data position
         (snd (store_position_chart_data position c w)))
  = Ok (Some c).
Proof.
  rewrite store_position_chart_data_run, get_position_chart_data_run. simpl.
  now rewrite chart_data_of_store.
Qed.

(** X7. Storing or clearing the chart data of one position leaves what is
    read for every other position as it was. *)
Theorem chart_data_of_others_kept (position other : Position) (c : ChartData) (w : World) :
  p_oid other <> p_oid position ->
  fst (get_position_chart_data other (snd (store_position_chart_data position c w)))
  = fst (get_position_chart_data other w)
  /\ fst (get_position_chart_data other (snd (clear_position_chart_data position w)))
     = fst (get_position_chart_data other w).
Proof.
  intros Hne.
  rewrite store_position_chart_data_run, clear_position_chart_data_run,
    !get_position_chart_data_run. simpl.
  now rewrite chart_data_of_store_other, chart_data_of_clear_other.
Qed.

(** X8. The file keeps one entry per position: storing and clearing keep
    the entries' positions distinct, and then nothing is read for a
    position after its chart data was cleared. *)
Theorem clear_then_get_chart_data (position : Position) (c : ChartData) (w : World) :
  NoDup (fst <$> w_position_chart_data w) ->
  NoDup (fst <$> w_position_chart_data (snd (store_position_chart_data position c w)))
  /\ NoDup (fst <$> w_position_chart_data (snd (clear_position_chart_data position w)))
  /\ fst (get_position_chart_data position (snd (clear_position_chart_data position w)))
     = Ok None.
Proof.
  intros Hnd.
  rewrite store_position_chart_data_run, clear_position_chart_data_run,
    get_position_chart_data_run. simpl. repeat split.
  - rewrite store_list_oids. destruct (decide _) as [Hin | Hnin]; [assumption |].
    apply NoDup_app. split; [assumption |]. split; [| apply NoDup_singleton].
    intros x Hx ->%list_elem_of_singleton. contradiction.
  - eapply sublist_NoDup; [exact Hnd |]. apply fmap_sublist, clear_list_sublist.
  - now rewrite chart_data_of_clear.
Qed.

Lemma chart_data_of_others_kept_witness :
  let position := sample_position in
  let other := Position_init 1 0 "GOOGL" 2 200%float 400%float in
  let c := mkChartData [20%float] 5 6 in
  fst (get_position_chart_data other
         (snd (store_position_chart_data position c sample_world)))
  = fst (get_position_chart_data other sample_world)
  /\ fst (get_position_chart_data other
            (snd (clear_position_chart_data position sample_world)))
     = fst (get_position_chart_data other sample_world).
Proof.
  apply (chart_data_of_others_kept sample_position
           (Position_init 1 0 "GOOGL" 2 200%float 400%float)
           (mkChartData [20%float] 5 6) sample_world).
  simpl. lia.
Defined.

Lemma clear_then_get_chart_data_witness :
  let c := mkChartData [20%float] 5 6 in
  let w := snd (store_position_chart_data sample_position c sample_world) in
  NoDup (fst <$> w_position_chart_data (snd (store_position_chart_data sample_position c w)))
  /\ NoDup (fst <$> w_position_chart_data (snd (clear_position_chart_data sample_position w)))
  /\ fst (get_position_chart_data sample_position
            (snd (clear_position_chart_data sample_position w)))
     = Ok None.
Proof.
  apply (clear_then_get_chart_data sample_position (mkChartData [20%float] 5 6)
           (snd (store_position_chart_data sample_position (mkChartData [20%float] 5 6)
                   sample_world))).
  simpl. apply NoDup_singleton.
Defined.

(** *** The broker's account code *)

Lemma filter_first {A} (P : A -> Prop) `{!forall x, Decision (P x)} (l : list A) :
  match filter P l with
  | x :: _ => exists l1 l2, l = l1 ++ x :: l2 /\ P x /\ Forall (fun y => ~ P y) l1
  | [] => Forall (fun y => ~ P y) l
  end.
Proof.
  induction l as [| y l IH].
  - constructor.
  - rewrite filter_cons. destruct (decide (P y)) as [Hy | Hy].
    + exists [], l. repeat split; [assumption | constructor].
    + destruct (filter P l) as [| x k].
      * now constructor.
      * destruct IH as (l1 & l2 & -> & Hx & Hl1).
        exists (y :: l1), l2. repeat split; [assumption | now constructor].
Qed.

(** X9. [get_account_code] answers with the account of the first summary
    row that is not for [all], raises its selection error exactly when
    every row is for [all] (an empty summary too), and changes no
    state. *)
Theorem get_account_code_first (app : IB) (w : World) :
  snd (get_account_code app w) = w
  /\ match fst (get_account_code app w) with
     | Ok code =>
         code <> "all"
         /\ exists l1 acs l2,
              accountSummary app = l1 ++ acs :: l2
              /\ av_account acs = code
              /\ Forall (fun row => av_account row = "all") l1
     | Raise e =>
         e = IBAccountSelectionError
         /\ Forall (fun row => av_account row = "all") (accountSummary app)
     end.
Proof.
  unfold get_account_code.
  pose proof (filter_first (fun acs => av_account acs <> "all") (accountSummary app)) as H.
  destruct (filter _ (accountSummary app)) as [| acs k]; simpl.
  - split; [reflexivity |]. split; [reflexivity |].
    eapply Forall_impl; [exact H |]. intros row Hrow.
    now destruct (decide (av_account row = "all")).
  - destruct H as (l1 & l2 & Heq & Hacs & Hl1).
    split; [reflexivity |]. split; [assumption |].
    exists l1, acs, l2. repeat split; [assumption |].
    eapply Forall_impl; [exact Hl1 |]. intros row Hrow.
    now destruct (decide (av_account row = "all")).
Qed.

(** *** The contract cache *)

(** What one resolution leaves: the contract it answers with is cached
    under the symbol, the cache is otherwise as it was, and apart from the
    cache and the trace the state is untouched. *)
Lemma create_contract_at_cache (app : IB) (depth : nat) (symbol exchange : string)
    (w : World) :
  let r := create_contract_at app depth symbol exchange w in
  (forall c, fst r = Ok (Some c) -> w_contracts (snd r) !! symbol = Some c)
  /\ (w_contracts (snd r) = w_contracts w
      \/ exists c, fst r = Ok (Some c)
                   /\ w_contracts (snd r) = <[symbol := c]> (w_contracts w))
  /\ w_queries (snd r) = w_queries w
  /\ w_position_chart_data (snd r) = w_position_chart_data w
  /\ w_next_oid (snd r) = w_next_oid w
  /\ w_account (snd r) = w_account w.
Proof.
  revert exchange w. induction depth as [| depth IH]; intros exchange w.
  - simpl. repeat split; [discriminate | now left].
  - cbn [create_contract_at]. unfold bind, gets, call, modify, ret. cbv beta iota zeta.
    destruct (w_contracts w !! symbol) as [c |] eqn:Hlook.
    { simpl. repeat split; [now intros c' [= <-] | now left]. }
    set (w1 := World_set_calls _ w).
    destruct (List.length _ =? 1)%nat.
    { simpl. repeat split.
      - intros c [= <-]. apply lookup_insert_eq.
      - right. eauto. }
    destruct (1 <? List.length _)%nat.
    + destruct (String.eqb exchange "SMART"); [apply (IH "ISLAND" w1) |].
      simpl. repeat split; [discriminate | now left].
    + destruct (String.eqb exchange "ISLAND"); [apply (IH "NYSE" w1) |].
      simpl. repeat split; [discriminate | now left].
Qed.

(** X10. Resolution is memoized. Once [create_contract] has answered a
    symbol with a contract, every later call for that symbol, at whatever
    venue and whatever the broker would say, answers the same contract
    without a lookup and without changing anything. *)
Theorem create_contract_memoized (app app' : IB) (symbol exchange exchange' : string)
    (w : World) (c : Contract) :
  fst (create_contract app symbol exchange w) = Ok (Some c) ->
  create_contract app' symbol exchange' (snd (create_contract app symbol exchange w))
  = (Ok (Some c), snd (create_contract app symbol exchange w)).
Proof.
  intros Hres. unfold create_contract in *.
  destruct (create_contract_at_cache app 3 symbol exchange w) as (Hcached & _).
  specialize (Hcached c Hres).
  set (w1 := snd (create_contract_at app 3 symbol exchange w)) in *.
  cbn [create_contract_at]. unfold bind at 1. unfold gets at 1.
  now rewrite Hcached.
Qed.

Lemma create_contract_memoized_witness :
  create_contract sample_app_flat "MSFT" "ISLAND"
    (snd (create_contract sample_app "MSFT" "SMART" sample_world))
  = (Ok (Some (Stock "MSFT" "NYSE" "USD")),
     snd (create_contract sample_app "MSFT" "SMART" sample_world)).
Proof.
  apply (create_contract_memoized sample_app sample_app_flat "MSFT" "SMART" "ISLAND"
           sample_world (Stock "MSFT" "NYSE" "USD")).
  reflexivity.
Defined.

(** X11. [create_contract] touches the broker trace and the cache entry
    of its own symbol, and nothing else: the subscriptions, the chart
    data and the account are as before, every other symbol's cache entry
    is as before, and an unresolved symbol leaves the whole cache as it
    was, so that it is looked up again next time. *)
Theorem create_contract_frame (app : IB) (symbol exchange : string) (w : World) :
  w_queries (snd (create_contract app symbol exchange w)) = w_queries w
  /\ w_position_chart_data (snd (create_contract app symbol exchange w))
     = w_position_chart_data w
  /\ w_account (snd (create_contract app symbol exchange w)) = w_account w
  /\ (forall other,
        other <> symbol ->
        w_contracts (snd (create_contract app symbol exchange w)) !! other
        = w_contracts w !! other)
  /\ (fst (create_contract app symbol exchange w) = Ok None ->
      w_contracts (snd (create_contract app symbol exchange w)) = w_contracts w).
Proof.
  unfold create_contract.
  destruct (create_contract_at_cache app 3 symbol exchange w)
    as (_ & Hcache & Hq & Hc & _ & Ha).
  repeat split; try assumption.
  - intros other Hne. destruct Hcache as [-> | (c & _ & ->)]; [reflexivity |].
    now apply lookup_insert_ne.
  - intros Hnone. destruct Hcache as [-> | (c & Hsome & _)]; [reflexivity |].
    rewrite Hsome in Hnone. discriminate.
Qed.

(** X12. The whole policy of a resolution that starts at SMART for a
    symbol that is not cached, by the number of candidates at the three
    venues: one at SMART resolves there; several at SMART go to ISLAND,
    where one resolves, several give up, and none goes to NYSE, which
    resolves with one candidate and gives up otherwise; none at SMART
    gives up at once. *)
Theorem create_contract_policy (app : IB) (symbol : string) (w : World) :
  w_contracts w !! symbol = None ->
  let n1 := List.length (reqContractDetails app (Stock symbol "SMART" "USD")) in
  let n2 := List.length (reqContractDetails app (Stock symbol "ISLAND" "USD")) in
  let n3 := List.length (reqContractDetails app (Stock symbol "NYSE" "USD")) in
  fst (create_contract app symbol "SMART" w)
  = Ok (if (n1 =? 1)%nat then Some (Stock symbol "SMART" "USD")
        else if (1 <? n1)%nat then
          if (n2 =? 1)%nat then Some (Stock symbol "ISLAND" "USD")
          else if (1 <? n2)%nat then None
          else if (n3 =? 1)%nat then Some (Stock symbol "NYSE" "USD")
          else None
        else None).
Proof.
  intros Hnone n1 n2 n3. subst n1 n2 n3.
  unfold create_contract. rewrite (create_contract_at_step _ _ _ _ _ Hnone).
  cbv zeta.
  destruct (List.length (reqContractDetails app (Stock symbol "SMART" "USD")) =? 1)%nat;
    [reflexivity |].
  destruct (1 <? List.length (reqContractDetails app (Stock symbol "SMART" "USD")))%nat;
    [| reflexivity].
  change (String.eqb "SMART" "SMART") with true. cbv iota.
  rewrite create_contract_at_step by exact Hnone. cbv zeta.
  destruct (List.length (reqContractDetails app (Stock symbol "ISLAND" "USD")) =? 1)%nat;
    [reflexivity |].
  destruct (1 <? List.length (reqContractDetails app (Stock symbol "ISLAND" "USD")))%nat;
    [reflexivity |].
  change (String.eqb "ISLAND" "ISLAND") with true. cbv iota.
  rewrite create_contract_at_step by exact Hnone. cbv zeta.
  destruct (List.length (reqContractDetails app (Stock symbol "NYSE" "USD")) =? 1)%nat;
    [reflexivity |].
  now destruct (1 <? List.length (reqContractDetails app (Stock symbol "NYSE" "USD")))%nat.
Qed.

Lemma create_contract_policy_witness :
  let n1 := List.length (reqContractDetails sample_app (Stock "MSFT" "SMART" "USD")) in
  let n2 := List.length (reqContractDetails sample_app (Stock "MSFT" "ISLAND" "USD")) in
  let n3 := List.length (reqContractDetails sample_app (Stock "MSFT" "NYSE" "USD")) in
  fst (create_contract sample_app "MSFT" "SMART" sample_world)
  = Ok (if (n1 =? 1)%nat then Some (Stock "MSFT" "SMART" "USD")
        else if (1 <? n1)%nat then
          if (n2 =? 1)%nat then Some (Stock "MSFT" "ISLAND" "USD")
          else if (1 <? n2)%nat then None
          else if (n3 =? 1)%nat then Some (Stock "MSFT" "NYSE" "USD")
          else None
        else None).
Proof.
  apply (create_contract_policy sample_app "MSFT" sample_world). reflexivity.
Defined.

(** *** The index values *)

(** X13. The VIX value and the VIX chart share one subscription: after
    [get_vix_value], whatever it returned, [get_vix_chart_data] sends
    nothing to the broker and changes nothing, and the value is the last
    point of that chart, an [IndexError] when the chart has no point. *)
Theorem get_vix_value_last_of_chart (app app' : IB) (now : Z) (w : World) :
  exists chart,
    get_vix_chart_data app' now (snd (get_vix_value app w))
    = (Ok chart, snd (get_vix_value app w))
    /\ fst (get_vix_value app w) = py_last_item (cd_values chart).
Proof.
  assert (Hex : c_exchange (q_contract (IndexQuery "VIX" DAY)) <> "") by discriminate.
  destruct (add_query_caches app (IndexQuery "VIX" DAY) w Hex) as (sub & Hfst & Hfind).
  unfold get_vix_value, get_vix_chart_data, bind.
  destruct (add_query app (IndexQuery "VIX" DAY) w) as [r w1] eqn:Hrun.
  simpl in Hfst, Hfind. subst r. unfold lift. simpl.
  rewrite (add_query_hit app' _ sub w1 Hfind).
  exists (get_chart_data now sub). split; reflexivity.
Qed.

(** *** What a refresh does to the orders *)

#[export] Hint Extern 2 =>
  lazymatch goal with
  | |- _ _ (World_set_account (Account_set_positions _ _) _) => apply pf_positions
  end : steps.
#[export] Hint Extern 1 (PositionsFrame _) => typeclasses eauto : steps.

Global Instance same_orders_preorder : PreOrder same_orders.
Proof. split; unfold same_orders; [intros w | intros w1 w2 w3]; congruence. Qed.

Global Instance same_orders_service : ServiceFrame same_orders.
Proof. split; [apply _ | unfold same_orders; reflexivity ..]. Qed.

Global Instance same_orders_positions : PositionsFrame same_orders.
Proof. split; [apply _ | unfold same_orders; reflexivity]. Qed.

Global Instance orders_kept_preorder : PreOrder orders_kept.
Proof.
  split; unfold orders_kept.
  - intros w. reflexivity.
  - intros w1 w2 w3 H12 H23. etransitivity; eassumption.
Qed.

Global Instance ids_stay_distinct_preorder : PreOrder ids_stay_distinct.
Proof. split; unfold ids_stay_distinct; [intros w | intros w1 w2 w3]; auto. Qed.

Lemma steps_weaken (R R' : World -> World -> Prop) {A} (m : M A) :
  (forall w w', R w w' -> R' w w') -> steps R m -> steps R' m.
Proof. intros Hsub Hm w. apply Hsub, Hm. Qed.

Section Reconciliation.

Context {rt : PyRuntime} (app : IB) (utcnow now : Z).

Lemma set_positions_keeps R `{!PositionsFrame R} (ps : list Position) :
  steps R (set_positions ps).
Proof. unfold set_positions. auto with steps. Qed.

Lemma set_position_keeps R `{!PositionsFrame R} (i : nat) (p : Position) :
  steps R (set_position i p).
Proof. unfold set_position. auto using set_positions_keeps with steps. Qed.

Lemma refresh_position_keeps R `{!PositionsFrame R} (ib_position : IBPosition) :
  steps R (refresh_position app utcnow now ib_position).
Proof.
  unfold refresh_position.
  apply (steps_bind R); [auto with steps |]. intros ps.
  destruct (list_find _ ps) as [[i position] |].
  - repeat (bind_step R; [| intros ?]);
      auto using set_position_keeps, add_query_steps, store_position_chart_data_steps
        with steps.
  - repeat (bind_step R; [| intros ?]);
      auto using set_position_keeps, set_positions_keeps, add_query_steps,
        store_position_chart_data_steps with steps.
Qed.

Lemma refresh_positions_keeps R `{!PositionsFrame R} (l : list IBPosition) :
  steps R (refresh_positions app utcnow now l).
Proof.
  induction l as [| ib_position l IH]; simpl.
  - auto with steps.
  - apply (steps_bind R); [apply refresh_position_keeps; assumption |]. intros symbol.
    apply (steps_bind R); [exact IH |]. auto with steps.
Qed.

Lemma remove_stale_keeps R `{!PositionsFrame R} (symbols : list string) (i : nat) :
  steps R (remove_stale symbols i).
Proof.
  unfold remove_stale.
  apply (steps_bind R); [auto with steps |]. intros ps.
  destruct (ps !! i) as [position |]; [| auto with steps].
  destruct (negb _); [| auto with steps].
  repeat (bind_step R; [| intros ?]);
    auto using clear_position_chart_data_steps, remove_query_steps, set_positions_keeps
      with steps.
Qed.

Lemma reconcile_positions_keeps R `{!PositionsFrame R} (code : string) :
  steps R (reconcile_positions app utcnow now code).
Proof.
  unfold reconcile_positions.
  bind_step R; [apply refresh_positions_keeps; assumption | intros symbols].
  bind_step R; [auto with steps | intros ps].
  apply (steps_forM_ R). intros i. apply remove_stale_keeps; assumption.
Qed.

Lemma refresh_summary_same_orders (account : Account) :
  steps same_orders (refresh_summary app utcnow account).
Proof.
  intros w. unfold refresh_summary, bind, lift, modify.
  destruct (summary_loop _ _ _); reflexivity.
Qed.

(** [refresh_order] writes none of the fields that identify an order. *)
Lemma refresh_order_identity (o : Order) (ib_trade : option Trade) :
  order_identity (fst (refresh_order app utcnow o ib_trade)) = order_identity o.
Proof. now destruct ib_trade. Qed.

(** The loop body over the trades, run. *)
Lemma refresh_trade_run (ib_trade : Trade) (w : World) :
  refresh_trade app utcnow now ib_trade w
  = match list_find (fun order => o_ib_id order = io_permId (t_order ib_trade))
            (a_orders (w_account w)) with
    | Some (i, order) =>
        (Ok tt,
         World_set_account
           (Account_set_orders
              (<[i := fst (refresh_order app utcnow order (Some ib_trade))]>
                 (a_orders (w_account w)))
              (w_account w)) w)
    | None =>
        match OrderAction_lookup (io_action (t_order ib_trade)) with
        | Raise e => (Raise e, w)
        | Ok action =>
            match int_of_float (io_totalQuantity (t_order ib_trade)) with
            | Raise e => (Raise e, w)
            | Ok req_qty =>
                (Ok tt,
                 World_set_account
                   (Account_set_orders
                      (a_orders (w_account w)
                       ++ [fst (refresh_order app utcnow
                                  (Order_init utcnow now
                                     (canonical_symbol (t_contract ib_trade)) action
                                     req_qty (io_lmtPrice (t_order ib_trade))
                                     (io_permId (t_order ib_trade)))
                                  (Some ib_trade))])
                      (w_account w)) w)
            end
        end
    end.
Proof.
  unfold refresh_trade, bind, gets, lift, set_orders, modify. cbv beta iota.
  destruct (list_find _ _) as [[i order] |]; [reflexivity |].
  destruct (OrderAction_lookup _); [| reflexivity].
  now destruct (int_of_float _).
Qed.

Lemma refresh_trade_orders_kept (ib_trade : Trade) :
  steps orders_kept (refresh_trade app utcnow now ib_trade).
Proof.
  intros w. rewrite refresh_trade_run. unfold orders_kept.
  destruct (list_find _ _) as [[i order] |] eqn:Hfind; cbn [snd w_account World_set_account a_orders Account_set_orders].
  - apply list_find_Some in Hfind as (Hi & _ & _).
    rewrite list_fmap_insert, refresh_order_identity, list_insert_id; [reflexivity |].
    now rewrite list_lookup_fmap, Hi.
  - destruct (OrderAction_lookup _); cbn [snd w_account World_set_account a_orders Account_set_orders]; [| reflexivity].
    destruct (int_of_float _); cbn [snd w_account World_set_account a_orders Account_set_orders]; [| reflexivity].
    rewrite fmap_app. now apply prefix_app_r.
Qed.

Lemma refresh_trade_ids_stay_distinct (ib_trade : Trade) :
  steps ids_stay_distinct (refresh_trade app utcnow now ib_trade).
Proof.
  intros w. rewrite refresh_trade_run. unfold ids_stay_distinct.
  destruct (list_find _ _) as [[i order] |] eqn:Hfind; cbn [snd w_account World_set_account a_orders Account_set_orders].
  - apply list_find_Some in Hfind as (Hi & Hid & _).
    rewrite list_fmap_insert, list_insert_id; [auto |].
    rewrite list_lookup_fmap, Hi. simpl. now rewrite Hid.
  - destruct (OrderAction_lookup _); cbn [snd w_account World_set_account a_orders Account_set_orders]; [| auto].
    destruct (int_of_float _); cbn [snd w_account World_set_account a_orders Account_set_orders]; [| auto].
    intros Hnd. rewrite fmap_app. apply NoDup_app. simpl.
    split; [assumption |]. split; [| apply NoDup_singleton].
    intros x Hx ->%list_elem_of_singleton.
    apply list_find_None in Hfind. rewrite Forall_forall in Hfind.
    apply list_elem_of_fmap in Hx as (o & Ho & Hin). now apply (Hfind o Hin).
Qed.

(** A refresh relates its states by [R] when everything that leaves the
    orders alone does, and the loop body over the trades does. *)
Lemma refresh_account_by_orders R `{!PreOrder R} :
  (forall w w', same_orders w w' -> R w w') ->
  (forall ib_trade, steps R (refresh_trade app utcnow now ib_trade)) ->
  steps R (refresh_account app utcnow now).
Proof.
  intros Hsame Htrade. unfold refresh_account.
  bind_step R.
  { intros w. rewrite get_account_code_state. reflexivity. }
  intros code. bind_step R; [auto with steps |]. intros account.
  destruct (negb _); [auto with steps |].
  bind_step R.
  { apply (steps_weaken same_orders); [assumption | apply refresh_summary_same_orders]. }
  intros _. bind_step R.
  { apply (steps_weaken same_orders); [assumption |].
    apply reconcile_positions_keeps. apply _. }
  intros _. unfold reconcile_orders.
  bind_step R.
  { apply (steps_weaken same_orders); [assumption |].
    apply (call_steps same_orders). reflexivity. }
  intros _. bind_step R.
  { apply (steps_weaken same_orders); [assumption |].
    apply (call_steps same_orders). reflexivity. }
  intros _. apply (steps_forM_ R). exact Htrade.
Qed.

(** X14. A refresh never deletes, moves or replaces an order: whatever it
    returns or raises, the orders the account had are still there, in
    the same places, each with its code, symbol, action, requested
    quantity and broker id; new orders come after them. *)
Theorem refresh_account_orders_kept (w : World) :
  (order_identity <$> a_orders (w_account w))
  `prefix_of`
  (order_identity <$> a_orders (w_account (snd (refresh_account app utcnow now w)))).
Proof.
  apply (refresh_account_by_orders orders_kept).
  - unfold same_orders, orders_kept. intros w1 w2 ->. reflexivity.
  - apply refresh_trade_orders_kept.
Qed.

(** X15. A refresh never files two orders under one broker id: if the
    account's orders had distinct broker ids, they still have, whatever
    the refresh returns or raises. *)
Theorem refresh_account_ids_distinct (w : World) :
  NoDup (o_ib_id <$> a_orders (w_account w)) ->
  NoDup (o_ib_id <$> a_orders (w_account (snd (refresh_account app utcnow now w)))).
Proof.
  apply (refresh_account_by_orders ids_stay_distinct).
  - unfold same_orders, ids_stay_distinct. now intros w1 w2 ->.
  - apply refresh_trade_ids_stay_distinct.
Qed.

(** *** The orders a refresh files *)

Ltac orders_of_state :=
  cbn [snd w_account World_set_account a_orders Account_set_orders].

(** A round that returns leaves an order refreshed from its trade. *)
Lemma refresh_trade_Ok (ib_trade : Trade) (w w' : World) :
  refresh_trade app utcnow now ib_trade w = (Ok tt, w') ->
  exists o, o ∈ a_orders (w_account w') /\ refreshed_from app utcnow ib_trade o.
Proof.
  rewrite refresh_trade_run.
  destruct (list_find _ _) as [[i order] |] eqn:Hfind.
  - intros Hrun. apply (f_equal snd) in Hrun. cbn [snd] in Hrun. subst w'.
    apply list_find_Some in Hfind as (Hi & Hid & _).
    exists (fst (refresh_order app utcnow order (Some ib_trade))). split.
    + orders_of_state. apply list_elem_of_insert. eapply lookup_lt_Some, Hi.
    + split; [exact Hid | now exists order].
  - destruct (OrderAction_lookup _) as [action |]; [| discriminate].
    destruct (int_of_float _) as [req_qty |]; [| discriminate].
    intros Hrun. apply (f_equal snd) in Hrun. cbn [snd] in Hrun. subst w'.
    eexists. split.
    + orders_of_state. apply elem_of_app. right. apply list_elem_of_singleton. reflexivity.
    + split; [reflexivity | eexists; reflexivity].
Qed.

(** A round leaves the orders of the other broker ids as they are. *)
Lemma refresh_trade_others (ib_trade : Trade) (w : World) (o : Order) :
  o ∈ a_orders (w_account w) ->
  o_ib_id o <> io_permId (t_order ib_trade) ->
  o ∈ a_orders (w_account (snd (refresh_trade app utcnow now ib_trade w))).
Proof.
  intros Hin Hne. rewrite refresh_trade_run.
  destruct (list_find _ _) as [[i order] |] eqn:Hfind; orders_of_state.
  - apply list_find_Some in Hfind as (Hi & Hid & _).
    apply list_elem_of_lookup_1 in Hin as [j Hj].
    apply (list_elem_of_lookup_2 _ j). rewrite list_lookup_insert_ne; [assumption |].
    intros ->. congruence.
  - destruct (OrderAction_lookup _); orders_of_state; [| assumption].
    destruct (int_of_float _); orders_of_state; [| assumption].
    apply elem_of_app. now left.
Qed.

Lemma refresh_trades_others (l : list Trade) (w : World) (o : Order) :
  o ∈ a_orders (w_account w) ->
  o_ib_id o ∉ ((fun ib_trade => io_permId (t_order ib_trade)) <$> l) ->
  o ∈ a_orders (w_account (snd (forM_ l (refresh_trade app utcnow now) w))).
Proof.
  revert w. induction l as [| ib_trade l IH]; intros w Hin Hnin; [assumption |].
  rewrite fmap_cons, not_elem_of_cons in Hnin. destruct Hnin as [Hne Hnin].
  pose proof (refresh_trade_others ib_trade w o Hin Hne) as Hone.
  cbn [forM_]. unfold bind.
  destruct (refresh_trade app utcnow now ib_trade w) as [[[] | e] w1]; [| assumption].
  now apply IH.
Qed.

(** The broker ids on file stay on file. *)
Lemma orders_kept_id (w w' : World) (o : Order) :
  orders_kept w w' -> o ∈ a_orders (w_account w) ->
  exists o', o' ∈ a_orders (w_account w') /\ o_ib_id o' = o_ib_id o.
Proof.
  unfold orders_kept. intros Hpre Hin.
  assert (Hid : order_identity o ∈ order_identity <$> a_orders (w_account w'))
    by (destruct Hpre as [k ->]; apply elem_of_app; left; now apply list_elem_of_fmap_2).
  apply list_elem_of_fmap in Hid as (o' & Heq & Hin').
  exists o'. split; [assumption |]. unfold order_identity in Heq. congruence.
Qed.

(** After the loop over the trades has returned. *)
Lemma refresh_trades_Ok (l : list Trade) (w w' : World) :
  forM_ l (refresh_trade app utcnow now) w = (Ok tt, w') ->
  forall ib_trade, ib_trade ∈ l ->
    (exists o, o ∈ a_orders (w_account w') /\ o_ib_id o = io_permId (t_order ib_trade))
    /\ (NoDup ((fun ib_trade => io_permId (t_order ib_trade)) <$> l) ->
        exists o, o ∈ a_orders (w_account w') /\ refreshed_from app utcnow ib_trade o).
Proof.
  revert w. induction l as [| t0 l IH]; intros w Hrun ib_trade Hin.
  - now apply elem_of_nil in Hin.
  - cbn [forM_] in Hrun. apply bind_Ok in Hrun as ([] & w1 & Hone & Hrest).
    apply elem_of_cons in Hin as [-> | Hin].
    + apply refresh_trade_Ok in Hone as (o & Ho & Hfrom). split.
      * destruct (orders_kept_id w1 w' o) as (o' & Ho' & Hid); [| assumption |].
        { pose proof (steps_forM_ orders_kept l (refresh_trade app utcnow now)
                        refresh_trade_orders_kept w1) as Hkept.
          now rewrite Hrest in Hkept. }
        exists o'. split; [assumption |]. rewrite Hid. apply Hfrom.
      * rewrite fmap_cons, NoDup_cons. intros [Hnin _].
        exists o. split; [| assumption].
        pose proof (refresh_trades_others l w1 o Ho) as Hkeep.
        rewrite Hrest in Hkeep. apply Hkeep.
        destruct Hfrom as [-> _]. exact Hnin.
    + destruct (IH _ Hrest _ Hin) as [Hid Hfrom]. split; [assumption |].
      rewrite fmap_cons, NoDup_cons. intros [_ Hnd]. auto.
Qed.

(** X16. After a refresh that returned, every trade the broker reports,
    open or completed, has an order on file under its broker id; when the
    reported trades have distinct broker ids, that order is the one
    [refresh_order] computes from the trade (its status, fills, average
    price and commission). *)
Theorem refresh_account_orders_complete (w w' : World) (ib_trade : Trade) :
  refresh_account app utcnow now w = (Ok tt, w') ->
  ib_trade ∈ trades app ++ reqCompletedOrders app ->
  (exists o, o ∈ a_orders (w_account w') /\ o_ib_id o = io_permId (t_order ib_trade))
  /\ (NoDup ((fun ib_trade => io_permId (t_order ib_trade))
               <$> (trades app ++ reqCompletedOrders app)) ->
      exists o, o ∈ a_orders (w_account w') /\ refreshed_from app utcnow ib_trade o).
Proof.
  intros Hrun Hin.
  pose proof (refresh_account_parts _ _ _ _ _ _ Hrun (refresh_account_Ok_code _ _ _ _ _ Hrun))
    as Hparts.
  apply bind_Ok in Hparts as ([] & w1 & _ & Hrest).
  apply bind_Ok in Hrest as ([] & w2 & _ & Hord).
  unfold reconcile_orders in Hord.
  apply bind_Ok in Hord as ([] & w3 & _ & Hord).
  apply bind_Ok in Hord as ([] & w4 & _ & Hord).
  exact (refresh_trades_Ok _ _ _ Hord ib_trade Hin).
Qed.

(** X17. [refresh_account]'s round over one trade raises only for a trade
    whose broker id is not on file yet, with the error of its action
    lookup ([KeyError] for an action other than BUY and SELL) or of the
    conversion of its quantity, and it then leaves the state as it was. *)
Theorem refresh_trade_raises (ib_trade : Trade) (w : World) (e : exn) :
  fst (refresh_trade app utcnow now ib_trade w) = Raise e ->
  snd (refresh_trade app utcnow now ib_trade w) = w
  /\ (io_permId (t_order ib_trade) ∉ (o_ib_id <$> a_orders (w_account w)))
  /\ (OrderAction_lookup (io_action (t_order ib_trade)) = Raise e
      \/ int_of_float (io_totalQuantity (t_order ib_trade)) = Raise e).
Proof.
  rewrite refresh_trade_run.
  destruct (list_find _ _) as [[i order] |] eqn:Hfind; [discriminate |].
  apply list_find_None in Hfind. rewrite Forall_forall in Hfind.
  assert (Hnin : io_permId (t_order ib_trade) ∉ (o_ib_id <$> a_orders (w_account w))).
  { intros (o & Ho & Hin)%list_elem_of_fmap. now apply (Hfind o Hin). }
  destruct (OrderAction_lookup _) as [action | e1]; cbn [fst snd].
  - destruct (int_of_float _) as [req_qty | e2]; cbn [fst snd]; [discriminate |].
    intros [= ->]. auto.
  - intros [= ->]. auto.
Qed.

(** *** The figures a refresh writes on the positions *)

#[local] Arguments update_pnl : simpl never.

Lemma update_pnl_carries (t : Z) (last_price : option float) (ib_position : IBPosition)
    (p : Position) :
  carries ib_position p -> carries ib_position (update_pnl t last_price p).
Proof.
  unfold carries, update_pnl. destruct last_price as [lp |]; [| auto].
  now destruct (negb (PrimFloat.is_nan lp)).
Qed.

(** One round of the loop over the broker's positions leaves a position
    with the broker's symbol and figures. *)
Lemma refresh_position_carries (ib_position : IBPosition) (w w' : World) (s : string) :
  refresh_position app utcnow now ib_position w = (Ok s, w') ->
  exists p, p ∈ a_positions (w_account w')
            /\ p_symbol p = canonical_symbol (ip_contract ib_position)
            /\ carries ib_position p.
Proof.
  intros Hrun.
  destruct (list_find (fun position => p_symbol position
                                       = canonical_symbol (ip_contract ib_position))
              (a_positions (w_account w))) as [[i p] |] eqn:Hfind.
  - unfold refresh_position in Hrun.
    apply bind_Ok in Hrun as (ps & w1 & Hps & Hrun). injection Hps as <- <-.
    rewrite Hfind in Hrun.
    apply list_find_Some in Hfind as (Hi & Hsym & _). apply lookup_lt_Some in Hi.
    apply bind_Ok in Hrun as (qty & w2 & Hqty & Hrun). injection Hqty as Hqty <-.
    apply bind_Ok in Hrun as ([] & w3 & Hset & Hrun). injection Hset as <-.
    apply bind_Ok in Hrun as (price_query & w4 & Hq & Hrun).
    apply (add_query_run app) in Hq as [_ Hacc4].
    apply bind_Ok in Hrun as ([] & w5 & Hstore & Hrun).
    apply (steps_run same_account) in Hstore;
      [| apply store_position_chart_data_steps; apply _].
    apply bind_Ok in Hrun as ([] & w6 & Hpnl & Hrun). injection Hrun as <- <-.
    unfold same_account in Hstore. rewrite Hacc4 in Hstore. simpl in Hstore.
    assert (Hbase : carries ib_position
                      (Position_update utcnow qty (ip_avgCost ib_position)
                         (cost_basis ib_position) p)) by (now repeat split).
    assert (Hkept : Position_update utcnow qty (ip_avgCost ib_position)
                      (cost_basis ib_position) p ∈ a_positions (w_account w5)).
    { rewrite Hstore. simpl. now apply list_elem_of_insert. }
    assert (Hsame : w6 = w5 ->
              exists p0, p0 ∈ a_positions (w_account w6)
                         /\ p_symbol p0 = canonical_symbol (ip_contract ib_position)
                         /\ carries ib_position p0).
    { intros ->. eexists. split; [exact Hkept |]. split; [exact Hsym | exact Hbase]. }
    destruct (get_last_value price_query) as [current_price |];
      [destruct (truthy current_price) |]; injection Hpnl as Hw6; auto.
    subst w6. eexists. split; [| split].
    + simpl. apply list_elem_of_insert. rewrite Hstore. simpl.
      now rewrite length_insert.
    + now rewrite update_pnl_symbol.
    + now apply update_pnl_carries.
  - destruct (refresh_position_new app utcnow now _ _ _ _ Hfind Hrun)
      as (-> & qty & Hqty & Hps).
    eexists. split; [| split].
    + rewrite Hps. apply elem_of_app. right. apply list_elem_of_singleton. reflexivity.
    + now rewrite update_pnl_symbol.
    + apply update_pnl_carries. now repeat split.
Qed.

(** And it leaves the positions of the other symbols as they are. *)
Lemma refresh_position_others (ib_position : IBPosition) (w w' : World) (s : string)
    (p : Position) :
  refresh_position app utcnow now ib_position w = (Ok s, w') ->
  p ∈ a_positions (w_account w) ->
  p_symbol p <> canonical_symbol (ip_contract ib_position) ->
  p ∈ a_positions (w_account w').
Proof.
  intros Hrun Hin Hne.
  destruct (list_find (fun position => p_symbol position
                                       = canonical_symbol (ip_contract ib_position))
              (a_positions (w_account w))) as [[i p0] |] eqn:Hfind.
  - destruct (refresh_position_found app utcnow now _ _ _ _ _ _ Hfind Hrun)
      as (_ & p' & -> & _).
    apply list_find_Some in Hfind as (Hi & Hsym & _).
    apply list_elem_of_lookup_1 in Hin as [j Hj].
    apply (list_elem_of_lookup_2 _ j). rewrite list_lookup_insert_ne; [assumption |].
    intros ->. congruence.
  - destruct (refresh_position_new app utcnow now _ _ _ _ Hfind Hrun)
      as (_ & qty & _ & ->).
    apply elem_of_app. now left.
Qed.

Lemma refresh_positions_others (l : list IBPosition) (w w' : World) (symbols : list string)
    (p : Position) :
  refresh_positions app utcnow now l w = (Ok symbols, w') ->
  p ∈ a_positions (w_account w) ->
  p_symbol p ∉ ((fun ib_position => canonical_symbol (ip_contract ib_position)) <$> l) ->
  p ∈ a_positions (w_account w').
Proof.
  revert w symbols. induction l as [| ib_position l IH]; intros w symbols Hrun Hin Hnin;
    simpl in Hrun.
  - now injection Hrun as _ <-.
  - rewrite fmap_cons, not_elem_of_cons in Hnin. destruct Hnin as [Hne Hnin].
    apply bind_Ok in Hrun as (s & w1 & Hone & Hrun).
    apply bind_Ok in Hrun as (syms & w2 & Hrest & Hrun). injection Hrun as _ <-.
    eapply IH; [exact Hrest | | exact Hnin].
    eapply refresh_position_others; eassumption.
Qed.

Lemma refresh_positions_carries (l : list IBPosition) (w w' : World) (symbols : list string) :
  refresh_positions app utcnow now l w = (Ok symbols, w') ->
  NoDup ((fun ib_position => canonical_symbol (ip_contract ib_position)) <$> l) ->
  forall ib_position, ib_position ∈ l ->
    exists p, p ∈ a_positions (w_account w')
              /\ p_symbol p = canonical_symbol (ip_contract ib_position)
              /\ carries ib_position p.
Proof.
  revert w symbols. induction l as [| ib0 l IH]; intros w symbols Hrun Hnd ib_position Hin.
  - now apply elem_of_nil in Hin.
  - simpl in Hrun. rewrite fmap_cons, NoDup_cons in Hnd. destruct Hnd as [Hnin Hnd].
    apply bind_Ok in Hrun as (s & w1 & Hone & Hrun).
    apply bind_Ok in Hrun as (syms & w2 & Hrest & Hrun). injection Hrun as _ <-.
    apply elem_of_cons in Hin as [-> | Hin].
    + apply refresh_position_carries in Hone as (p & Hp & Hsym & Hcar).
      exists p. split; [| auto].
      eapply refresh_positions_others; [exact Hrest | exact Hp |]. now rewrite Hsym.
    + eapply IH; eassumption.
Qed.

(** X18. After a refresh that returned, when the broker reports no two
    positions of one canonical symbol, every position it reports has a
    local position of that symbol carrying its figures: the quantity, the
    average cost as entry price, and [avgCost * abs(position)] as value. *)
Theorem refresh_account_positions_carried (w w' : World) (ib_position : IBPosition) :
  refresh_account app utcnow now w = (Ok tt, w') ->
  NoDup (broker_symbols app (a_code (w_account w))) ->
  ib_position ∈ positions app (a_code (w_account w)) ->
  exists p, p ∈ a_positions (w_account w')
            /\ p_symbol p = canonical_symbol (ip_contract ib_position)
            /\ carries ib_position p.
Proof.
  intros Hrun Hnd Hin.
  pose proof (refresh_account_parts _ _ _ _ _ _ Hrun (refresh_account_Ok_code _ _ _ _ _ Hrun))
    as Hparts.
  apply bind_Ok in Hparts as ([] & w1 & Hsum & Hrest).
  apply bind_Ok in Hrest as ([] & w2 & Hpos & Hord).
  apply (steps_run same_positions) in Hord; [| apply reconcile_orders_same_positions].
  unfold same_positions in Hord. rewrite Hord. clear Hord.
  unfold reconcile_positions in Hpos.
  apply bind_Ok in Hpos as (symbols & w3 & Hloop & Hpos).
  apply bind_Ok in Hpos as (ps & w4 & Hps & Hpos). injection Hps as <- <-.
  apply remove_stale_loop with (l2 := []) in Hpos; [| now rewrite app_nil_r].
  rewrite app_nil_r in Hpos. rewrite Hpos.
  pose proof (refresh_positions_symbols _ _ _ _ _ _ _ Hloop) as (-> & _ & _).
  destruct (refresh_positions_carries _ _ _ _ Hloop Hnd _ Hin) as (p & Hp & Hsym & Hcar).
  exists p. split; [| auto].
  apply list_elem_of_filter. split; [| assumption].
  apply py_in_true. rewrite Hsym.
  apply list_elem_of_fmap. exists ib_position. now split.
Qed.

(** *** The summary figures a refresh writes *)

(** A row of this account with one of the four tags sets the figure of
    its tag to its parsed value. *)
Lemma summary_step_present (code : string) (s s1 : Summary) (acs : AccountValue) :
  summary_step code s acs = Ok s1 ->
  av_account acs = code ->
  (av_tag acs = "TotalCashValue" -> parse_float (av_value acs) = Ok (s_total_cash_value s1))
  /\ (av_tag acs = "AvailableFunds" -> parse_float (av_value acs) = Ok (s_available_funds s1))
  /\ (av_tag acs = "NetLiquidation" -> parse_float (av_value acs) = Ok (s_net_liquidation s1))
  /\ (av_tag acs = "DayTradesRemaining" ->
      parse_int (av_value acs) = Ok (s_day_trades_remaining s1)).
Proof.
  unfold summary_step. intros Hstep Hacc.
  apply String.eqb_eq in Hacc. rewrite Hacc in Hstep.
  repeat split; intros Htag; rewrite Htag in Hstep; simpl in Hstep.
  - destruct (parse_float _); [now injection Hstep as <- | discriminate].
  - destruct (parse_float _); [now injection Hstep as <- | discriminate].
  - destruct (parse_float _); [now injection Hstep as <- | discriminate].
  - destruct (parse_int _); [now injection Hstep as <- | discriminate].
Qed.

(** The rows of one tag, seen from the front of the list. *)
Lemma last_row_cons (code tag : string) (acs : AccountValue) (l : list AccountValue) :
  last_row code tag (acs :: l)
  = match last_row code tag l with
    | Some row => Some row
    | None => if decide (av_account acs = code /\ av_tag acs = tag) then Some acs else None
    end.
Proof.
  unfold last_row. rewrite filter_cons.
  destruct (decide _) as [Hrow | Hrow]; [apply last_cons |].
  now destruct (last _).
Qed.

Lemma summary_loop_last (code : string) (l : list AccountValue) (s s' : Summary) :
  summary_loop code s l = Ok s' ->
  settled parse_float (last_row code "TotalCashValue" l)
    (s_total_cash_value s) (s_total_cash_value s')
  /\ settled parse_float (last_row code "AvailableFunds" l)
       (s_available_funds s) (s_available_funds s')
  /\ settled parse_float (last_row code "NetLiquidation" l)
       (s_net_liquidation s) (s_net_liquidation s')
  /\ settled parse_int (last_row code "DayTradesRemaining" l)
       (s_day_trades_remaining s) (s_day_trades_remaining s').
Proof.
  revert s. induction l as [| acs l IH]; intros s; simpl.
  - intros [= <-]. repeat split.
  - destruct (summary_step code s acs) as [s1 |] eqn:Hstep; simpl; [| discriminate].
    intros Hloop.
    destruct (summary_step_absent _ _ _ _ Hstep) as (A1 & A2 & A3 & A4).
    destruct (IH _ Hloop) as (G1 & G2 & G3 & G4).
    rewrite !last_row_cons.
    repeat split.
    + destruct (last_row code "TotalCashValue" l); [exact G1 |].
      destruct (decide _) as [[Hacc Htag] | Hrow]; simpl in *.
      * rewrite G1. now apply (summary_step_present _ _ _ _ Hstep Hacc).
      * rewrite G1. apply A1. unfold absent_row. tauto.
    + destruct (last_row code "AvailableFunds" l); [exact G2 |].
      destruct (decide _) as [[Hacc Htag] | Hrow]; simpl in *.
      * rewrite G2. now apply (summary_step_present _ _ _ _ Hstep Hacc).
      * rewrite G2. apply A2. unfold absent_row. tauto.
    + destruct (last_row code "NetLiquidation" l); [exact G3 |].
      destruct (decide _) as [[Hacc Htag] | Hrow]; simpl in *.
      * rewrite G3. now apply (summary_step_present _ _ _ _ Hstep Hacc).
      * rewrite G3. apply A3. unfold absent_row. tauto.
    + destruct (last_row code "DayTradesRemaining" l); [exact G4 |].
      destruct (decide _) as [[Hacc Htag] | Hrow]; simpl in *.
      * rewrite G4. now apply (summary_step_present _ _ _ _ Hstep Hacc).
      * rewrite G4. apply A4. unfold absent_row. tauto.
Qed.

(** X19. After a refresh that returned, each of the four summary figures
    is the parsed value of the last row of this account with its tag
    (later rows win over earlier ones), and zero when there is no such
    row. *)
Theorem refresh_account_summary_last_row (w w' : World) :
  refresh_account app utcnow now w = (Ok tt, w') ->
  let code := a_code (w_account w) in
  let account' := w_account w' in
  settled parse_float (last_row code "NetLiquidation" (accountSummary app))
    0%float (a_total_value account')
  /\ settled parse_float (last_row code "TotalCashValue" (accountSummary app))
       0%float (a_cash_value account')
  /\ settled parse_float (last_row code "AvailableFunds" (accountSummary app))
       0%float (a_available_funds account')
  /\ settled parse_int (last_row code "DayTradesRemaining" (accountSummary app))
       0 (a_day_trades_remaining account').
Proof.
  intros Hrun code account'. subst code account'.
  pose proof (refresh_account_parts _ _ _ _ _ _ Hrun (refresh_account_Ok_code _ _ _ _ _ Hrun))
    as Hparts.
  apply bind_Ok in Hparts as ([] & w1 & Hsum & Hrest).
  apply refresh_summary_Ok in Hsum as (s & Hloop & ->).
  apply (steps_run same_summary) in Hrest;
    [| bind_step same_summary; [apply reconcile_positions_steps; apply _ | intros _];
       apply reconcile_orders_steps; apply _].
  destruct Hrest as (_ & P1 & P2 & P3 & P4).
  rewrite P1, P2, P3, P4. simpl.
  destruct (summary_loop_last _ _ _ _ Hloop) as (G1 & G2 & G3 & G4). auto.
Qed.

(** Only [float()] and [int()] raise in the summary loop. *)
Lemma summary_step_raises (code : string) (s : Summary) (acs : AccountValue) (e : exn) :
  summary_step code s acs = Raise e -> e = ValueError.
Proof.
  unfold summary_step, parse_float, parse_int.
  repeat (destruct (String.eqb _ _); try discriminate);
    try (destruct (float_of_str _)); try (destruct (int_of_str _)); simpl;
    congruence.
Qed.

Lemma summary_step_unparsable (code : string) (s : Summary) (acs : AccountValue) :
  unparsable_row code acs -> summary_step code s acs = Raise ValueError.
Proof.
  unfold unparsable_row, summary_step, parse_float, parse_int.
  intros [Hacc Hrow]. apply String.eqb_eq in Hacc. rewrite Hacc.
  destruct Hrow as [[Htag Hval] | [Htag Hval]]; rewrite Hval.
  - repeat (apply elem_of_cons in Htag as [-> | Htag]; [reflexivity |]).
    now apply elem_of_nil in Htag.
  - now rewrite Htag.
Qed.

Lemma summary_loop_unparsable (code : string) (l : list AccountValue) (s : Summary)
    (acs : AccountValue) :
  acs ∈ l -> unparsable_row code acs -> summary_loop code s l = Raise ValueError.
Proof.
  intros Hin Hrow. revert s. induction l as [| acs0 l IH]; intros s.
  - now apply elem_of_nil in Hin.
  - simpl. destruct (summary_step code s acs0) as [s1 | e] eqn:Hstep; simpl.
    + apply elem_of_cons in Hin as [-> | Hin]; [| now apply IH].
      now rewrite summary_step_unparsable in Hstep.
    + now rewrite (summary_step_raises _ _ _ _ Hstep).
Qed.

(** X20. A refresh past the account check whose account summary has a row
    of this account that does not parse raises [ValueError] and leaves the
    whole state as it was: no summary figure, position or order is
    written, even when the rows before the bad one were good. *)
Theorem refresh_account_unparsable_row (w : World) (acs : AccountValue) :
  fst (get_account_code app w) = Ok (a_code (w_account w)) ->
  acs ∈ accountSummary app ->
  unparsable_row (a_code (w_account w)) acs ->
  refresh_account app utcnow now w = (Raise ValueError, w).
Proof.
  intros Hcode Hin Hrow.
  destruct (refresh_account app utcnow now w) as [r w'] eqn:Hrun.
  pose proof (refresh_account_parts _ _ _ _ _ _ Hrun Hcode) as Hparts.
  unfold bind at 1 in Hparts. unfold refresh_summary at 1 in Hparts.
  unfold bind at 1 in Hparts. unfold lift in Hparts.
  rewrite (summary_loop_unparsable _ _ _ _ Hin Hrow) in Hparts.
  now injection Hparts as <- <-.
Qed.

End Reconciliation.

(** The properties above, at the tests' account. *)

Lemma refresh_account_ids_distinct_witness :
  let w1 := snd (refresh_account (rt := sample_runtime) sample_app_trading 10 10
                   sample_world) in
  NoDup (o_ib_id <$> a_orders (w_account
           (snd (refresh_account (rt := sample_runtime) sample_app_trading 20 20 w1)))).
Proof.
  apply (refresh_account_ids_distinct (rt := sample_runtime) sample_app_trading 20 20).
  vm_compute. apply NoDup_singleton.
Defined.

Lemma refresh_account_orders_complete_witness :
  let w' := snd (refresh_account (rt := sample_runtime) sample_app_trading 10 10
                   sample_world) in
  (exists o, o ∈ a_orders (w_account w') /\ o_ib_id o = 77)
  /\ (NoDup ((fun ib_trade => io_permId (t_order ib_trade)) <$> ([sample_trade] ++ [])) ->
      exists o, o ∈ a_orders (w_account w')
                /\ refreshed_from sample_app_trading 10 sample_trade o).
Proof.
  apply (refresh_account_orders_complete (rt := sample_runtime) sample_app_trading 10 10
           sample_world
           (snd (refresh_account (rt := sample_runtime) sample_app_trading 10 10
                   sample_world))
           sample_trade).
  - vm_compute. reflexivity.
  - apply list_elem_of_here.
Defined.

Lemma refresh_trade_raises_witness :
  snd (refresh_trade (rt := sample_runtime) sample_app 10 10 sample_trade_bot sample_world)
  = sample_world
  /\ (io_permId (t_order sample_trade_bot) ∉ (o_ib_id <$> a_orders (w_account sample_world)))
  /\ (OrderAction_lookup (io_action (t_order sample_trade_bot)) = Raise KeyError
      \/ int_of_float (io_totalQuantity (t_order sample_trade_bot)) = Raise KeyError).
Proof.
  apply (refresh_trade_raises (rt := sample_runtime) sample_app 10 10 sample_trade_bot
           sample_world KeyError).
  reflexivity.
Defined.

Lemma refresh_account_positions_carried_witness :
  let ib_position := mkIBPosition fb_contract 301%float 3%float in
  exists p,
    p ∈ a_positions (w_account (snd (refresh_account (rt := sample_runtime) sample_app
                                       10 10 sample_world)))
    /\ p_symbol p = canonical_symbol (rt := sample_runtime) (ip_contract ib_position)
    /\ carries ib_position p.
Proof.
  apply (refresh_account_positions_carried (rt := sample_runtime) sample_app 10 10
           sample_world
           (snd (refresh_account (rt := sample_runtime) sample_app 10 10 sample_world))
           (mkIBPosition fb_contract 301%float 3%float)).
  - vm_compute. reflexivity.
  - vm_compute. apply NoDup_singleton.
  - apply list_elem_of_here.
Defined.

Lemma refresh_account_summary_last_row_witness :
  let account' :=
    w_account (snd (refresh_account (rt := sample_runtime) sample_app 10 10 sample_world)) in
  settled (parse_float (rt := sample_runtime))
    (last_row "prime" "NetLiquidation" sample_summary) 0%float (a_total_value account')
  /\ settled (parse_float (rt := sample_runtime))
       (last_row "prime" "TotalCashValue" sample_summary) 0%float (a_cash_value account')
  /\ settled (parse_float (rt := sample_runtime))
       (last_row "prime" "AvailableFunds" sample_summary) 0%float
       (a_available_funds account')
  /\ settled (parse_int (rt := sample_runtime))
       (last_row "prime" "DayTradesRemaining" sample_summary) 0
       (a_day_trades_remaining account').
Proof.
  apply (refresh_account_summary_last_row (rt := sample_runtime) sample_app 10 10
           sample_world
           (snd (refresh_account (rt := sample_runtime) sample_app 10 10 sample_world))).
  vm_compute. reflexivity.
Defined.

(** A bad net liquidation row after a good cash row: the refresh raises,
    and the account keeps the cash value it had. *)
Lemma refresh_account_unparsable_row_witness :
  refresh_account (rt := sample_runtime) unparsable_summary_app 10 10 sample_world
  = (Raise ValueError, sample_world).
Proof.
  apply (refresh_account_unparsable_row (rt := sample_runtime) unparsable_summary_app 10 10
           sample_world (mkAccountValue "prime" "NetLiquidation" "n/a")).
  - reflexivity.
  - apply list_elem_of_further, list_elem_of_here.
  - split; [reflexivity |]. left. split; [| reflexivity].
    apply list_elem_of_further, list_elem_of_further, list_elem_of_here.
Defined.

(** ** console.py: screen blocks *)

Lemma string_length_app (s1 s2 : string) :
  String.length (s1 +:+ s2) = (String.length s1 + String.length s2)%nat.
Proof. induction s1 as [| c s1 IH]; simpl; [reflexivity | now rewrite IH]. Qed.

Lemma spaces_length (n : nat) : String.length (spaces n) = n.
Proof.
  induction n as [| n IH]; [reflexivity |].
  change (spaces (S n)) with (" " +:+ spaces n).
  rewrite string_length_app, IH. reflexivity.
Qed.

Lemma substring_length (s : string) (n m : nat) :
  (n + m <= String.length s)%nat -> String.length (String.substring n m s) = m.
Proof.
  revert n m. induction s as [| c s IH]; intros [| n] [| m]; simpl; try lia.
  - intros H. f_equal. apply IH. lia.
  - intros H. apply (IH n 0%nat). lia.
  - intros H. apply (IH n (S m)). lia.
Qed.

Lemma substring_all (s : string) : String.substring 0 (String.length s) s = s.
Proof. induction s as [| c s IH]; simpl; [reflexivity | now rewrite IH]. Qed.

Lemma foldl_max (l : list nat) (a : nat) : foldl Nat.max a l = (a `max` max_list l)%nat.
Proof.
  revert a. induction l as [| x l IH]; intros a; simpl; [lia |].
  rewrite IH. lia.
Qed.

(** [max] of the block heights. *)
Lemma py_max_Ok (l : list nat) : l <> [] -> py_max l = Ok (max_list l).
Proof.
  destruct l as [| x l]; [congruence | intros _].
  unfold py_max. rewrite foldl_max. reflexivity.
Qed.

Lemma first_line_lengths_raise (args : list (list string)) :
  [] ∈ args -> rmapM first_line_length args = Raise IndexError.
Proof.
  induction args as [| t args IH]; [now intros ?%elem_of_nil |].
  intros Hin. simpl. destruct t as [| s t]; [reflexivity |]. simpl.
  apply elem_of_cons in Hin as [Heq | Hin]; [discriminate |].
  now rewrite IH.
Qed.

Lemma first_line_lengths_Ok (args : list (list string)) :
  [] ∉ args -> exists lens, rmapM first_line_length args = Ok lens.
Proof.
  induction args as [| t args IH]; [now exists [] |].
  rewrite not_elem_of_cons. intros [Hne Hnin].
  destruct (IH Hnin) as [lens Hlens]. simpl.
  destruct t as [| s t]; [congruence |]. simpl. rewrite Hlens. simpl. eauto.
Qed.

(** X21. [merge_screen_blocks] raises exactly in two cases: a
    [ValueError] when it is given no block, and an [IndexError] when one
    of its blocks has no line. *)
Theorem merge_screen_blocks_raises (args : list (list string)) (e : exn) :
  merge_screen_blocks args = Raise e
  <-> (args = [] /\ e = ValueError) \/ (args <> [] /\ [] ∈ args /\ e = IndexError).
Proof.
  unfold merge_screen_blocks. destruct args as [| t args].
  - simpl. split.
    + intros [= <-]. now left.
    + intros [[_ ->] | [Hne _]]; [reflexivity | congruence].
  - rewrite py_max_Ok by discriminate. cbn [rbind].
    destruct (decide ([] ∈ t :: args)) as [Hin | Hnin].
    + rewrite (first_line_lengths_raise _ Hin). cbn [rbind]. split.
      * intros [= <-]. right. repeat split; [discriminate | assumption].
      * intros [[Heq _] | (_ & _ & ->)]; [discriminate | reflexivity].
    + destruct (first_line_lengths_Ok _ Hnin) as [lens ->]. cbn [rbind]. split.
      * discriminate.
      * intros [[Heq _] | (_ & Hin & _)]; [discriminate | contradiction].
Qed.

Lemma first_line_lengths_rectangular (args : list (list string)) (widths : list nat) :
  Forall2 rectangular args widths -> rmapM first_line_length args = Ok widths.
Proof.
  induction 1 as [| t wd args widths [Hne Hall] _ IH]; [reflexivity |].
  simpl. destruct t as [| s t]; [congruence |].
  apply Forall_cons in Hall as [<- _]. simpl. now rewrite IH.
Qed.

(** One line across rectangular blocks. *)
Lemma merge_line_length (i : nat) (args : list (list string)) (widths : list nat)
    (res_i : string) :
  Forall2 rectangular args widths ->
  String.length (foldl (merge_cell i) res_i (zip args widths))
  = (String.length res_i + sum_list widths)%nat.
Proof.
  intros Hall. revert res_i.
  induction Hall as [| t wd args widths [_ Hlines] _ IH]; intros res_i; simpl; [lia |].
  rewrite IH. unfold merge_cell. simpl.
  destruct (t !! i) as [s |] eqn:Hi; rewrite string_length_app.
  - rewrite Forall_forall in Hlines.
    rewrite (Hlines s (list_elem_of_lookup_2 _ _ _ Hi)). lia.
  - rewrite spaces_length. lia.
Qed.

(** X22. Given at least one block, each rectangular ([width] characters
    on every line, at least one line), [merge_screen_blocks] returns as
    many lines as the tallest block has, each as long as the widths add
    up to: a block that is shorter than another is filled with spaces. *)
Theorem merge_screen_blocks_rectangular (args : list (list string)) (widths : list nat) :
  args <> [] ->
  Forall2 rectangular args widths ->
  exists res,
    merge_screen_blocks args = Ok res
    /\ List.length res = max_list (List.length <$> args)
    /\ Forall (fun s => String.length s = sum_list widths) res.
Proof.
  intros Hne Hall. unfold merge_screen_blocks.
  rewrite py_max_Ok by (now destruct args).
  rewrite (first_line_lengths_rectangular _ _ Hall). cbn [rbind].
  eexists. split; [reflexivity |]. split.
  - now rewrite length_fmap, length_seq.
  - apply Forall_fmap, Forall_forall. intros i _. simpl.
    now rewrite merge_line_length.
Qed.

Lemma merge_screen_blocks_rectangular_witness :
  exists res,
    merge_screen_blocks [["ab"; "cd"; "ef"]; ["xyz"]] = Ok res
    /\ List.length res = max_list (List.length <$> [["ab"; "cd"; "ef"]; ["xyz"]])
    /\ Forall (fun s => String.length s = sum_list [2; 3]%nat) res.
Proof.
  apply (merge_screen_blocks_rectangular [["ab"; "cd"; "ef"]; ["xyz"]] [2; 3]%nat).
  - discriminate.
  - repeat constructor; discriminate.
Defined.

Example merge_screen_blocks_fill :
  merge_screen_blocks [["ab"; "cd"; "ef"]; ["xyz"]] = Ok ["abxyz"; "cd   "; "ef   "].
Proof. reflexivity. Qed.

Section ConsoleProperties.

Variable finditer : string -> list (nat * nat).

Lemma covered_cons (span : nat * nat) (rest : list (nat * nat)) :
  covered (span :: rest) = (snd span - fst span + covered rest)%nat.
Proof. reflexivity. Qed.

Lemma spans_ok_covered (len cursor : nat) (spans : list (nat * nat)) :
  spans_ok len cursor spans -> (cursor + covered spans <= len)%nat.
Proof.
  revert cursor. induction spans as [| span rest IH]; intros cursor; simpl.
  - change (covered []) with 0%nat. lia.
  - intros (H1 & H2 & Hrest). apply IH in Hrest.
    rewrite covered_cons. lia.
Qed.

(** The loop of [filter_print_msg]: what it has copied, what it still
    has to copy and what it skipped add up. *)
Lemma filter_loop_length (s : string) (spans : list (nat * nat)) (cursor : nat)
    (s_flt : string) :
  spans_ok (String.length s) cursor spans ->
  let acc := foldl (filter_step s) (cursor, s_flt) spans in
  (fst acc <= String.length s)%nat
  /\ (String.length (snd acc) + (String.length s - fst acc) + covered spans
      = String.length s_flt + (String.length s - cursor))%nat.
Proof.
  revert cursor s_flt. induction spans as [| [start end_] rest IH]; intros cursor s_flt; simpl.
  - intros Hle. change (covered []) with 0%nat. lia.
  - intros (H1 & H2 & Hrest).
    pose proof (spans_ok_covered _ _ _ Hrest) as Hend.
    destruct (IH end_ (if (cursor <? start)%nat
                       then s_flt +:+ str_slice s cursor start else s_flt) Hrest)
      as [Hle Hlen].
    split; [exact Hle |].
    rewrite covered_cons. cbn [fst snd].
    assert (Hstep : String.length (if (cursor <? start)%nat
                                   then s_flt +:+ str_slice s cursor start else s_flt)
                    = (String.length s_flt + (start - cursor))%nat).
    { destruct (Nat.ltb_spec cursor start) as [Hlt | Hge]; [| lia].
      rewrite string_length_app. unfold str_slice.
      rewrite substring_length by lia. reflexivity. }
    lia.
Qed.

(** What [filter_print_msg] returns and what the matches cover add up to
    the message. *)
Lemma filter_print_msg_covered (s : string) :
  spans_ok (String.length s) 0 (finditer s) ->
  (String.length (filter_print_msg finditer s) + covered (finditer s))%nat = String.length s.
Proof.
  intros Hok. unfold filter_print_msg.
  destruct (String.eqb_spec s "") as [-> | Hne].
  - apply spans_ok_covered in Hok. simpl in *. lia.
  - pose proof (filter_loop_length s (finditer s) 0 "" Hok) as [Hle Hlen].
    destruct (foldl (filter_step s) (0%nat, "") (finditer s)) as [cursor s_flt].
    simpl in Hle, Hlen.
    destruct (Nat.ltb_spec cursor (String.length s)) as [Hlt | Hge].
    + rewrite string_length_app. unfold str_slice.
      rewrite substring_length by lia. lia.
    + lia.
Qed.

Lemma string_app_cons (c : Ascii.ascii) (s1 s2 : string) :
  String c s1 +:+ s2 = String c (s1 +:+ s2).
Proof. reflexivity. Qed.

Lemma string_app_assoc (s1 s2 s3 : string) : (s1 +:+ s2) +:+ s3 = s1 +:+ (s2 +:+ s3).
Proof.
  induction s1 as [| c s1 IH]; [reflexivity |].
  now rewrite !string_app_cons, IH.
Qed.

Lemma string_app_nil_r (s : string) : s +:+ "" = s.
Proof.
  induction s as [| c s IH]; [reflexivity |].
  now rewrite string_app_cons, IH.
Qed.

Lemma substring_zero (s : string) (n : nat) : String.substring n 0 s = "".
Proof.
  revert n. induction s as [| c s IH]; intros [| n]; try reflexivity. apply IH.
Qed.

(** [s[n:n+m1+m2]] is [s[n:n+m1]] followed by [s[n+m1:n+m1+m2]]. *)
Lemma substring_split (s : string) (n m1 m2 : nat) :
  (n + m1 + m2 <= String.length s)%nat ->
  String.substring n (m1 + m2) s
  = String.substring n m1 s +:+ String.substring (n + m1) m2 s.
Proof.
  revert n m1. induction s as [| c s IH]; intros n m1 Hle.
  - simpl in Hle. assert (n = 0 /\ m1 = 0 /\ m2 = 0)%nat as (-> & -> & ->) by lia.
    reflexivity.
  - destruct n as [| n].
    + destruct m1 as [| m1]; [reflexivity |].
      simpl in *. rewrite string_app_cons. f_equal. apply (IH 0%nat m1). lia.
    + simpl in *. apply (IH n m1). lia.
Qed.

Lemma keep_chars_app (keep : nat -> bool) (i : nat) (s1 s2 : string) :
  keep_chars keep i (s1 +:+ s2)
  = keep_chars keep i s1 +:+ keep_chars keep (i + String.length s1) s2.
Proof.
  revert i. induction s1 as [| c s1 IH]; intros i; simpl.
  - now rewrite Nat.add_0_r.
  - rewrite IH, Nat.add_succ_r. now destruct (keep i).
Qed.

Lemma keep_chars_ext (keep keep' : nat -> bool) (i : nat) (s : string) :
  (forall j, (i <= j < i + String.length s)%nat -> keep j = keep' j) ->
  keep_chars keep i s = keep_chars keep' i s.
Proof.
  revert i. induction s as [| c s IH]; intros i Hext; simpl; [reflexivity |].
  rewrite (Hext i) by (simpl; lia).
  rewrite (IH (S i)) by (intros j Hj; apply Hext; simpl; lia).
  reflexivity.
Qed.

Lemma keep_chars_all (i : nat) (s : string) : keep_chars (fun _ => true) i s = s.
Proof. revert i. induction s as [| c s IH]; intros i; simpl; [reflexivity | now rewrite IH]. Qed.

Lemma keep_chars_none (i : nat) (s : string) : keep_chars (fun _ => false) i s = "".
Proof. revert i. induction s as [| c s IH]; intros i; simpl; [reflexivity | apply IH]. Qed.

(** Spans that start at the cursor or later cover nothing before it. *)
Lemma uncovered_before (len cursor : nat) (spans : list (nat * nat)) (i : nat) :
  spans_ok len cursor spans -> (i < cursor)%nat -> uncovered spans i = true.
Proof.
  revert cursor. induction spans as [| [start end_] rest IH]; intros cursor; simpl;
    [reflexivity |].
  intros (H1 & H2 & Hrest) Hlt.
  rewrite (IH end_ Hrest) by lia.
  destruct (Nat.leb_spec start i); [lia | reflexivity].
Qed.

(** The loop of [filter_print_msg] and the copy after it: to what was
    copied so far they add the characters from the cursor on that lie in
    no span. *)
Lemma filter_loop_keeps (s : string) (spans : list (nat * nat)) (cursor : nat)
    (s_flt : string) :
  spans_ok (String.length s) cursor spans ->
  let acc := foldl (filter_step s) (cursor, s_flt) spans in
  (if (fst acc <? String.length s)%nat
   then snd acc +:+ str_slice s (fst acc) (String.length s)
   else snd acc)
  = s_flt
    +:+ keep_chars (uncovered spans) cursor
          (String.substring cursor (String.length s - cursor) s).
Proof.
  revert cursor s_flt.
  induction spans as [| [start end_] rest IH]; intros cursor s_flt; simpl.
  - intros Hle. change (uncovered []) with (fun _ : nat => true).
    rewrite keep_chars_all. unfold str_slice.
    destruct (Nat.ltb_spec cursor (String.length s)) as [Hlt | Hge]; [reflexivity |].
    replace (String.length s - cursor)%nat with 0%nat by lia.
    rewrite substring_zero.
    now rewrite string_app_nil_r.
  - intros (H1 & H2 & Hrest).
    pose proof (spans_ok_covered _ _ _ Hrest) as Hend.
    rewrite (IH end_ _ Hrest).
    replace (String.length s - cursor)%nat
      with ((start - cursor) + ((end_ - start) + (String.length s - end_)))%nat by lia.
    rewrite (substring_split s cursor) by lia.
    replace (cursor + (start - cursor))%nat with start by lia.
    rewrite (substring_split s start) by lia.
    replace (start + (end_ - start))%nat with end_ by lia.
    rewrite !keep_chars_app, !substring_length by lia.
    replace (cursor + (start - cursor))%nat with start by lia.
    replace (start + (end_ - start))%nat with end_ by lia.
    (* before the span: kept whole *)
    rewrite (keep_chars_ext _ (fun _ => true) cursor (String.substring cursor _ s)),
      keep_chars_all.
    2:{ intros j Hj. rewrite substring_length in Hj by lia.
        change (uncovered ((start, end_) :: rest) j)
          with (negb ((start <=? j)%nat && (j <? end_)%nat) && uncovered rest j).
        rewrite (uncovered_before _ _ _ j Hrest) by lia.
        destruct (Nat.leb_spec start j); [lia | reflexivity]. }
    (* inside the span: dropped *)
    rewrite (keep_chars_ext _ (fun _ => false) start (String.substring start _ s)),
      keep_chars_none.
    2:{ intros j Hj. rewrite substring_length in Hj by lia.
        change (uncovered ((start, end_) :: rest) j)
          with (negb ((start <=? j)%nat && (j <? end_)%nat) && uncovered rest j).
        destruct (Nat.leb_spec start j); [| lia].
        destruct (Nat.ltb_spec j end_); [reflexivity | lia]. }
    (* after the span: as the later spans decide *)
    rewrite (keep_chars_ext (uncovered ((start, end_) :: rest)) (uncovered rest) end_).
    2:{ intros j Hj.
        change (uncovered ((start, end_) :: rest) j)
          with (negb ((start <=? j)%nat && (j <? end_)%nat) && uncovered rest j).
        destruct (Nat.ltb_spec j end_); [lia |]. now rewrite andb_false_r. }
    change ("" +:+ ?x) with x.
    rewrite <- string_app_assoc. f_equal.
    destruct (Nat.ltb_spec cursor start) as [Hlt | Hge]; [reflexivity |].
    replace (start - cursor)%nat with 0%nat by lia.
    rewrite substring_zero.
    now rewrite string_app_nil_r.
Qed.

(** X23. [filter_print_msg] removes the characters the matches cover and
    nothing else: when the spans of the matches run left to right inside
    the message without overlap, as [finditer] yields them, the result
    is the message's characters at the positions in no span, in their
    order; so its length and the number of characters covered add up to
    the length of the message. *)
Theorem filter_print_msg_without_spans (s : string) :
  spans_ok (String.length s) 0 (finditer s) ->
  filter_print_msg finditer s = without_spans (finditer s) s
  /\ (String.length (filter_print_msg finditer s) + covered (finditer s))%nat
     = String.length s.
Proof.
  intros Hok. split; [| exact (filter_print_msg_covered s Hok)].
  unfold filter_print_msg, without_spans.
  destruct (String.eqb_spec s "") as [-> | Hne]; [reflexivity |].
  pose proof (filter_loop_keeps s (finditer s) 0 "" Hok) as Hloop. cbv zeta in Hloop.
  destruct (foldl (filter_step s) (0%nat, "") (finditer s)) as [cursor s_flt].
  cbn [fst snd] in Hloop. rewrite Hloop, Nat.sub_0_r, substring_all. reflexivity.
Qed.

(** X24. A message without a match comes back as it is. *)
Theorem filter_print_msg_plain (s : string) :
  finditer s = [] -> filter_print_msg finditer s = s.
Proof.
  intros Hnone. unfold filter_print_msg. rewrite Hnone. simpl.
  destruct (String.eqb_spec s "") as [-> | Hne]; [reflexivity |].
  destruct (Nat.ltb_spec 0 (String.length s)) as [Hlt | Hge].
  - unfold str_slice. now rewrite Nat.sub_0_r, substring_all.
  - destruct s; [congruence | simpl in Hge; lia].
Qed.

(** X25. When the spans of the matches of every line are well formed,
    [ljust_screen_block] keeps the number of lines and returns no line
    shorter than [width]. *)
Theorem ljust_screen_block_width (block : list string) (width : Z) :
  Forall (fun s => spans_ok (String.length s) 0 (finditer s)) block ->
  List.length (ljust_screen_block finditer block width) = List.length block
  /\ Forall (fun s => width <= Z.of_nat (String.length s))
       (ljust_screen_block finditer block width).
Proof.
  intros Hok. unfold ljust_screen_block. split; [apply length_fmap |].
  apply Forall_fmap. eapply Forall_impl; [exact Hok |]. intros s Hs. simpl.
  pose proof (filter_print_msg_covered s Hs) as Hlen.
  destruct (Z.ltb_spec width (Z.of_nat (String.length (filter_print_msg finditer s))))
    as [Hlt | Hge].
  - lia.
  - rewrite string_length_app, spaces_length. lia.
Qed.

End ConsoleProperties.

(** The properties above, on a line in bright style and on plain text. *)

Lemma filter_print_msg_without_spans_witness :
  filter_print_msg sample_finditer sample_line
  = without_spans (sample_finditer sample_line) sample_line
  /\ (String.length (filter_print_msg sample_finditer sample_line)
      + covered (sample_finditer sample_line))%nat
     = String.length sample_line.
Proof.
  apply (filter_print_msg_without_spans sample_finditer sample_line).
  vm_compute. repeat split; lia.
Defined.

Example without_spans_bright :
  without_spans (sample_finditer sample_line) sample_line = "ab".
Proof. reflexivity. Qed.

Example filter_print_msg_bright :
  filter_print_msg sample_finditer sample_line = "ab".
Proof. reflexivity. Qed.

Lemma filter_print_msg_plain_witness :
  filter_print_msg sample_finditer "  No positions open" = "  No positions open".
Proof.
  apply (filter_print_msg_plain sample_finditer "  No positions open"). reflexivity.
Defined.

Lemma ljust_screen_block_width_witness :
  List.length (ljust_screen_block sample_finditer [sample_line; "  VIX: -"] 5) = 2%nat
  /\ Forall (fun s => 5 <= Z.of_nat (String.length s))
       (ljust_screen_block sample_finditer [sample_line; "  VIX: -"] 5).
Proof.
  apply (ljust_screen_block_width sample_finditer [sample_line; "  VIX: -"] 5).
  repeat constructor; vm_compute; lia.
Defined.

(** The bright line fits in five columns and keeps its escape sequences;
    the plain one does not fit and is returned as it is. *)
Example ljust_screen_block_lines :
  ljust_screen_block sample_finditer [sample_line; "  VIX: -"] 5
  = [sample_line +:+ "   "; "  VIX: -"].
Proof. reflexivity. Qed.

(** ** [find_ib_trade] *)

Lemma NoDup_fmap_eq {A B} (f : A -> B) (l : list A) (x y : A) :
  NoDup (f <$> l) -> x ∈ l -> y ∈ l -> f x = f y -> x = y.
Proof.
  intros Hnd [i Hi]%list_elem_of_lookup_1 [j Hj]%list_elem_of_lookup_1 Heq.
  assert (i = j).
  { apply (NoDup_lookup (f <$> l) i j (f x)); [assumption | |].
    - now rewrite list_lookup_fmap, Hi.
    - rewrite list_lookup_fmap, Hj. simpl. now rewrite Heq. }
  subst j. congruence.
Qed.

Section FindTrade.

Context {rt : PyRuntime} (app : IB) (utcnow : Z).

Lemma find_ib_trade_run (order : Order) (w : World) :
  fst (find_ib_trade app order w)
  = Ok (head (filter (fun ib_trade => io_permId (t_order ib_trade) = o_ib_id order)
                (trades app ++ reqCompletedOrders app))).
Proof. reflexivity. Qed.

(** X26. [find_ib_trade] never raises and leaves the account alone; it
    answers with the first trade of the session, open ones before
    completed ones, whose broker id is the order's, and with [None]
    exactly when no trade has that id. *)
Theorem find_ib_trade_first (order : Order) (w : World) :
  w_account (snd (find_ib_trade app order w)) = w_account w
  /\ exists found,
       fst (find_ib_trade app order w) = Ok found
       /\ match found with
          | Some ib_trade =>
              exists l1 l2,
                trades app ++ reqCompletedOrders app = l1 ++ ib_trade :: l2
                /\ io_permId (t_order ib_trade) = o_ib_id order
                /\ Forall (fun t => io_permId (t_order t) <> o_ib_id order) l1
          | None =>
              Forall (fun t => io_permId (t_order t) <> o_ib_id order)
                (trades app ++ reqCompletedOrders app)
          end.
Proof.
  split; [reflexivity |].
  eexists. split; [apply find_ib_trade_run |].
  pose proof (filter_first (fun ib_trade => io_permId (t_order ib_trade) = o_ib_id order)
                (trades app ++ reqCompletedOrders app)) as H.
  destruct (filter _ _) as [| ib_trade k]; simpl; [exact H |].
  destruct H as (l1 & l2 & Heq & Hid & Hl1). eauto.
Qed.

(** X27. The order a refresh files for a trade leads back to the trade:
    when the trades of the session have distinct broker ids,
    [find_ib_trade] on an order refreshed from one of them returns that
    trade. *)
Theorem find_ib_trade_of_refreshed (order : Order) (ib_trade : Trade) (w : World) :
  NoDup ((fun ib_trade => io_permId (t_order ib_trade))
           <$> (trades app ++ reqCompletedOrders app)) ->
  ib_trade ∈ trades app ++ reqCompletedOrders app ->
  refreshed_from app utcnow ib_trade order ->
  fst (find_ib_trade app order w) = Ok (Some ib_trade).
Proof.
  intros Hnd Hin [Hid _]. rewrite find_ib_trade_run. do 2 f_equal.
  pose proof (filter_first (fun ib_trade => io_permId (t_order ib_trade) = o_ib_id order)
                (trades app ++ reqCompletedOrders app)) as H.
  destruct (filter _ _) as [| found k]; simpl.
  - rewrite Forall_forall in H. now destruct (H ib_trade Hin).
  - destruct H as (l1 & l2 & Heq & Hfound & _). f_equal.
    apply (NoDup_fmap_eq (fun ib_trade => io_permId (t_order ib_trade))
             (trades app ++ reqCompletedOrders app)); [assumption | | assumption | congruence].
    rewrite Heq. apply elem_of_app. right. apply list_elem_of_here.
Qed.

End FindTrade.

Lemma find_ib_trade_of_refreshed_witness :
  let order :=
    fst (refresh_order sample_app_trading 10
           (Order_init (rt := sample_runtime) 10 10 "FB" BUY 10 0%float 77)
           (Some sample_trade)) in
  fst (find_ib_trade sample_app_trading order sample_world) = Ok (Some sample_trade).
Proof.
  apply (find_ib_trade_of_refreshed sample_app_trading 10
           (fst (refresh_order sample_app_trading 10
                   (Order_init (rt := sample_runtime) 10 10 "FB" BUY 10 0%float 77)
                   (Some sample_trade)))
           sample_trade sample_world).
  - vm_compute. apply NoDup_singleton.
  - apply list_elem_of_here.
  - split; [reflexivity | eexists; reflexivity].
Defined.
